(** * Bernoulli mixture model: a shallow embedding of [bernoullimix/mixture.py]

    The development follows the Python module function by function.

    Numbers.  The program computes with NumPy double-precision arrays.  Here
    a floating-point number is an exact real number ([R]); rounding is not
    modelled.  [np.log] is the total function [ln] and [/] the total division
    of the reals; where IEEE arithmetic would leave the reals (the logarithm
    of a non-positive number, a division by zero) the value of the model is
    not the value of the program, so every statement whose truth depends on
    such a value carries the hypothesis that excludes it.

    Arrays.  A one-dimensional array is a list; a two-dimensional array is a
    [matrix]: its rows together with the second component of its [shape],
    which an array keeps even when it has no rows.

    Exceptions.  Every [raise ValueError(...)] of the module is a constructor
    of [exception]; a method that may raise returns a [result]. *)

From Stdlib Require Import Reals Lra Lia List ZArith Bool Arith.
From Stdlib Require Import Permutation Sorted.
Import ListNotations.

Open Scope R_scope.

(** ** Arrays *)

Record matrix (A : Type) : Type := Mat {
  n_cols : nat;
  m_rows : list (list A)
}.
Arguments Mat {A} n_cols m_rows.
Arguments n_cols {A} m.
Arguments m_rows {A} m.

(** [a.shape] of a two-dimensional array, and of a one-dimensional one. *)
Definition shape {A} (a : matrix A) : Z * Z :=
  (Z.of_nat (length (m_rows a)), Z.of_nat (n_cols a)).

Definition shape1 {A} (v : list A) : Z := Z.of_nat (length v).

(** The representation invariant of a two-dimensional array. *)
Definition wf_matrix {A} (a : matrix A) : Prop :=
  Forall (fun r => length r = n_cols a) (m_rows a).

(** ** The NumPy operations the module uses *)

Definition Rleb (a b : R) : bool := if Rle_dec a b then true else false.
Definition Rltb (a b : R) : bool := if Rlt_dec a b then true else false.

(** [np.sum] of a one-dimensional array. *)
Definition np_sum (v : list R) : R := fold_right Rplus 0 v.

(** [np.sum(a, axis=1)]. *)
Definition np_sum_axis1 (rows : list (list R)) : list R := map np_sum rows.

(** [np.isclose(a, b, rtol, atol)] on finite scalars:
    [abs(a - b) <= atol + rtol * abs(b)]. *)
Definition np_isclose (a b rtol atol : R) : bool :=
  Rleb (Rabs (a - b)) (atol + rtol * Rabs b).

Definition default_rtol : R := 1e-5.
Definition default_atol : R := 1e-8.

(** [np.log] on positive numbers.  [ln] is total: on an argument that is not
    positive it is 0, where [np.log] gives [-inf] or [nan]; a statement that
    depends on the value carries the hypothesis that the argument is
    positive. *)
Definition np_log (x : R) : R := ln x.

(** [np.all((array_ >= 0) & (array_ <= 1))] *)
Definition _bounded_between_zero_and_one (array_ : list R) : bool :=
  forallb (fun x => Rleb 0 x && Rleb x 1) array_.

(** Column [k] of a list of rows: [a[:, k]]. *)
Definition column (k : nat) (rows : list (list R)) : list R :=
  map (fun r => nth k r 0) rows.

(** [a.T] for an array with [c] columns. *)
Definition np_T (c : nat) (rows : list (list R)) : list (list R) :=
  map (fun k => column k rows) (seq 0 c).

(** Elementwise product of two vectors of the same length. *)
Fixpoint mul_vec (a b : list R) : list R :=
  match a, b with
  | x :: a', y :: b' => x * y :: mul_vec a' b'
  | _, _ => []
  end.

(** [np.argmax] of a one-dimensional array: the first index that holds the
    largest entry. *)
Fixpoint argmax_from (best : nat) (bestv : R) (i : nat) (v : list R) : nat :=
  match v with
  | [] => best
  | x :: v' =>
      if Rltb bestv x then argmax_from i x (S i) v'
      else argmax_from best bestv (S i) v'
  end.

Definition np_argmax (v : list R) : nat :=
  match v with
  | [] => 0%nat
  | x :: v' => argmax_from 0 x 1 v'
  end.

(** ** Exceptions *)

Inductive exception : Type :=
| WrongShapeMixing (expected got : Z)
| MixingNotSumToOne (got : R)
| MixingNotBounded
| WrongShapeEmission (expected got : Z * Z)
| EmissionNotBounded
| DatasetShapeMismatch (got expected : Z)
| EmptyRecord
| NegativeDimensions.

(** The two kinds of failure the interface distinguishes. *)
Definition is_validation_error (e : exception) : bool :=
  match e with
  | WrongShapeMixing _ _ | MixingNotSumToOne _ | MixingNotBounded
  | WrongShapeEmission _ _ | EmissionNotBounded => true
  | _ => false
  end.

Definition is_dimension_mismatch (e : exception) : bool :=
  match e with
  | DatasetShapeMismatch _ _ => true
  | _ => false
  end.

Definition result (A : Type) : Type := (exception + A)%type.
Definition raise {A} (e : exception) : result A := inl e.
Definition ret {A} (a : A) : result A := inr a.

Definition bind {A B} (r : result A) (k : A -> result B) : result B :=
  match r with
  | inl e => inl e
  | inr a => k a
  end.

Notation "x <- r ;; k" := (bind r (fun x => k))
  (at level 61, r at next level, right associativity).

(** ** class ConvergenceStatus *)

Record ConvergenceStatus : Type := {
  converged : bool;
  number_of_iterations : nat;
  likelihood_trace : option (list (option R))
}.

Definition trace_available (s : ConvergenceStatus) : bool :=
  match likelihood_trace s with Some _ => true | None => false end.

(** ** class BernoulliMixture *)

Record BernoulliMixture : Type := {
  _number_of_components : Z;
  _number_of_dimensions : Z;
  _mixing_coefficients : list R;
  _emission_probabilities : matrix R
}.

Definition number_of_components (self : BernoulliMixture) : Z :=
  _number_of_components self.
Definition number_of_dimensions (self : BernoulliMixture) : Z :=
  _number_of_dimensions self.
Definition emission_probabilities (self : BernoulliMixture) : matrix R :=
  _emission_probabilities self.
Definition mixing_coefficients (self : BernoulliMixture) : list R :=
  _mixing_coefficients self.

Definition Zpair_eqb (a b : Z * Z) : bool :=
  (fst a =? fst b)%Z && (snd a =? snd b)%Z.

(** [_validate]: the five checks, in the order of the source. *)
Definition _validate (self : BernoulliMixture) : result unit :=
  let K := number_of_components self in
  let D := number_of_dimensions self in
  if negb (shape1 (mixing_coefficients self) =? K)%Z then
    raise (WrongShapeMixing K (shape1 (mixing_coefficients self)))
  else if negb (np_isclose (np_sum (mixing_coefficients self)) 1
                           default_rtol default_atol) then
    raise (MixingNotSumToOne (np_sum (mixing_coefficients self)))
  else if negb (_bounded_between_zero_and_one (mixing_coefficients self)) then
    raise MixingNotBounded
  else if negb (Zpair_eqb (shape (emission_probabilities self)) (K, D)) then
    raise (WrongShapeEmission (K, D) (shape (emission_probabilities self)))
  else if negb (_bounded_between_zero_and_one
                  (concat (m_rows (emission_probabilities self)))) then
    raise EmissionNotBounded
  else ret tt.

(** [__init__]: the object is returned only when [_validate] did not raise. *)
Definition __init__ (number_of_components number_of_dimensions : Z)
    (mixing_coefficients : list R) (emission_probabilities : matrix R)
  : result BernoulliMixture :=
  let self := {| _number_of_components := number_of_components;
                 _number_of_dimensions := number_of_dimensions;
                 _mixing_coefficients := mixing_coefficients;
                 _emission_probabilities := emission_probabilities |} in
  _ <- _validate self ;;
  ret self.

(** [number_of_free_parameters] *)
Definition number_of_free_parameters (self : BernoulliMixture) : Z :=
  ((number_of_components self - 1)
   + (number_of_components self * number_of_dimensions self))%Z.

(** ** Aggregation of the dataset *)

(** The order [np.unique] sorts the rows by: the rows are structured records
    of [columns] boolean fields, compared field by field, [False < True]. *)
Fixpoint row_leb (a b : list bool) : bool :=
  match a, b with
  | [], _ => true
  | _ :: _, [] => false
  | x :: a', y :: b' =>
      if Bool.eqb x y then row_leb a' b' else negb x
  end.

Fixpoint row_eqb (a b : list bool) : bool :=
  match a, b with
  | [], [] => true
  | x :: a', y :: b' => Bool.eqb x y && row_eqb a' b'
  | _, _ => false
  end.

Fixpoint insert_row (r : list bool) (l : list (list bool)) : list (list bool) :=
  match l with
  | [] => [r]
  | x :: l' => if row_leb r x then r :: l else x :: insert_row r l'
  end.

Fixpoint sort_rows (l : list (list bool)) : list (list bool) :=
  match l with
  | [] => []
  | r :: l' => insert_row r (sort_rows l')
  end.

(** One pass over the sorted rows: each run of equal rows becomes one row and
    the length of the run. *)
Fixpoint run_lengths (l : list (list bool)) : list (list bool * nat) :=
  match l with
  | [] => []
  | r :: l' =>
      match run_lengths l' with
      | (r', c) :: rest =>
          if row_eqb r r' then (r', S c) :: rest else (r, 1%nat) :: (r', c) :: rest
      | [] => [(r, 1%nat)]
      end
  end.

(** [np.unique(structured, return_counts=True)] *)
Definition np_unique_counts (rows : list (list bool))
  : list (list bool) * list nat :=
  split (run_lengths (sort_rows rows)).

(** [dataset.view(dataset.dtype.descr * columns)]: every row becomes one
    record of [columns] fields.  NumPy refuses the view when the record has
    no field, that is, for a dataset without columns. *)
Definition view_as_records (dataset : matrix bool) : result (list (list bool)) :=
  if (n_cols dataset =? 0)%nat then raise EmptyRecord
  else ret (m_rows dataset).

(** [_aggregate_dataset] *)
Definition _aggregate_dataset (dataset : matrix bool)
  : result (matrix bool * list nat) :=
  let columns := n_cols dataset in
  structured <- view_as_records dataset ;;
  let '(unique, counts) := np_unique_counts structured in
  ret (Mat columns unique, counts).

(** ** Support, likelihood, E-step and M-step *)

(** Modelled from the spec: the product that [bernoulli_prob_for_observations]
    computes for one observation.  The function lives in the compiled module
    [bernoullimix._bernoulli], which is not among the sources.
    By the specification of the support matrix, entry (i,k) is
    [mixing_coefficient[k]] times the product over the dimensions [d] of
    [emission_probabilities[k,d]] if [row_i[d]] is true and of
    [1 - emission_probabilities[k,d]] otherwise; the method below multiplies
    by the mixing coefficient itself, so the helper returns the product. *)
Fixpoint bernoulli_prob (p : list R) (row : list bool) : R :=
  match p, row with
  | q :: p', b :: row' => (if b then q else 1 - q) * bernoulli_prob p' row'
  | _, _ => 1
  end.

(** Modelled from the spec: [bernoulli_prob_for_observations], the helper of
    [bernoullimix._bernoulli] that the support computation calls: one
    product, as above, for every observation. *)
Definition bernoulli_prob_for_observations (p : list R)
    (observations : list (list bool)) : list R :=
  map (bernoulli_prob p) observations.

(** [_observation_emission_support]: the answer is filled column by column,
    one column per component.  (The indices [component] stay below the
    lengths of both parameter arrays for every model that passed
    [_validate] or came out of [_m_step].) *)
Definition support_column (self : BernoulliMixture)
    (observations : list (list bool)) (component : nat) : list R :=
  let component_emission_probs :=
    nth component (m_rows (emission_probabilities self)) [] in
  map (Rmult (nth component (mixing_coefficients self) 0))
      (bernoulli_prob_for_observations component_emission_probs observations).

Definition _observation_emission_support (self : BernoulliMixture)
    (observations : matrix bool) : matrix R :=
  let K := Z.to_nat (number_of_components self) in
  let columns := map (support_column self (m_rows observations)) (seq 0 K) in
  Mat K (map (fun i => map (fun col => nth i col 0) columns)
             (seq 0 (length (m_rows observations)))).

(** [_log_likelihood_from_support]:
    [np.sum(np.log(np.sum(support, axis=1)) * weights)] *)
Definition _log_likelihood_from_support (support : matrix R)
    (weights : list R) : R :=
  np_sum (mul_vec (map np_log (np_sum_axis1 (m_rows support))) weights).

(** Elementwise quotient of two vectors of the same length. *)
Fixpoint div_vec (a b : list R) : list R :=
  match a, b with
  | x :: a', y :: b' => x / y :: div_vec a' b'
  | _, _ => []
  end.

(** [_posterior_probability_of_class_given_support]:
    [(support.T / np.sum(support, axis=1)).T].  The division of the reals is
    total: a row whose sum is zero comes out as zeros, where NumPy gives
    [nan]; a statement that depends on it carries the hypothesis that no row
    sum is zero. *)
Definition _posterior_probability_of_class_given_support (support : matrix R)
  : matrix R :=
  let sums := np_sum_axis1 (m_rows support) in
  let quotient :=
    map (fun col => div_vec col sums) (np_T (n_cols support) (m_rows support)) in
  Mat (n_cols support) (np_T (length (m_rows support)) quotient).

Definition b2R (b : bool) : R := if b then 1 else 0.

(** Sum of [f i] for [i] below [n]. *)
Definition big_sum (n : nat) (f : nat -> R) : R := np_sum (map f (seq 0 n)).

(** Modelled from the spec: [maximise_emissions] lives in the compiled module
    [bernoullimix._bernoulli], which is not among the sources.  The M-step of
    the specification sets the new emission probability (k,d) to the sum over
    the rows i of [weight_i * zstar[i,k] * row_i[d]], divided by [u_k]; the
    method below does the division itself, so the helper returns the sums. *)
Definition maximise_emissions (unique_dataset : matrix bool)
    (unique_zstar : matrix R) (weights : list R) : matrix R :=
  let M := length (m_rows unique_zstar) in
  Mat (n_cols unique_dataset)
      (map (fun k =>
              map (fun d =>
                     big_sum M (fun i =>
                       nth i weights 0
                       * nth k (nth i (m_rows unique_zstar) []) 0
                       * b2R (nth d (nth i (m_rows unique_dataset) []) false)))
                  (seq 0 (n_cols unique_dataset)))
           (seq 0 (n_cols unique_zstar))).

(** [for k in range(K): vs[k] /= u[k]] *)
Definition divide_rows (vs : list (list R)) (u : list R) : list (list R) :=
  map (fun '(row, uk) => map (fun v => v / uk) row) (combine vs u).

(** [_m_step] *)
Definition _m_step (unique_zstar : matrix R) (unique_dataset : matrix bool)
    (weights : list R) : list R * matrix R :=
  let u :=
    np_sum_axis1
      (map (fun col => mul_vec col weights)
           (np_T (n_cols unique_zstar) (m_rows unique_zstar))) in
  let sum_of_weights := np_sum weights in
  let vs := maximise_emissions unique_dataset unique_zstar weights in
  let vs := Mat (n_cols vs) (divide_rows (m_rows vs) u) in
  (map (fun uk => uk / sum_of_weights) u, vs).

(** ** Scoring *)

(** The check with which [log_likelihood] and [fit] begin:
    [if dataset.shape[1] != self.number_of_dimensions: raise ValueError(...)] *)
Definition check_dimensions (self : BernoulliMixture) (dataset : matrix bool)
  : result unit :=
  if negb (snd (shape dataset) =? number_of_dimensions self)%Z then
    raise (DatasetShapeMismatch (snd (shape dataset)) (number_of_dimensions self))
  else ret tt.

(** [log_likelihood] *)
Definition log_likelihood (self : BernoulliMixture) (dataset : matrix bool)
  : result R :=
  _ <- check_dimensions self dataset ;;
  aggregate <- _aggregate_dataset dataset ;;
  let '(unique_dataset, weights) := aggregate in
  let support := _observation_emission_support self unique_dataset in
  ret (_log_likelihood_from_support support (map INR weights)).

(** [_penalised_likelihood] *)
Definition _penalised_likelihood (self : BernoulliMixture)
    (log_likelihood psi : R) : R :=
  -2 * log_likelihood + psi * IZR (number_of_free_parameters self).

(** [BIC] *)
Definition BIC (self : BernoulliMixture) (dataset : matrix bool) : result R :=
  log_likelihood <- log_likelihood self dataset ;;
  let psi := np_log (INR (length (m_rows dataset))) in
  ret (_penalised_likelihood self log_likelihood psi).

(** [AIC] *)
Definition AIC (self : BernoulliMixture) (dataset : matrix bool) : result R :=
  log_likelihood <- log_likelihood self dataset ;;
  let psi := 2 in
  ret (_penalised_likelihood self log_likelihood psi).

(** ** Assignment *)

(** [soft_assignment]: no statement on this path raises. *)
Definition soft_assignment (self : BernoulliMixture) (dataset : matrix bool)
  : result (matrix R) :=
  let support := _observation_emission_support self dataset in
  let probs := _posterior_probability_of_class_given_support support in
  ret probs.

(** [hard_assignment]: [np.argmax(probs, axis=1)] *)
Definition hard_assignment (self : BernoulliMixture) (dataset : matrix bool)
  : result (list nat) :=
  probs <- soft_assignment self dataset ;;
  ret (map np_argmax (m_rows probs)).

(** ** fit *)

(** [likelihood_trace] while the loop runs: an array allocated by [np.empty]
    (its cells hold nothing until they are written), or a Python list. *)
Inductive trace_store : Type :=
| TraceArray (cells : list (option R))
| TraceList (values : list R).

(** Truth value of [iteration_limit]: [None] and [0] are false. *)
Definition truthy (iteration_limit : option Z) : bool :=
  match iteration_limit with
  | None => false
  | Some n => negb (n =? 0)%Z
  end.

(** [a[i] = v] for [i] within the array (the loop test of [fit] keeps the
    index it writes at below the length of the array). *)
Fixpoint array_set {A} (a : list A) (i : nat) (v : A) : list A :=
  match a, i with
  | [], _ => []
  | _ :: a', O => v :: a'
  | x :: a', S i' => x :: array_set a' i' v
  end.

(** The local variables of [fit] that the loop reads and writes, with the
    two parameter arrays of [self]. *)
Record fit_state : Type := {
  fit_self : BernoulliMixture;
  previous_log_likelihood : option R;
  current_log_likelihood : option R;
  iterations_done : nat;
  trace : option trace_store;
  fit_converged : bool
}.

(** The trace as allocated before the loop. *)
Definition initial_trace (iteration_limit : option Z) (trace_likelihood : bool)
  : result (option trace_store) :=
  if trace_likelihood then
    if truthy iteration_limit then
      match iteration_limit with
      | Some n =>
          if (n <? 0)%Z then raise NegativeDimensions
          else ret (Some (TraceArray (repeat None (Z.to_nat n))))
      | None => ret (Some (TraceList []))
      end
    else ret (Some (TraceList []))
  else ret None.

(** The loop test: [iteration_limit is None or iterations_done < iteration_limit]. *)
Definition loop_test (iteration_limit : option Z) (s : fit_state) : bool :=
  match iteration_limit with
  | None => true
  | Some n => (Z.of_nat (iterations_done s) <? n)%Z
  end.

(** The convergence test of one pass. *)
Definition convergence_test (previous : option R) (current : R)
    (convergence_threshold : R) : bool :=
  match previous with
  | None => false
  | Some previous => np_isclose current previous 0 convergence_threshold
  end.

Definition record_trace (t : option trace_store) (iterations_done : nat)
    (current : R) : option trace_store :=
  match t with
  | None => None
  | Some (TraceArray cells) =>
      Some (TraceArray (array_set cells iterations_done (Some current)))
  | Some (TraceList values) => Some (TraceList (values ++ [current]))
  end.

(** One pass through the body of the [while] loop.  The boolean tells
    whether the pass left the loop through [break]. *)
Definition fit_iteration (unique_dataset : matrix bool) (counts : list nat)
    (convergence_threshold : R) (s : fit_state) : bool * fit_state :=
  let self := fit_self s in
  let unique_support := _observation_emission_support self unique_dataset in
  let current := _log_likelihood_from_support unique_support (map INR counts) in
  if convergence_test (previous_log_likelihood s) current convergence_threshold
  then
    (true, {| fit_self := self;
              previous_log_likelihood := previous_log_likelihood s;
              current_log_likelihood := Some current;
              iterations_done := iterations_done s;
              trace := trace s;
              fit_converged := true |})
  else
    let unique_z_star :=
      _posterior_probability_of_class_given_support unique_support in
    let '(pi, e) := _m_step unique_z_star unique_dataset (map INR counts) in
    let self' := {| _number_of_components := _number_of_components self;
                    _number_of_dimensions := _number_of_dimensions self;
                    _mixing_coefficients := pi;
                    _emission_probabilities := e |} in
    (false, {| fit_self := self';
               previous_log_likelihood := Some current;
               current_log_likelihood := Some current;
               iterations_done := S (iterations_done s);
               trace := record_trace (trace s) (iterations_done s) current;
               fit_converged := fit_converged s |}).

(** The [while] loop.  With [iteration_limit = None] nothing bounds the
    number of passes, so the loop takes a bound on them; [None] means that
    the bound was reached. *)
Fixpoint fit_loop (fuel : nat) (unique_dataset : matrix bool)
    (counts : list nat) (iteration_limit : option Z)
    (convergence_threshold : R) (s : fit_state) : option fit_state :=
  if loop_test iteration_limit s then
    match fuel with
    | O => None
    | S fuel' =>
        match fit_iteration unique_dataset counts convergence_threshold s with
        | (true, s') => Some s'
        | (false, s') =>
            fit_loop fuel' unique_dataset counts iteration_limit
                     convergence_threshold s'
        end
    end
  else Some s.

(** The cells of a trace: those of the array, or [np.array] of the list. *)
Definition trace_cells (t : trace_store) : list (option R) :=
  match t with
  | TraceArray cells => cells
  | TraceList values => map Some values
  end.

(** The trace as handed to [ConvergenceStatus] after the loop: the list is
    turned into an array, the array is cut to the passes that were made. *)
Definition final_trace (iteration_limit : option Z) (s : fit_state)
  : option (list (option R)) :=
  match trace s with
  | None => None
  | Some t =>
      if negb (truthy iteration_limit) then Some (trace_cells t)
      else if (iterations_done s <? length (trace_cells t))%nat
           then Some (firstn (iterations_done s) (trace_cells t))
           else Some (trace_cells t)
  end.

(** [fit].  The method mutates [self]; the model returns the object as the
    call leaves it, next to what the call returns or raises.  The outer
    [option] is [None] when [fuel] passes did not finish the loop. *)
Definition fit (fuel : nat) (self : BernoulliMixture) (dataset : matrix bool)
    (iteration_limit : option Z) (convergence_threshold : R)
    (trace_likelihood : bool)
  : option (BernoulliMixture * result (option R * ConvergenceStatus)) :=
  match check_dimensions self dataset with
  | inl e => Some (self, raise e)
  | inr _ =>
    match _aggregate_dataset dataset with
    | inl e => Some (self, raise e)
    | inr (unique_dataset, counts) =>
      match initial_trace iteration_limit trace_likelihood with
      | inl e => Some (self, raise e)
      | inr likelihood_trace =>
          let s0 := {| fit_self := self;
                       previous_log_likelihood := None;
                       current_log_likelihood := None;
                       iterations_done := 0;
                       trace := likelihood_trace;
                       fit_converged := false |} in
          match fit_loop fuel unique_dataset counts iteration_limit
                         convergence_threshold s0 with
          | None => None
          | Some s =>
              let convergence_status :=
                {| converged := fit_converged s;
                   number_of_iterations := iterations_done s;
                   likelihood_trace := final_trace iteration_limit s |} in
              Some (fit_self s,
                    ret (current_log_likelihood s, convergence_status))
          end
      end
    end
  end.

(** The default arguments of [fit]. *)
Definition default_iteration_limit : option Z := Some 1000%Z.
Definition default_convergence_threshold : R := 1e-6.

(** ** The formulas of the specification

    The definitions of this section follow the words of the specification,
    not the program; the theorems compare the program with them. *)

(** The naive log-likelihood: the sum, over the rows of the dataset as they
    come, of the logarithm of the total support of the row. *)
Definition naive_log_likelihood (self : BernoulliMixture)
    (dataset : matrix bool) : R :=
  np_sum (map (fun support_row => np_log (np_sum support_row))
              (m_rows (_observation_emission_support self dataset))).

(** Entry (i,k) of a matrix of reals and entry (i,d) of a boolean one. *)
Definition entry (a : matrix R) (i k : nat) : R :=
  nth k (nth i (m_rows a) []) 0.
Definition bit (a : matrix bool) (i d : nat) : bool :=
  nth d (nth i (m_rows a) []) false.

(** The closed-form update: [u_k], the new mixing coefficient [k] and the
    new emission probability (k,d). *)
Definition effective_count (zstar : matrix R) (weights : list R) (k : nat) : R :=
  big_sum (length (m_rows zstar)) (fun i => nth i weights 0 * entry zstar i k).

Definition closed_form_mixing (zstar : matrix R) (weights : list R) (k : nat) : R :=
  effective_count zstar weights k
  / big_sum (n_cols zstar) (fun k' => effective_count zstar weights k').

Definition closed_form_emission (zstar : matrix R) (unique_rows : matrix bool)
    (weights : list R) (k d : nat) : R :=
  big_sum (length (m_rows zstar))
          (fun i => nth i weights 0 * entry zstar i k * b2R (bit unique_rows i d))
  / effective_count zstar weights k.

(** [k] is the arg-max index of [v]: the first index that holds a largest
    entry. *)
Definition is_argmax (v : list R) (k : nat) : Prop :=
  (k < length v)%nat
  /\ (forall j, (j < length v)%nat -> nth j v 0 <= nth k v 0)
  /\ (forall j, (j < k)%nat -> nth j v 0 < nth k v 0).

(** The tolerance of the sum check of [_validate]: [np.isclose] with its
    default [rtol] and [atol] against [1.0]. *)
Definition sum_tolerance : R := default_atol + default_rtol * Rabs 1.

(** ** Example models *)

(** The model of the initialisation test: three components, four dimensions. *)
Definition model_3_4 : BernoulliMixture :=
  {| _number_of_components := 3; _number_of_dimensions := 4;
     _mixing_coefficients := [0.5; 0.4; 0.1];
     _emission_probabilities :=
       Mat 4 [[0.1; 0.2; 0.3; 0.4]; [0.1; 0.4; 0.1; 0.4]; [1; 0; 0; 0]] |}.


(** ** Counting rows *)

(** What [_aggregate_dataset] returns for a dataset that has columns. *)
Definition aggregated (dataset : matrix bool) : matrix bool * list nat :=
  let '(unique, counts) := np_unique_counts (m_rows dataset) in
  (Mat (n_cols dataset) unique, counts).

Definition row_eq_dec : forall a b : list bool, {a = b} + {a <> b} :=
  list_eq_dec bool_dec.

(** The number of rows of [rows] equal to [r]. *)
Definition occurrences (rows : list (list bool)) (r : list bool) : nat :=
  count_occ row_eq_dec rows r.

(** The rows that a list of (row, count) pairs stands for. *)
Definition expand (pairs : list (list bool * nat)) : list (list bool) :=
  flat_map (fun p => repeat (fst p) (snd p)) pairs.

Definition row_le (a b : list bool) : Prop := row_leb a b = true.
Definition row_lt (a b : list bool) : Prop := row_leb a b = true /\ a <> b.

(** ** Row-wise reading of the support matrix *)

(** Row [x] of the support matrix: entry [k] is the mixing coefficient of
    component [k] times the probability that the component emits [x]. *)
Definition support_row (self : BernoulliMixture) (x : list bool) : list R :=
  map (fun k =>
         nth k (mixing_coefficients self) 0
         * bernoulli_prob (nth k (m_rows (emission_probabilities self)) []) x)
      (seq 0 (Z.to_nat (number_of_components self))).

(** The logarithm of the total support of a row. *)
Definition row_log_likelihood (self : BernoulliMixture) (x : list bool) : R :=
  np_log (np_sum (support_row self x)).

(** The log-likelihood that a pass of the loop of [fit] computes from the
    current parameters. *)
Definition pass_log_likelihood (self : BernoulliMixture)
    (unique_dataset : matrix bool) (counts : list nat) : R :=
  _log_likelihood_from_support
    (_observation_emission_support self unique_dataset) (map INR counts).

(** A model that already sits at a fixed point of the iteration, and a
    dataset of one row for it. *)
Definition unit_model : BernoulliMixture :=
  {| _number_of_components := 1; _number_of_dimensions := 1;
     _mixing_coefficients := [1];
     _emission_probabilities := Mat 1 [[1]] |}.

Definition unit_dataset : matrix bool := Mat 1 [[true]].

(** A model that [_validate] accepts although its mixing coefficients sum to
    1.00001. *)
Definition skewed_model : BernoulliMixture :=
  {| _number_of_components := 2; _number_of_dimensions := 1;
     _mixing_coefficients := [0.500005; 0.500005];
     _emission_probabilities := Mat 1 [[1]; [1]] |}.

(** ** One step of the iteration, by indices

    The quantities of one pass of the loop of [fit], written as sums and
    products over indices: [x i d] is bit [d] of unique row [i], [w i] the
    weight of the row, [pi k] and [mu k d] the parameters. *)

(** Product of [f d] for [d] below [n]. *)
Definition big_prod (n : nat) (f : nat -> R) : R :=
  fold_right Rmult 1 (map f (seq 0 n)).

Section StepByIndices.

Variables (D K M : nat).
Variable x : nat -> nat -> bool.
Variable w : nat -> R.

Definition em_factor (mu : nat -> nat -> R) (k i d : nat) : R :=
  if x i d then mu k d else 1 - mu k d.

Definition em_support (pi : nat -> R) (mu : nat -> nat -> R) (i k : nat) : R :=
  pi k * big_prod D (em_factor mu k i).

Definition em_total (pi : nat -> R) (mu : nat -> nat -> R) (i : nat) : R :=
  big_sum K (em_support pi mu i).

Definition em_log_likelihood (pi : nat -> R) (mu : nat -> nat -> R) : R :=
  big_sum M (fun i => ln (em_total pi mu i) * w i).

Definition em_resp (pi : nat -> R) (mu : nat -> nat -> R) (i k : nat) : R :=
  em_support pi mu i k / em_total pi mu i.

Definition em_count (pi : nat -> R) (mu : nat -> nat -> R) (k : nat) : R :=
  big_sum M (fun i => w i * em_resp pi mu i k).

Definition em_new_pi (pi : nat -> R) (mu : nat -> nat -> R) (k : nat) : R :=
  em_count pi mu k / big_sum M w.

Definition em_new_mu (pi : nat -> R) (mu : nat -> nat -> R) (k d : nat) : R :=
  big_sum M (fun i => w i * em_resp pi mu i k * b2R (x i d)) / em_count pi mu k.

(** The parameters from which the iteration stays within the reals and the
    log-likelihood cannot decrease: probabilities, mixing coefficients that
    sum to at most one, positive weights, positive total support on every
    row, and for every component a row on which it has positive support. *)
Definition em_regular (pi : nat -> R) (mu : nat -> nat -> R) : Prop :=
  (forall i, (i < M)%nat -> 0 < w i)
  /\ (forall k, (k < K)%nat -> 0 <= pi k)
  /\ big_sum K pi <= 1
  /\ (forall k d, (k < K)%nat -> (d < D)%nat -> 0 <= mu k d <= 1)
  /\ (forall i, (i < M)%nat -> 0 < em_total pi mu i)
  /\ (forall k, (k < K)%nat ->
        exists i, (i < M)%nat /\ 0 < em_support pi mu i k).

End StepByIndices.

(** ** The arrays of a pass, read by indices *)

Definition model_pi (self : BernoulliMixture) (k : nat) : R :=
  nth k (mixing_coefficients self) 0.

Definition model_mu (self : BernoulliMixture) (k d : nat) : R :=
  entry (emission_probabilities self) k d.

Definition data_weight (counts : list nat) (i : nat) : R :=
  INR (nth i counts 0%nat).

(** The parameter arrays have the shapes that the number of components of
    the model and the number of columns of the dataset ask for. *)
Definition shaped_for (self : BernoulliMixture) (unique_dataset : matrix bool)
  : Prop :=
  length (mixing_coefficients self) = Z.to_nat (number_of_components self)
  /\ length (m_rows (emission_probabilities self))
     = Z.to_nat (number_of_components self)
  /\ Forall (fun row => length row = n_cols unique_dataset)
            (m_rows (emission_probabilities self)).

(** A model from which [fit] on the aggregated dataset stays within the
    reals: see [em_regular]. *)
Definition regular_for (self : BernoulliMixture) (unique_dataset : matrix bool)
    (counts : list nat) : Prop :=
  wf_matrix unique_dataset
  /\ length counts = length (m_rows unique_dataset)
  /\ shaped_for self unique_dataset
  /\ em_regular (n_cols unique_dataset)
                (Z.to_nat (number_of_components self))
                (length (m_rows unique_dataset))
                (bit unique_dataset) (data_weight counts)
                (model_pi self) (model_mu self).

(** The model as one pass of the loop of [fit] leaves it. *)
Definition m_step_of (self : BernoulliMixture) (unique_dataset : matrix bool)
    (counts : list nat) : BernoulliMixture :=
  let update :=
    _m_step (_posterior_probability_of_class_given_support
               (_observation_emission_support self unique_dataset))
            unique_dataset (map INR counts) in
  {| _number_of_components := _number_of_components self;
     _number_of_dimensions := _number_of_dimensions self;
     _mixing_coefficients := fst update;
     _emission_probabilities := snd update |}.

(** A list of reals in which no entry is followed by a smaller one. *)
Definition non_decreasing (values : list R) : Prop :=
  forall t a b, nth_error values t = Some a ->
                nth_error values (S t) = Some b -> a <= b.

(** The trace store holds exactly [values]: as a list, or as the written
    prefix of the array allocated for [iteration_limit] entries. *)
Definition trace_holds (iteration_limit : option Z) (t : option trace_store)
    (values : list R) : Prop :=
  if truthy iteration_limit then
    exists n, iteration_limit = Some n
              /\ (length values <= Z.to_nat n)%nat
              /\ t = Some (TraceArray
                             (map Some values
                              ++ repeat None (Z.to_nat n - length values)))
  else t = Some (TraceList values).

(** What every pass of the loop of a traced [fit] preserves when it starts
    from a regular model. *)
Definition loop_invariant (unique_dataset : matrix bool) (counts : list nat)
    (iteration_limit : option Z) (s : fit_state) (values : list R) : Prop :=
  regular_for (fit_self s) unique_dataset counts
  /\ trace_holds iteration_limit (trace s) values
  /\ length values = iterations_done s
  /\ non_decreasing values
  /\ (forall v, In v values ->
        v <= pass_log_likelihood (fit_self s) unique_dataset counts)
  /\ (forall c, current_log_likelihood s = Some c ->
        forall v, In v values -> v <= c).

(** The hypotheses of the monotonicity theorem, on the model and the dataset
    as they are passed to [fit]: the arrays have the right shapes, the mixing
    coefficients are non-negative and sum to at most one, the emission
    probabilities lie in [0,1], every row of the dataset has positive total
    support and every component has positive support on some row. *)
Definition non_degenerate (self : BernoulliMixture) (dataset : matrix bool)
  : Prop :=
  wf_matrix dataset
  /\ shaped_for self dataset
  /\ Forall (fun p => 0 <= p) (mixing_coefficients self)
  /\ np_sum (mixing_coefficients self) <= 1
  /\ Forall (Forall (fun p => 0 <= p <= 1))
            (m_rows (emission_probabilities self))
  /\ Forall (fun row => 0 < np_sum (support_row self row)) (m_rows dataset)
  /\ (forall k, (k < Z.to_nat (number_of_components self))%nat ->
        exists row, In row (m_rows dataset)
                    /\ 0 < nth k (support_row self row) 0).

(** Two components, two dimensions, and a dataset of three rows. *)
Definition model_2_2 : BernoulliMixture :=
  {| _number_of_components := 2; _number_of_dimensions := 2;
     _mixing_coefficients := [0.5; 0.5];
     _emission_probabilities := Mat 2 [[0.2; 0.7]; [0.6; 0.3]] |}.

Definition dataset_3_2 : matrix bool :=
  Mat 2 [[true; false]; [false; true]; [true; false]].

(** ** Tactics *)

(** Replaces the argument of every logarithm by 1 when it is equal to 1 as a
    field expression. *)
Ltac ln_of_one :=
  repeat match goal with
         | |- context [ln ?e] =>
             lazymatch e with
             | 1 => fail
             | _ => replace e with 1 by (field; lra)
             end
         end;
  rewrite ?ln_1.

Ltac unfold_steps :=
  unfold support_row, _m_step, maximise_emissions,
    _posterior_probability_of_class_given_support,
    _observation_emission_support, support_column,
    bernoulli_prob_for_observations, divide_rows, big_sum, np_T, column,
    np_sum_axis1, np_sum, np_log.


(** ** The run of [fit] pass by pass, and further definitions *)

(** Two datasets with the same number of columns, one on top of the other. *)
Definition vstack {A} (a b : matrix A) : matrix A :=
  Mat (n_cols a) (m_rows a ++ m_rows b).

(** The model after [t] passes of the loop of [fit] that did not break. *)
Fixpoint em_iterate (t : nat) (self : BernoulliMixture)
    (unique_dataset : matrix bool) (counts : list nat) : BernoulliMixture :=
  match t with
  | O => self
  | S t' => m_step_of (em_iterate t' self unique_dataset counts)
                      unique_dataset counts
  end.

(** Every entry of a matrix multiplied by [c]. *)
Definition scale_matrix (c : R) (a : matrix R) : matrix R :=
  Mat (n_cols a) (map (map (Rmult c)) (m_rows a)).


(** The log-likelihood that pass [t] of the loop of [fit] computes; the
    passes are counted from 0. *)
Definition pass_value (self : BernoulliMixture) (unique_dataset : matrix bool)
    (counts : list nat) (t : nat) : R :=
  pass_log_likelihood (em_iterate t self unique_dataset counts)
                      unique_dataset counts.

(** The log-likelihood of the pass before pass [t], if there was one. *)
Definition last_value (self : BernoulliMixture) (unique_dataset : matrix bool)
    (counts : list nat) (t : nat) : option R :=
  match t with
  | O => None
  | S t' => Some (pass_value self unique_dataset counts t')
  end.

(** The convergence test as pass [t] evaluates it. *)
Definition pass_converges (self : BernoulliMixture)
    (unique_dataset : matrix bool) (counts : list nat)
    (convergence_threshold : R) (t : nat) : bool :=
  convergence_test (last_value self unique_dataset counts t)
                   (pass_value self unique_dataset counts t)
                   convergence_threshold.

(** The loop test after [t] passes. *)
Definition within_limit (iteration_limit : option Z) (t : nat) : bool :=
  match iteration_limit with
  | None => true
  | Some n => (Z.of_nat t <? n)%Z
  end.

(** The trace store after [t] passes that did not break. *)
Fixpoint trace_after (self : BernoulliMixture) (unique_dataset : matrix bool)
    (counts : list nat) (likelihood_trace : option trace_store) (t : nat)
  : option trace_store :=
  match t with
  | O => likelihood_trace
  | S t' =>
      record_trace
        (trace_after self unique_dataset counts likelihood_trace t') t'
        (pass_value self unique_dataset counts t')
  end.

(** The variables of [fit] when the loop comes to its test after [t] passes
    that did not break. *)
Definition state_after (self : BernoulliMixture) (unique_dataset : matrix bool)
    (counts : list nat) (likelihood_trace : option trace_store) (t : nat)
  : fit_state :=
  {| fit_self := em_iterate t self unique_dataset counts;
     previous_log_likelihood := last_value self unique_dataset counts t;
     current_log_likelihood := last_value self unique_dataset counts t;
     iterations_done := t;
     trace := trace_after self unique_dataset counts likelihood_trace t;
     fit_converged := false |}.

(** The variables of [fit] when pass [t] leaves the loop through [break]. *)
Definition state_at_break (self : BernoulliMixture)
    (unique_dataset : matrix bool) (counts : list nat)
    (likelihood_trace : option trace_store) (t : nat) : fit_state :=
  {| fit_self := em_iterate t self unique_dataset counts;
     previous_log_likelihood := last_value self unique_dataset counts t;
     current_log_likelihood := Some (pass_value self unique_dataset counts t);
     iterations_done := t;
     trace := trace_after self unique_dataset counts likelihood_trace t;
     fit_converged := true |}.

(** The parameter arrays have the shapes that [_validate] asks for; they
    have on every model that was constructed, and [_m_step] keeps them. *)
Definition well_shaped (self : BernoulliMixture) : Prop :=
  shape1 (mixing_coefficients self) = number_of_components self
  /\ shape (emission_probabilities self)
     = (number_of_components self, number_of_dimensions self).

(** The dataset of three rows, three times over. *)
Definition dataset_9_2 : matrix bool :=
  vstack dataset_3_2 (vstack dataset_3_2 dataset_3_2).
(** * Properties *)

(** ** Comparisons *)

Lemma Rleb_true (a b : R) : Rleb a b = true <-> a <= b.
Proof. unfold Rleb; destruct (Rle_dec a b); split; intros; auto; discriminate. Qed.

Lemma Rleb_false (a b : R) : Rleb a b = false <-> b < a.
Proof.
  unfold Rleb; destruct (Rle_dec a b); split; intros; try discriminate; auto; lra.
Qed.

Lemma Rltb_true (a b : R) : Rltb a b = true <-> a < b.
Proof. unfold Rltb; destruct (Rlt_dec a b); split; intros; auto; discriminate. Qed.

Lemma Rltb_false (a b : R) : Rltb a b = false <-> b <= a.
Proof.
  unfold Rltb; destruct (Rlt_dec a b); split; intros; try discriminate; auto; lra.
Qed.

Lemma np_isclose_true (a b rtol atol : R) :
  np_isclose a b rtol atol = true <-> Rabs (a - b) <= atol + rtol * Rabs b.
Proof. apply Rleb_true. Qed.

Lemma np_isclose_absolute (a b atol : R) :
  np_isclose a b 0 atol = true <-> Rabs (a - b) <= atol.
Proof. rewrite np_isclose_true. split; intros; lra. Qed.

Lemma bounded_true (v : list R) :
  _bounded_between_zero_and_one v = true <-> Forall (fun x => 0 <= x <= 1) v.
Proof.
  unfold _bounded_between_zero_and_one. rewrite forallb_forall, Forall_forall.
  split; intros H x Hx; specialize (H x Hx).
  - apply andb_true_iff in H. destruct H as [H0 H1].
    apply Rleb_true in H0. apply Rleb_true in H1. lra.
  - apply andb_true_iff. split; apply Rleb_true; lra.
Qed.

(** ** Construction and validation *)

Lemma validate_ok_inv (self : BernoulliMixture) :
  _validate self = inr tt ->
  shape1 (mixing_coefficients self) = number_of_components self
  /\ Rabs (np_sum (mixing_coefficients self) - 1) <= sum_tolerance
  /\ Forall (fun x => 0 <= x <= 1) (mixing_coefficients self)
  /\ shape (emission_probabilities self)
     = (number_of_components self, number_of_dimensions self)
  /\ Forall (Forall (fun x => 0 <= x <= 1))
            (m_rows (emission_probabilities self)).
Proof.
  unfold _validate, raise, ret.
  destruct (shape1 (mixing_coefficients self) =? number_of_components self)%Z eqn:E1;
    simpl; [|discriminate].
  destruct (np_isclose _ 1 default_rtol default_atol) eqn:E2; simpl; [|discriminate].
  destruct (_bounded_between_zero_and_one (mixing_coefficients self)) eqn:E3;
    simpl; [|discriminate].
  destruct (Zpair_eqb _ _) eqn:E4; simpl; [|discriminate].
  destruct (_bounded_between_zero_and_one (concat _)) eqn:E5; simpl; [|discriminate].
  intros _. repeat split.
  - now apply Z.eqb_eq.
  - now apply np_isclose_true in E2.
  - now apply bounded_true.
  - unfold Zpair_eqb in E4. apply andb_true_iff in E4. destruct E4 as [Ea Eb].
    apply Z.eqb_eq in Ea. apply Z.eqb_eq in Eb.
    unfold shape in *. simpl in Ea, Eb. now rewrite Ea, Eb.
  - apply bounded_true in E5. rewrite Forall_forall in *. intros row Hrow.
    rewrite Forall_forall. intros x Hx. apply E5.
    apply in_concat. exists row. auto.
Qed.

Lemma validate_raises_validation_error (self : BernoulliMixture) (e : exception) :
  _validate self = inl e -> is_validation_error e = true.
Proof.
  unfold _validate, raise, ret.
  repeat match goal with
         | |- context [if negb ?c then _ else _] => destruct c; simpl
         end; intros H; inversion H; reflexivity.
Qed.

Lemma init_returns_validated (K D : Z) (mixing : list R) (emission : matrix R)
    (self : BernoulliMixture) :
  __init__ K D mixing emission = inr self ->
  _validate self = inr tt
  /\ self = {| _number_of_components := K; _number_of_dimensions := D;
               _mixing_coefficients := mixing;
               _emission_probabilities := emission |}.
Proof.
  unfold __init__, bind, ret.
  destruct (_validate _) as [e|[]] eqn:E; intros H; inversion H; subst; auto.
Qed.

Lemma concat_Forall {A} (P : A -> Prop) (ll : list (list A)) :
  Forall (Forall P) ll -> Forall P (concat ll).
Proof.
  induction 1; simpl; [constructor|]. apply Forall_app. split; assumption.
Qed.

Lemma init_accepts_valid (K D : Z) (mixing : list R) (emission : matrix R) :
  shape1 mixing = K ->
  Rabs (np_sum mixing - 1) <= sum_tolerance ->
  Forall (fun x => 0 <= x <= 1) mixing ->
  shape emission = (K, D) ->
  Forall (Forall (fun x => 0 <= x <= 1)) (m_rows emission) ->
  __init__ K D mixing emission
  = inr {| _number_of_components := K; _number_of_dimensions := D;
           _mixing_coefficients := mixing;
           _emission_probabilities := emission |}.
Proof.
  intros H1 H2 H3 H4 H5.
  unfold __init__, _validate, bind, ret, raise, number_of_components,
    number_of_dimensions, mixing_coefficients, emission_probabilities.
  cbn [_number_of_components _number_of_dimensions _mixing_coefficients
       _emission_probabilities].
  rewrite H1, Z.eqb_refl. cbn [negb].
  apply np_isclose_true in H2. rewrite H2. cbn [negb].
  apply bounded_true in H3. rewrite H3. cbn [negb].
  rewrite H4. unfold Zpair_eqb. cbn [fst snd]. rewrite !Z.eqb_refl. cbn [andb negb].
  apply concat_Forall in H5. apply bounded_true in H5. rewrite H5. reflexivity.
Qed.

(** C7: construction fails with a validation error as soon as one of the five
    invariants is broken -- the mixing vector does not have shape (K,), one of
    its entries lies outside [0,1], its sum is farther from 1 than the
    tolerance, the emission matrix does not have shape (K,D), or one of its
    entries lies outside [0,1]; the constructor then returns the exception and
    no model. *)
Theorem C7_invalid_parameters_rejected
    (K D : Z) (mixing : list R) (emission : matrix R) :
  shape1 mixing <> K
  \/ (exists x, In x mixing /\ ~ (0 <= x <= 1))
  \/ Rabs (np_sum mixing - 1) > sum_tolerance
  \/ shape emission <> (K, D)
  \/ (exists row x, In row (m_rows emission) /\ In x row /\ ~ (0 <= x <= 1)) ->
  exists e, __init__ K D mixing emission = inl e
            /\ is_validation_error e = true.
Proof.
  intros Hbad.
  destruct (__init__ K D mixing emission) as [e|self] eqn:Hinit.
  - exists e. split; auto.
    unfold __init__, bind in Hinit.
    destruct (_validate _) as [e'|[]] eqn:Hv; [|discriminate].
    inversion Hinit; subst. eapply validate_raises_validation_error; eauto.
  - exfalso. apply init_returns_validated in Hinit. destruct Hinit as [Hv ->].
    apply validate_ok_inv in Hv. simpl in Hv.
    destruct Hv as (H1 & H2 & H3 & H4 & H5).
    destruct Hbad as [B|[(x & Hin & B)|[B|[B|(row & x & Hrow & Hin & B)]]]].
    + contradiction.
    + rewrite Forall_forall in H3. auto.
    + lra.
    + contradiction.
    + rewrite Forall_forall in H5. specialize (H5 row Hrow).
      rewrite Forall_forall in H5. auto.
Qed.

(** Scenario C of the specification, first half: mixing coefficients
    0.5, 0.4, 0.2 sum to 1.1 and are rejected. *)
Lemma C7_witness :
  Rabs (np_sum [0.5; 0.4; 0.2] - 1) > sum_tolerance
  /\ exists e, __init__ 3 1 [0.5; 0.4; 0.2] (Mat 1 [[0.5]; [0.5]; [0.5]]) = inl e
               /\ is_validation_error e = true.
Proof.
  assert (H : Rabs (np_sum [0.5; 0.4; 0.2] - 1) > sum_tolerance).
  { unfold sum_tolerance, default_atol, default_rtol, np_sum. simpl.
    rewrite Rabs_R1. rewrite Rabs_right; lra. }
  split; [exact H|].
  apply (C7_invalid_parameters_rejected 3 1 [0.5; 0.4; 0.2]
           (Mat 1 [[0.5]; [0.5]; [0.5]])).
  right. right. left. exact H.
Defined.

(** Scenario C, second half: an emission probability of 1.3 is rejected. *)
Lemma emission_above_one_rejected :
  exists e, __init__ 2 1 [0.5; 0.5] (Mat 1 [[0.5]; [1.3]]) = inl e
            /\ is_validation_error e = true.
Proof.
  destruct (__init__ 2 1 [0.5; 0.5] (Mat 1 [[0.5]; [1.3]])) as [e|self] eqn:Hinit.
  - exists e. split; [reflexivity|].
    unfold __init__, bind in Hinit.
    destruct (_validate _) as [e'|[]] eqn:Hv; [|discriminate].
    inversion Hinit; subst. eapply validate_raises_validation_error; eauto.
  - apply init_returns_validated in Hinit. destruct Hinit as [Hv ->].
    apply validate_ok_inv in Hv. destruct Hv as (_ & _ & _ & _ & H5).
    cbn in H5. inversion H5 as [|? ? _ H6]; subst.
    inversion H6 as [|? ? H7 _]; subst. inversion H7; subst. lra.
Qed.

(** The check is what the constructor enforces: an accepted model has all
    five properties. *)
Lemma accepted_model_is_valid (K D : Z) (mixing : list R) (emission : matrix R)
    (self : BernoulliMixture) :
  __init__ K D mixing emission = inr self ->
  shape1 mixing = K
  /\ Rabs (np_sum mixing - 1) <= sum_tolerance
  /\ Forall (fun x => 0 <= x <= 1) mixing
  /\ shape emission = (K, D)
  /\ Forall (Forall (fun x => 0 <= x <= 1)) (m_rows emission).
Proof.
  intros H. apply init_returns_validated in H. destruct H as [Hv ->].
  apply validate_ok_inv in Hv. exact Hv.
Qed.

(** ** Dimension check *)

Lemma check_dimensions_ok (self : BernoulliMixture) (dataset : matrix bool) :
  Z.of_nat (n_cols dataset) = number_of_dimensions self ->
  check_dimensions self dataset = inr tt.
Proof.
  intros H. unfold check_dimensions, shape. simpl. rewrite H, Z.eqb_refl.
  reflexivity.
Qed.

Lemma check_dimensions_mismatch (self : BernoulliMixture) (dataset : matrix bool) :
  Z.of_nat (n_cols dataset) <> number_of_dimensions self ->
  check_dimensions self dataset
  = inl (DatasetShapeMismatch (Z.of_nat (n_cols dataset))
                              (number_of_dimensions self)).
Proof.
  intros H. unfold check_dimensions, shape. simpl.
  apply Z.eqb_neq in H. rewrite H. reflexivity.
Qed.

(** The four operations that check the dataset before they use it: on a
    dataset with the wrong number of columns each raises, and [fit] leaves
    the parameters of the model as they were. *)
Lemma checked_operations_raise (self : BernoulliMixture) (dataset : matrix bool)
    (fuel : nat) (iteration_limit : option Z) (threshold : R) (tr : bool) :
  Z.of_nat (n_cols dataset) <> number_of_dimensions self ->
  let e := DatasetShapeMismatch (Z.of_nat (n_cols dataset))
                                (number_of_dimensions self) in
  is_dimension_mismatch e = true
  /\ fit fuel self dataset iteration_limit threshold tr = Some (self, inl e)
  /\ log_likelihood self dataset = inl e
  /\ AIC self dataset = inl e
  /\ BIC self dataset = inl e.
Proof.
  intros H e. pose proof (check_dimensions_mismatch self dataset H) as Hc.
  fold e in Hc.
  assert (Hl : log_likelihood self dataset = inl e).
  { unfold log_likelihood. rewrite Hc. reflexivity. }
  repeat split.
  - unfold fit. rewrite Hc. reflexivity.
  - exact Hl.
  - unfold AIC. rewrite Hl. reflexivity.
  - unfold BIC. rewrite Hl. reflexivity.
Qed.

(** C3: a model with two dimensions and a dataset with one column.  [fit],
    [log_likelihood], [AIC] and [BIC] raise the dimension-mismatch error, and
    [fit] leaves the model untouched; [soft_assignment] and [hard_assignment]
    have no such check and return an assignment. *)
Theorem C3_assignment_accepts_wrong_dimension :
  let self := {| _number_of_components := 1; _number_of_dimensions := 2;
                 _mixing_coefficients := [1];
                 _emission_probabilities := Mat 2 [[0.5; 0.5]] |} in
  let dataset := Mat 1 [[true]] in
  __init__ 1 2 [1] (Mat 2 [[0.5; 0.5]]) = inr self
  /\ Z.of_nat (n_cols dataset) <> number_of_dimensions self
  /\ fit 1 self dataset default_iteration_limit default_convergence_threshold false
     = Some (self, inl (DatasetShapeMismatch 1 2))
  /\ log_likelihood self dataset = inl (DatasetShapeMismatch 1 2)
  /\ AIC self dataset = inl (DatasetShapeMismatch 1 2)
  /\ BIC self dataset = inl (DatasetShapeMismatch 1 2)
  /\ soft_assignment self dataset = inr (Mat 1 [[1]])
  /\ hard_assignment self dataset = inr [0%nat].
Proof.
  intros self dataset.
  assert (Hs : soft_assignment self dataset = inr (Mat 1 [[1]])).
  { unfold soft_assignment, ret. f_equal.
    unfold _posterior_probability_of_class_given_support,
      _observation_emission_support, support_column, np_T, column,
      np_sum_axis1, np_sum. simpl. f_equal. f_equal. f_equal. field. lra. }
  assert (Hne : Z.of_nat (n_cols dataset) <> number_of_dimensions self)
    by (simpl; discriminate).
  destruct (checked_operations_raise self dataset 1 default_iteration_limit
              default_convergence_threshold false Hne) as (_ & Hf & Hl & Ha & Hb).
  assert (Hh : hard_assignment self dataset = inr [0%nat]).
  { unfold hard_assignment. rewrite Hs. reflexivity. }
  repeat split; auto.
  - apply init_accepts_valid; try reflexivity.
    + unfold sum_tolerance, default_atol, default_rtol, np_sum. simpl.
      rewrite Rabs_R1. rewrite Rabs_right; lra.
    + repeat constructor; lra.
    + repeat constructor; lra.
Qed.

(** ** Free parameters, AIC and BIC *)

Lemma aggregate_returns (dataset : matrix bool) :
  (0 < n_cols dataset)%nat ->
  _aggregate_dataset dataset = inr (aggregated dataset).
Proof.
  intros H. unfold _aggregate_dataset, view_as_records, aggregated, bind, ret.
  destruct (n_cols dataset =? 0)%nat eqn:E; [apply Nat.eqb_eq in E; lia|].
  destruct (np_unique_counts (m_rows dataset)). reflexivity.
Qed.

Lemma aggregate_inr_inv (dataset : matrix bool) (p : matrix bool * list nat) :
  _aggregate_dataset dataset = inr p ->
  (0 < n_cols dataset)%nat /\ p = aggregated dataset.
Proof.
  intros H.
  destruct (Nat.eq_dec (n_cols dataset) 0) as [E|E].
  - unfold _aggregate_dataset, view_as_records, bind, raise in H.
    apply Nat.eqb_eq in E. rewrite E in H. discriminate.
  - assert (Hpos : (0 < n_cols dataset)%nat) by lia. split; [exact Hpos|].
    rewrite (aggregate_returns _ Hpos) in H. now inversion H.
Qed.

Lemma log_likelihood_returns (self : BernoulliMixture) (dataset : matrix bool) :
  (0 < n_cols dataset)%nat ->
  Z.of_nat (n_cols dataset) = number_of_dimensions self ->
  log_likelihood self dataset
  = inr (_log_likelihood_from_support
           (_observation_emission_support self (fst (aggregated dataset)))
           (map INR (snd (aggregated dataset)))).
Proof.
  intros Hpos H. unfold log_likelihood. rewrite (check_dimensions_ok _ _ H).
  unfold bind. rewrite (aggregate_returns _ Hpos).
  destruct (aggregated dataset). reflexivity.
Qed.

(** C8: the number of free parameters is (K-1) + K*D, and on a dataset with
    D columns (D at least one) AIC is -2 * log-likelihood + 2 * that number
    and BIC is -2 * log-likelihood + ln(N) * that number, N being the number
    of rows of the dataset as passed. *)
Theorem C8_free_parameters_AIC_BIC
    (self : BernoulliMixture) (dataset : matrix bool) :
  (0 < n_cols dataset)%nat ->
  Z.of_nat (n_cols dataset) = number_of_dimensions self ->
  number_of_free_parameters self
  = ((number_of_components self - 1)
     + number_of_components self * number_of_dimensions self)%Z
  /\ exists ll,
       log_likelihood self dataset = inr ll
       /\ AIC self dataset
          = inr (-2 * ll + 2 * IZR (number_of_free_parameters self))
       /\ BIC self dataset
          = inr (-2 * ll + ln (INR (length (m_rows dataset)))
                           * IZR (number_of_free_parameters self)).
Proof.
  intros Hpos H. split; [reflexivity|].
  eexists. split; [apply log_likelihood_returns; assumption|].
  unfold AIC, BIC. rewrite (log_likelihood_returns _ _ Hpos H).
  split; reflexivity.
Qed.

(** Three components and four dimensions: fourteen free parameters. *)
Lemma free_parameters_3_4 : number_of_free_parameters model_3_4 = 14%Z.
Proof. reflexivity. Qed.

Lemma C8_witness :
  let dataset := Mat 4 [[true; false; false; true]; [true; false; false; true]] in
  (0 < n_cols dataset)%nat
  /\ Z.of_nat (n_cols dataset) = number_of_dimensions model_3_4
  /\ number_of_free_parameters model_3_4 = ((3 - 1) + 3 * 4)%Z
  /\ exists ll,
       log_likelihood model_3_4 dataset = inr ll
       /\ AIC model_3_4 dataset = inr (-2 * ll + 2 * IZR 14)
       /\ BIC model_3_4 dataset = inr (-2 * ll + ln (INR 2) * IZR 14).
Proof.
  intros dataset. split; [apply Nat.lt_0_succ|]. split; [reflexivity|].
  exact (C8_free_parameters_AIC_BIC model_3_4 dataset (Nat.lt_0_succ 3) eq_refl).
Defined.

(** ** fit with an iteration limit of zero *)

(** C10: on a dataset with D columns (D at least one), with
    [iteration_limit = 0] the loop is not entered: [fit] returns
    [None] for the log-likelihood and a status with [converged = False] and
    zero iterations, and the parameters of the model are unchanged. *)
Theorem C10_fit_zero_iterations
    (fuel : nat) (self : BernoulliMixture) (dataset : matrix bool)
    (threshold : R) (trace_likelihood : bool) :
  (0 < n_cols dataset)%nat ->
  Z.of_nat (n_cols dataset) = number_of_dimensions self ->
  exists status,
    fit fuel self dataset (Some 0%Z) threshold trace_likelihood
    = Some (self, inr (None, status))
    /\ converged status = false
    /\ number_of_iterations status = 0%nat.
Proof.
  intros Hpos H. unfold fit. rewrite (check_dimensions_ok _ _ H).
  rewrite (aggregate_returns _ Hpos).
  destruct (aggregated dataset) as [unique_dataset counts].
  destruct trace_likelihood; cbn [initial_trace truthy Z.eqb negb ret];
    destruct fuel; cbn [fit_loop loop_test iterations_done Z.of_nat Z.ltb Z.compare];
    eexists; repeat split.
Qed.

Lemma C10_witness :
  let dataset := Mat 4 [[true; false; false; true]] in
  (0 < n_cols dataset)%nat
  /\ Z.of_nat (n_cols dataset) = number_of_dimensions model_3_4
  /\ exists status,
       fit 0 model_3_4 dataset (Some 0%Z) default_convergence_threshold true
       = Some (model_3_4, inr (None, status))
       /\ converged status = false
       /\ number_of_iterations status = 0%nat.
Proof.
  intros dataset. split; [apply Nat.lt_0_succ|]. split; [reflexivity|].
  exact (C10_fit_zero_iterations 0 model_3_4 dataset
           default_convergence_threshold true (Nat.lt_0_succ 3) eq_refl).
Defined.

(** ** The aggregator *)

Section Aggregation.

Lemma row_eqb_eq (a b : list bool) : row_eqb a b = true <-> a = b.
Proof.
  revert b. induction a as [|x a IH]; destruct b as [|y b]; simpl;
    try (split; [discriminate|discriminate]); [tauto|].
  rewrite andb_true_iff, IH. split.
  - intros [H1 H2]. apply eqb_prop in H1. congruence.
  - intros H. inversion H; subst. split; auto. apply eqb_reflx.
Qed.

Lemma row_eqb_neq (a b : list bool) : row_eqb a b = false <-> a <> b.
Proof.
  split.
  - intros H E. apply row_eqb_eq in E. congruence.
  - intros H. destruct (row_eqb a b) eqn:E; auto.
    apply row_eqb_eq in E. contradiction.
Qed.

Lemma row_leb_total (a b : list bool) :
  row_leb a b = true \/ row_leb b a = true.
Proof.
  revert b. induction a as [|x a IH]; destruct b as [|y b]; simpl; auto.
  destruct x, y; simpl; auto.
Qed.

Lemma row_leb_antisym (a b : list bool) :
  row_leb a b = true -> row_leb b a = true -> a = b.
Proof.
  revert b. induction a as [|x a IH]; destruct b as [|y b]; simpl;
    try discriminate; auto.
  destruct x, y; simpl; try discriminate; intros; f_equal; auto.
Qed.

Lemma row_leb_trans (a b c : list bool) :
  row_leb a b = true -> row_leb b c = true -> row_leb a c = true.
Proof.
  revert b c. induction a as [|x a IH]; destruct b as [|y b];
    destruct c as [|z c]; simpl; try discriminate; auto.
  destruct x, y, z; simpl; try discriminate; auto; apply IH.
Qed.

Lemma row_lt_trans : Relations_1.Transitive row_lt.
Proof.
  intros a b c [H1 N1] [H2 N2]. split.
  - eapply row_leb_trans; eauto.
  - intros ->. apply N1. apply row_leb_antisym; assumption.
Qed.

Lemma insert_row_perm (r : list bool) (l : list (list bool)) :
  Permutation (r :: l) (insert_row r l).
Proof.
  induction l as [|x l IH]; simpl; auto.
  destruct (row_leb r x); auto.
  rewrite perm_swap. constructor. exact IH.
Qed.

Lemma sort_rows_perm (l : list (list bool)) : Permutation l (sort_rows l).
Proof.
  induction l as [|r l IH]; simpl; auto.
  rewrite <- insert_row_perm. constructor. exact IH.
Qed.

Lemma insert_row_sorted (r : list bool) (l : list (list bool)) :
  Sorted row_le l -> Sorted row_le (insert_row r l).
Proof.
  induction 1 as [|x l Hs IH Hhd]; simpl.
  - repeat constructor.
  - destruct (row_leb r x) eqn:E.
    + constructor; [constructor; assumption|]. constructor. exact E.
    + constructor; [exact IH|].
      assert (Hxr : row_le x r).
      { destruct (row_leb_total r x) as [H|H]; [congruence|exact H]. }
      destruct l as [|y l]; simpl.
      * constructor. exact Hxr.
      * destruct (row_leb r y); constructor; auto.
        inversion Hhd; assumption.
Qed.

Lemma sort_rows_sorted (l : list (list bool)) : Sorted row_le (sort_rows l).
Proof.
  induction l as [|r l IH]; simpl; [constructor|].
  apply insert_row_sorted. exact IH.
Qed.

(** The pass over the rows loses nothing: the pairs stand for the rows
    they were made from, in the same order. *)
Lemma run_lengths_expand (l : list (list bool)) : expand (run_lengths l) = l.
Proof.
  induction l as [|r l IH]; simpl; auto.
  destruct (run_lengths l) as [|[r' c] rest] eqn:E.
  - simpl in *. now rewrite <- IH.
  - destruct (row_eqb r r') eqn:Er.
    + apply row_eqb_eq in Er. subst r'.
      unfold expand in *. simpl in *. now rewrite <- IH.
    + unfold expand in *. simpl in *. now rewrite <- IH.
Qed.

Lemma run_lengths_head (r : list bool) (l : list (list bool)) :
  exists c rest, run_lengths (r :: l) = (r, S c) :: rest.
Proof.
  simpl. destruct (run_lengths l) as [|[r' c] rest]; [now eauto|].
  destruct (row_eqb r r') eqn:Er; [|now eauto].
  apply row_eqb_eq in Er. subst. eauto.
Qed.

Lemma run_lengths_positive (l : list (list bool)) :
  Forall (fun p => (1 <= snd p)%nat) (run_lengths l).
Proof.
  induction l as [|r l IH]; simpl; [constructor|].
  destruct (run_lengths l) as [|[r' c] rest]; [repeat constructor|].
  inversion IH; subst.
  destruct (row_eqb r r'); repeat constructor; simpl in *; auto; lia.
Qed.

Lemma run_lengths_keys_sorted (l : list (list bool)) :
  Sorted row_le l -> Sorted row_lt (map fst (run_lengths l)).
Proof.
  induction 1 as [|r l Hs IH Hhd]; [constructor|].
  destruct l as [|r2 l].
  - simpl. repeat constructor.
  - destruct (run_lengths_head r2 l) as (c & rest & E).
    cbn [run_lengths]. cbn [run_lengths] in E, IH. rewrite E in *.
    destruct (row_eqb r r2) eqn:Er.
    + exact IH.
    + cbn [map fst] in *. constructor; [exact IH|]. constructor.
      inversion Hhd; subst. split; [assumption|]. now apply row_eqb_neq.
Qed.

Lemma row_lt_sorted_NoDup (l : list (list bool)) : Sorted row_lt l -> NoDup l.
Proof.
  intros H. apply (Sorted_StronglySorted row_lt_trans) in H.
  induction H as [|r l Hs IH Hall]; constructor; auto.
  intros Hin. rewrite Forall_forall in Hall. destruct (Hall r Hin) as [_ N].
  now apply N.
Qed.

Lemma occurrences_expand_absent (pairs : list (list bool * nat)) (r : list bool) :
  ~ In r (map fst pairs) -> occurrences (expand pairs) r = 0%nat.
Proof.
  unfold occurrences, expand.
  induction pairs as [|[r0 c0] t IH]; simpl; intros H; auto.
  rewrite count_occ_app, IH by tauto.
  rewrite count_occ_repeat_neq by (intros ->; tauto). reflexivity.
Qed.

Lemma occurrences_expand (pairs : list (list bool * nat)) (i : nat) :
  NoDup (map fst pairs) -> (i < length pairs)%nat ->
  occurrences (expand pairs) (nth i (map fst pairs) [])
  = nth i (map snd pairs) 0%nat.
Proof.
  revert i. induction pairs as [|[r0 c0] t IH]; simpl; intros i Hnd Hi; [lia|].
  inversion Hnd as [|? ? Hnotin Hnd']; subst.
  unfold occurrences, expand in *. simpl. rewrite count_occ_app.
  destruct i as [|i].
  - rewrite count_occ_repeat_eq by reflexivity.
    pose proof (occurrences_expand_absent t r0 Hnotin) as H0.
    unfold occurrences, expand in H0. rewrite H0. lia.
  - rewrite IH by (auto; lia).
    rewrite count_occ_repeat_neq; auto.
    intros E. apply Hnotin. rewrite <- E. apply nth_In.
    rewrite length_map. lia.
Qed.

Lemma split_fst_snd {A B} (l : list (A * B)) :
  split l = (map fst l, map snd l).
Proof.
  induction l as [|[a b] l IH]; simpl; auto. now rewrite IH.
Qed.

Lemma list_sum_expand (pairs : list (list bool * nat)) :
  list_sum (map snd pairs) = length (expand pairs).
Proof.
  unfold expand. induction pairs as [|[r c] t IH]; simpl; auto.
  rewrite length_app, repeat_length, IH. reflexivity.
Qed.

Lemma aggregate_unfold (dataset : matrix bool) :
  aggregated dataset
  = (Mat (n_cols dataset)
         (map fst (run_lengths (sort_rows (m_rows dataset)))),
     map snd (run_lengths (sort_rows (m_rows dataset)))).
Proof.
  unfold aggregated, np_unique_counts. now rewrite split_fst_snd.
Qed.

End Aggregation.

Lemma aggregate_rows_iff (dataset : matrix bool) (r : list bool) :
  In r (m_rows (fst (aggregated dataset))) <-> In r (m_rows dataset).
Proof.
  rewrite aggregate_unfold. cbn [fst m_rows].
  set (sorted := sort_rows (m_rows dataset)).
  assert (Hperm : Permutation (m_rows dataset) sorted) by apply sort_rows_perm.
  split.
  - intros Hin. apply (Permutation_in _ (Permutation_sym Hperm)).
    rewrite <- (run_lengths_expand sorted). unfold expand.
    apply in_map_iff in Hin. destruct Hin as ([r' c] & <- & Hp).
    apply in_flat_map. exists (r', c). split; auto. simpl.
    pose proof (run_lengths_positive sorted) as Hpos.
    rewrite Forall_forall in Hpos. specialize (Hpos _ Hp). simpl in Hpos.
    destruct c; [lia|]. now left.
  - intros Hin. apply (Permutation_in _ Hperm) in Hin.
    rewrite <- (run_lengths_expand sorted) in Hin. unfold expand in Hin.
    apply in_flat_map in Hin. destruct Hin as ([r' c] & Hp & Hr).
    apply repeat_spec in Hr. subst. apply in_map_iff. exists (r', c). auto.
Qed.

Lemma aggregate_counts_positive (dataset : matrix bool) :
  Forall (fun c => (1 <= c)%nat) (snd (aggregated dataset)).
Proof.
  rewrite aggregate_unfold. cbn [snd]. rewrite Forall_forall.
  intros c Hin. apply in_map_iff in Hin. destruct Hin as (p & <- & Hp).
  pose proof (run_lengths_positive (sort_rows (m_rows dataset))) as Hpos.
  rewrite Forall_forall in Hpos. now apply Hpos.
Qed.

Lemma aggregate_lengths (dataset : matrix bool) :
  length (snd (aggregated dataset))
  = length (m_rows (fst (aggregated dataset))).
Proof. rewrite aggregate_unfold. cbn [fst snd m_rows]. now rewrite !length_map. Qed.

Lemma aggregate_n_cols (dataset : matrix bool) :
  n_cols (fst (aggregated dataset)) = n_cols dataset.
Proof. rewrite aggregate_unfold. reflexivity. Qed.

(** C4: for a dataset with at least one column the aggregator returns unique
    rows without duplicates, one weight per unique row, each weight the
    number of rows of the dataset equal to its unique row, and weights that
    add up to the number of rows; the unique rows are exactly the rows that
    occur in the dataset. *)
Theorem C4_aggregate_dataset_exact (dataset : matrix bool) :
  (0 < n_cols dataset)%nat ->
  exists unique weights,
    _aggregate_dataset dataset = inr (unique, weights)
    /\ n_cols unique = n_cols dataset
    /\ length weights = length (m_rows unique)
    /\ NoDup (m_rows unique)
    /\ (forall i, (i < length (m_rows unique))%nat ->
          nth i weights 0%nat
          = occurrences (m_rows dataset) (nth i (m_rows unique) []))
    /\ list_sum weights = length (m_rows dataset)
    /\ (forall r, In r (m_rows unique) <-> In r (m_rows dataset)).
Proof.
  intros Hcols.
  exists (fst (aggregated dataset)), (snd (aggregated dataset)).
  split; [rewrite <- surjective_pairing; now apply aggregate_returns|].
  split; [apply aggregate_n_cols|]. split; [apply aggregate_lengths|].
  rewrite aggregate_unfold. cbn [fst snd m_rows].
  set (sorted := sort_rows (m_rows dataset)).
  assert (Hperm : Permutation (m_rows dataset) sorted) by apply sort_rows_perm.
  assert (Hnd : NoDup (map fst (run_lengths sorted))).
  { apply row_lt_sorted_NoDup, run_lengths_keys_sorted, sort_rows_sorted. }
  split; [exact Hnd|]. split; [|split].
  - intros i Hi. rewrite length_map in Hi.
    rewrite <- (occurrences_expand _ i Hnd Hi), run_lengths_expand.
    unfold occurrences. symmetry. now apply Permutation_count_occ.
  - rewrite list_sum_expand, run_lengths_expand.
    symmetry. now apply Permutation_length.
  - intros r. pose proof (aggregate_rows_iff dataset r) as H.
    rewrite aggregate_unfold in H. exact H.
Qed.

(** Scenario B in small: five rows, two of them distinct. *)
Lemma aggregate_example :
  _aggregate_dataset
    (Mat 2 [[true; false]; [false; true]; [true; false]; [true; false];
            [false; true]])
  = inr (Mat 2 [[false; true]; [true; false]], [2%nat; 3%nat]).
Proof. reflexivity. Qed.

Lemma C4_witness :
  let dataset := Mat 2 [[true; false]; [false; true]; [true; false]] in
  (0 < n_cols dataset)%nat
  /\ exists unique weights,
       _aggregate_dataset dataset = inr (unique, weights)
       /\ n_cols unique = n_cols dataset
       /\ length weights = length (m_rows unique)
       /\ NoDup (m_rows unique)
       /\ (forall i, (i < length (m_rows unique))%nat ->
             nth i weights 0%nat
             = occurrences (m_rows dataset) (nth i (m_rows unique) []))
       /\ list_sum weights = length (m_rows dataset)
       /\ (forall r, In r (m_rows unique) <-> In r (m_rows dataset)).
Proof.
  intros dataset. split; [apply Nat.lt_0_succ|].
  exact (C4_aggregate_dataset_exact dataset (Nat.lt_0_succ 1)).
Defined.

(** ** Sums *)

Lemma np_sum_app (a b : list R) : np_sum (a ++ b) = np_sum a + np_sum b.
Proof. unfold np_sum. induction a; simpl; lra. Qed.

Lemma np_sum_perm (a b : list R) : Permutation a b -> np_sum a = np_sum b.
Proof. unfold np_sum. induction 1; simpl; lra. Qed.

Lemma map_seq_nth_plain {A B} (l : list A) (d : A) (g : A -> B) :
  map (fun i => g (nth i l d)) (seq 0 (length l)) = map g l.
Proof.
  induction l as [|x l IH]; simpl; auto.
  f_equal. rewrite <- seq_shift, map_map. exact IH.
Qed.

(** ** The support matrix, row by row *)

Lemma support_column_nth (self : BernoulliMixture) (rows : list (list bool))
    (k i : nat) :
  (i < length rows)%nat ->
  nth i (support_column self rows k) 0
  = nth k (mixing_coefficients self) 0
    * bernoulli_prob (nth k (m_rows (emission_probabilities self)) [])
                     (nth i rows []).
Proof.
  intros Hi. unfold support_column, bernoulli_prob_for_observations.
  rewrite map_map.
  set (f := fun x => _ * bernoulli_prob _ x).
  rewrite (nth_indep _ 0 (f [])) by (now rewrite length_map).
  now rewrite map_nth.
Qed.

Lemma support_rows (self : BernoulliMixture) (observations : matrix bool) :
  m_rows (_observation_emission_support self observations)
  = map (support_row self) (m_rows observations).
Proof.
  unfold _observation_emission_support. cbn [m_rows].
  rewrite <- (map_seq_nth_plain (m_rows observations) [] (support_row self)).
  apply map_ext_in. intros i Hi. apply in_seq in Hi.
  rewrite map_map. unfold support_row. apply map_ext. intros k.
  apply support_column_nth. lia.
Qed.

Lemma support_n_cols (self : BernoulliMixture) (observations : matrix bool) :
  n_cols (_observation_emission_support self observations)
  = Z.to_nat (number_of_components self).
Proof. reflexivity. Qed.

(** ** The log-likelihood with and without aggregation *)

Lemma weighted_log_likelihood_pairs (self : BernoulliMixture)
    (pairs : list (list bool * nat)) :
  np_sum (mul_vec (map np_log (np_sum_axis1 (map (support_row self) (map fst pairs))))
                  (map INR (map snd pairs)))
  = np_sum (map (fun p => row_log_likelihood self (fst p) * INR (snd p)) pairs).
Proof.
  unfold np_sum_axis1, row_log_likelihood.
  induction pairs as [|[r c] t IH]; simpl; auto.
  unfold np_sum in *. simpl. now rewrite IH.
Qed.

Lemma run_lengths_sum (f : list bool -> R) (l : list (list bool)) :
  np_sum (map (fun p => f (fst p) * INR (snd p)) (run_lengths l))
  = np_sum (map f l).
Proof.
  induction l as [|r l IH]; simpl; auto.
  destruct (run_lengths l) as [|[r' c] rest] eqn:E.
  - rewrite <- IH. unfold np_sum. simpl. lra.
  - destruct (row_eqb r r') eqn:Er.
    + apply row_eqb_eq in Er. subst r'. unfold np_sum in *. simpl in *.
      rewrite <- IH. destruct c; simpl; lra.
    + unfold np_sum in *. simpl in *. rewrite <- IH. lra.
Qed.

Lemma aggregated_log_likelihood (self : BernoulliMixture) (dataset : matrix bool) :
  _log_likelihood_from_support
    (_observation_emission_support self (fst (aggregated dataset)))
    (map INR (snd (aggregated dataset)))
  = np_sum (map (row_log_likelihood self) (m_rows dataset)).
Proof.
  rewrite aggregate_unfold. cbn [fst snd].
  unfold _log_likelihood_from_support. rewrite support_rows. cbn [m_rows].
  rewrite weighted_log_likelihood_pairs, run_lengths_sum.
  apply np_sum_perm, Permutation_map, Permutation_sym, sort_rows_perm.
Qed.

Lemma naive_log_likelihood_rows (self : BernoulliMixture) (dataset : matrix bool) :
  naive_log_likelihood self dataset
  = np_sum (map (row_log_likelihood self) (m_rows dataset)).
Proof.
  unfold naive_log_likelihood. rewrite support_rows, map_map. reflexivity.
Qed.

(** C5: on a dataset with D columns (D at least one), the log-likelihood
    computed from the unique rows and their weights equals the naive sum,
    over the rows of the dataset as they come, of the logarithm of the total
    support of the row. *)
Theorem C5_log_likelihood_aggregation
    (self : BernoulliMixture) (dataset : matrix bool) :
  (0 < n_cols dataset)%nat ->
  Z.of_nat (n_cols dataset) = number_of_dimensions self ->
  log_likelihood self dataset = inr (naive_log_likelihood self dataset).
Proof.
  intros Hpos H. rewrite (log_likelihood_returns _ _ Hpos H).
  now rewrite aggregated_log_likelihood, naive_log_likelihood_rows.
Qed.

Lemma C5_witness :
  let dataset := Mat 4 [[true; false; false; true]; [false; true; false; true];
                        [true; false; false; true]] in
  (0 < n_cols dataset)%nat
  /\ Z.of_nat (n_cols dataset) = number_of_dimensions model_3_4
  /\ log_likelihood model_3_4 dataset
     = inr (naive_log_likelihood model_3_4 dataset).
Proof.
  intros dataset. split; [apply Nat.lt_0_succ|]. split; [reflexivity|].
  exact (C5_log_likelihood_aggregation model_3_4 dataset (Nat.lt_0_succ 3)
           eq_refl).
Defined.

(** ** The loop of fit *)

Lemma fit_iteration_break (unique_dataset : matrix bool) (counts : list nat)
    (threshold : R) (s : fit_state) :
  convergence_test (previous_log_likelihood s)
    (pass_log_likelihood (fit_self s) unique_dataset counts) threshold = true ->
  fit_iteration unique_dataset counts threshold s
  = (true, {| fit_self := fit_self s;
              previous_log_likelihood := previous_log_likelihood s;
              current_log_likelihood :=
                Some (pass_log_likelihood (fit_self s) unique_dataset counts);
              iterations_done := iterations_done s;
              trace := trace s;
              fit_converged := true |}).
Proof.
  intros H. unfold fit_iteration. fold (pass_log_likelihood (fit_self s) unique_dataset counts).
  rewrite H. reflexivity.
Qed.

Lemma fit_iteration_continue (unique_dataset : matrix bool) (counts : list nat)
    (threshold : R) (s : fit_state) :
  convergence_test (previous_log_likelihood s)
    (pass_log_likelihood (fit_self s) unique_dataset counts) threshold = false ->
  let current := pass_log_likelihood (fit_self s) unique_dataset counts in
  let update :=
    _m_step (_posterior_probability_of_class_given_support
               (_observation_emission_support (fit_self s) unique_dataset))
            unique_dataset (map INR counts) in
  fit_iteration unique_dataset counts threshold s
  = (false, {| fit_self :=
                 {| _number_of_components := _number_of_components (fit_self s);
                    _number_of_dimensions := _number_of_dimensions (fit_self s);
                    _mixing_coefficients := fst update;
                    _emission_probabilities := snd update |};
               previous_log_likelihood := Some current;
               current_log_likelihood := Some current;
               iterations_done := S (iterations_done s);
               trace := record_trace (trace s) (iterations_done s) current;
               fit_converged := fit_converged s |}).
Proof.
  intros H current update. unfold fit_iteration.
  fold (pass_log_likelihood (fit_self s) unique_dataset counts).
  rewrite H. subst update. destruct (_m_step _ _ _). reflexivity.
Qed.

Lemma convergence_test_true (previous : option R) (current threshold : R) :
  convergence_test previous current threshold = true
  <-> exists p, previous = Some p /\ Rabs (current - p) <= threshold.
Proof.
  unfold convergence_test. destruct previous as [p|].
  - rewrite np_isclose_absolute. split.
    + intros H. exists p. auto.
    + intros (q & E & H). inversion E; subst. exact H.
  - split; [discriminate|]. intros (q & E & _). discriminate.
Qed.

Lemma fit_iteration_breaks_iff (unique_dataset : matrix bool)
    (counts : list nat) (threshold : R) (s : fit_state) :
  fst (fit_iteration unique_dataset counts threshold s) = true
  <-> exists p, previous_log_likelihood s = Some p
                /\ Rabs (pass_log_likelihood (fit_self s) unique_dataset counts - p)
                   <= threshold.
Proof.
  rewrite <- convergence_test_true.
  destruct (convergence_test _ _ threshold) eqn:E.
  - rewrite (fit_iteration_break _ _ _ _ E). simpl. tauto.
  - rewrite (fit_iteration_continue _ _ _ _ E). simpl. split; discriminate.
Qed.

(** What holds of the state in which the loop ends, when it starts from a
    state that is not marked as converged. *)
Lemma fit_loop_end (fuel : nat) (unique_dataset : matrix bool)
    (counts : list nat) (iteration_limit : option Z) (threshold : R)
    (s sf : fit_state) :
  fit_converged s = false ->
  fit_loop fuel unique_dataset counts iteration_limit threshold s = Some sf ->
  number_of_dimensions (fit_self sf) = number_of_dimensions (fit_self s)
  /\ (fit_converged sf = true ->
      exists p,
        previous_log_likelihood sf = Some p
        /\ current_log_likelihood sf
           = Some (pass_log_likelihood (fit_self sf) unique_dataset counts)
        /\ Rabs (pass_log_likelihood (fit_self sf) unique_dataset counts - p)
           <= threshold)
  /\ (fit_converged sf = false -> loop_test iteration_limit sf = false).
Proof.
  revert s. induction fuel as [|fuel IH]; intros s Hs Hloop; simpl in Hloop.
  - destruct (loop_test iteration_limit s) eqn:Ht; [discriminate|].
    inversion Hloop; subst. repeat split; auto. congruence.
  - destruct (loop_test iteration_limit s) eqn:Ht.
    + destruct (convergence_test (previous_log_likelihood s)
                  (pass_log_likelihood (fit_self s) unique_dataset counts)
                  threshold) eqn:Ec.
      * rewrite (fit_iteration_break _ _ _ _ Ec) in Hloop.
        inversion Hloop; subst. cbn. repeat split; auto; [|discriminate].
        intros _. apply convergence_test_true in Ec.
        destruct Ec as (p & Ep & Hp). exists p. auto.
      * rewrite (fit_iteration_continue _ _ _ _ Ec) in Hloop.
        apply IH in Hloop; [|exact Hs]. exact Hloop.
    + inversion Hloop; subst. repeat split; auto. congruence.
Qed.

(** With a finite iteration limit the loop ends within that many passes. *)
Lemma fit_loop_terminates (fuel : nat) (unique_dataset : matrix bool)
    (counts : list nat) (n : Z) (threshold : R) (s : fit_state) :
  (n - Z.of_nat (iterations_done s) <= Z.of_nat fuel)%Z ->
  exists sf,
    fit_loop fuel unique_dataset counts (Some n) threshold s = Some sf.
Proof.
  revert s. induction fuel as [|fuel IH]; intros s Hfuel; simpl.
  - destruct (Z.of_nat (iterations_done s) <? n)%Z eqn:Ht; [|eauto].
    apply Z.ltb_lt in Ht. lia.
  - destruct (Z.of_nat (iterations_done s) <? n)%Z eqn:Ht; [|eauto].
    destruct (fit_iteration unique_dataset counts threshold s) as [[|] s'] eqn:Ei;
      [eauto|].
    apply IH.
    destruct (convergence_test (previous_log_likelihood s)
                (pass_log_likelihood (fit_self s) unique_dataset counts)
                threshold) eqn:Ec.
    + rewrite (fit_iteration_break _ _ _ _ Ec) in Ei. discriminate.
    + rewrite (fit_iteration_continue _ _ _ _ Ec) in Ei.
      inversion Ei; subst. cbn. lia.
Qed.

Lemma unit_model_converges :
  exists self' ll status,
    fit 2 unit_model unit_dataset default_iteration_limit
        default_convergence_threshold false
    = Some (self', inr (ll, status))
    /\ converged status = true
    /\ number_of_iterations status = 1%nat.
Proof.
  unfold fit.
  replace (check_dimensions unit_model unit_dataset)
    with (@inr exception unit tt) by reflexivity.
  replace (_aggregate_dataset unit_dataset)
    with (@inr exception _ (Mat 1 [[true]], [1%nat])) by reflexivity.
  cbn [initial_trace ret].
  cbn [fit_loop loop_test iterations_done default_iteration_limit].
  replace (Z.of_nat 0 <? 1000)%Z with true by reflexivity.
  rewrite fit_iteration_continue by reflexivity.
  cbn [iterations_done].
  replace (Z.of_nat 1 <? 1000)%Z with true by reflexivity.
  rewrite fit_iteration_break.
  - do 3 eexists. repeat split; reflexivity.
  - cbn [previous_log_likelihood fit_self].
    apply convergence_test_true. eexists. split; [reflexivity|].
    unfold pass_log_likelihood, _log_likelihood_from_support.
    rewrite !support_rows. cbn [m_rows map].
    unfold_steps. unfold unit_model, default_convergence_threshold. simpl.
    ln_of_one. rewrite Rabs_right; lra.
Qed.

(** ** Sums over indices *)

Lemma big_sum_0 (f : nat -> R) : big_sum 0 f = 0.
Proof. reflexivity. Qed.

Lemma big_sum_S_l (n : nat) (f : nat -> R) :
  big_sum (S n) f = f 0%nat + big_sum n (fun i => f (S i)).
Proof.
  unfold big_sum. cbn [seq map np_sum fold_right].
  now rewrite <- seq_shift, map_map.
Qed.

Lemma big_sum_S_r (n : nat) (f : nat -> R) :
  big_sum (S n) f = big_sum n f + f n.
Proof.
  unfold big_sum. rewrite seq_S, map_app, np_sum_app. simpl. unfold np_sum.
  simpl. lra.
Qed.

Lemma big_sum_ext (n : nat) (f g : nat -> R) :
  (forall i, (i < n)%nat -> f i = g i) -> big_sum n f = big_sum n g.
Proof.
  intros H. unfold big_sum. f_equal. apply map_ext_in. intros i Hi.
  apply in_seq in Hi. apply H. lia.
Qed.

Lemma big_sum_plus (n : nat) (f g : nat -> R) :
  big_sum n (fun i => f i + g i) = big_sum n f + big_sum n g.
Proof.
  induction n as [|n IH]; [unfold big_sum; simpl; lra|].
  rewrite !big_sum_S_r, IH. lra.
Qed.

Lemma big_sum_scal (n : nat) (c : R) (f : nat -> R) :
  big_sum n (fun i => c * f i) = c * big_sum n f.
Proof.
  induction n as [|n IH]; [unfold big_sum; simpl; lra|].
  rewrite !big_sum_S_r, IH. lra.
Qed.

Lemma big_sum_const_0 (n : nat) : big_sum n (fun _ => 0) = 0.
Proof.
  induction n as [|n IH]; [reflexivity|]. rewrite big_sum_S_r, IH. lra.
Qed.

Lemma big_sum_exchange (n m : nat) (f : nat -> nat -> R) :
  big_sum n (fun i => big_sum m (fun k => f i k))
  = big_sum m (fun k => big_sum n (fun i => f i k)).
Proof.
  induction n as [|n IH].
  - rewrite big_sum_0. symmetry. apply big_sum_const_0.
  - rewrite big_sum_S_r, IH, <- big_sum_plus. apply big_sum_ext.
    intros k _. now rewrite big_sum_S_r.
Qed.

Lemma big_sum_le (n : nat) (f g : nat -> R) :
  (forall i, (i < n)%nat -> f i <= g i) -> big_sum n f <= big_sum n g.
Proof.
  induction n as [|n IH]; intros H; [unfold big_sum; simpl; lra|].
  rewrite !big_sum_S_r. specialize (H n (Nat.lt_succ_diag_r n)) as Hn.
  assert (big_sum n f <= big_sum n g) by (apply IH; intros; apply H; lia).
  lra.
Qed.

Lemma big_sum_nonneg (n : nat) (f : nat -> R) :
  (forall i, (i < n)%nat -> 0 <= f i) -> 0 <= big_sum n f.
Proof.
  intros H. rewrite <- (big_sum_const_0 n). now apply big_sum_le.
Qed.

Lemma np_sum_big_sum (l : list R) :
  np_sum l = big_sum (length l) (fun i => nth i l 0).
Proof.
  induction l as [|x l IH]; [reflexivity|].
  cbn [length]. rewrite big_sum_S_l. cbn [nth]. rewrite <- IH. reflexivity.
Qed.

Lemma np_sum_mul_vec (a b : list R) :
  length a = length b ->
  np_sum (mul_vec a b) = big_sum (length a) (fun i => nth i a 0 * nth i b 0).
Proof.
  revert b. induction a as [|x a IH]; destruct b as [|y b]; simpl;
    try discriminate; intros H; [reflexivity|].
  rewrite big_sum_S_l. cbn [nth]. rewrite <- IH by lia. reflexivity.
Qed.

Lemma column_nth (k i : nat) (rows : list (list R)) :
  nth i (column k rows) 0 = nth k (nth i rows []) 0.
Proof.
  unfold column. revert i. induction rows as [|r rows IH]; intros [|i]; simpl;
    auto; now destruct k.
Qed.

Lemma column_length (k : nat) (rows : list (list R)) :
  length (column k rows) = length rows.
Proof. unfold column. apply length_map. Qed.

Lemma nth_map_seq {B} (f : nat -> B) (n k : nat) (d : B) :
  (k < n)%nat -> nth k (map f (seq 0 n)) d = f k.
Proof.
  intros H. rewrite (nth_indep _ d (f 0%nat)) by (now rewrite length_map, length_seq).
  rewrite map_nth, seq_nth by assumption. reflexivity.
Qed.

Lemma nth_map_in {A B} (f : A -> B) (l : list A) (d : A) (d' : B) (n : nat) :
  (n < length l)%nat -> nth n (map f l) d' = f (nth n l d).
Proof.
  intros H. rewrite (nth_indep _ d' (f d)) by (now rewrite length_map).
  apply map_nth.
Qed.

(** ** The M-step *)

Lemma m_step_u (zstar : matrix R) (weights : list R) (k : nat) :
  length weights = length (m_rows zstar) ->
  np_sum (mul_vec (column k (m_rows zstar)) weights)
  = effective_count zstar weights k.
Proof.
  intros Hw. rewrite np_sum_mul_vec by (now rewrite column_length).
  rewrite column_length. unfold effective_count, entry.
  apply big_sum_ext. intros i _. rewrite column_nth. lra.
Qed.

Lemma m_step_mixing (zstar : matrix R) (unique_rows : matrix bool)
    (weights : list R) :
  length weights = length (m_rows zstar) ->
  fst (_m_step zstar unique_rows weights)
  = map (fun k => effective_count zstar weights k / np_sum weights)
        (seq 0 (n_cols zstar)).
Proof.
  intros Hw. unfold _m_step. cbn [fst]. unfold np_sum_axis1, np_T.
  rewrite !map_map. apply map_ext. intros k. now rewrite m_step_u.
Qed.

Lemma divide_rows_nth (vs : list (list R)) (u : list R) (k : nat) :
  length vs = length u -> (k < length u)%nat ->
  nth k (divide_rows vs u) [] = map (fun v => v / nth k u 0) (nth k vs []).
Proof.
  unfold divide_rows. revert u k.
  induction vs as [|row vs IH]; destruct u as [|uk u]; simpl; try discriminate;
    intros k Hlen Hk; [lia|].
  destruct k as [|k]; [reflexivity|]. apply IH; lia.
Qed.

Lemma divide_rows_length (vs : list (list R)) (u : list R) :
  length vs = length u -> length (divide_rows vs u) = length u.
Proof.
  intros H. unfold divide_rows. rewrite length_map, length_combine. lia.
Qed.

Lemma m_step_emission_rows (zstar : matrix R) (unique_rows : matrix bool)
    (weights : list R) (k : nat) :
  length weights = length (m_rows zstar) ->
  (k < n_cols zstar)%nat ->
  nth k (m_rows (snd (_m_step zstar unique_rows weights))) []
  = map (fun d => closed_form_emission zstar unique_rows weights k d)
        (seq 0 (n_cols unique_rows)).
Proof.
  intros Hw Hk. unfold _m_step. cbn [snd m_rows].
  set (u := np_sum_axis1 _).
  assert (Hu : length u = n_cols zstar).
  { subst u. unfold np_sum_axis1, np_T. now rewrite !length_map, length_seq. }
  assert (Huk : nth k u 0 = effective_count zstar weights k).
  { subst u. unfold np_sum_axis1, np_T. rewrite !map_map.
    rewrite nth_map_seq by assumption. now apply m_step_u. }
  unfold maximise_emissions. cbn [m_rows n_cols].
  rewrite divide_rows_nth;
    [|now rewrite length_map, length_seq, Hu | now rewrite Hu].
  rewrite nth_map_seq by assumption. rewrite map_map.
  apply map_ext. intros d. unfold closed_form_emission, entry, bit.
  now rewrite Huk.
Qed.

Lemma m_step_shape (zstar : matrix R) (unique_rows : matrix bool)
    (weights : list R) :
  length (fst (_m_step zstar unique_rows weights)) = n_cols zstar
  /\ length (m_rows (snd (_m_step zstar unique_rows weights))) = n_cols zstar
  /\ n_cols (snd (_m_step zstar unique_rows weights)) = n_cols unique_rows.
Proof.
  unfold _m_step. cbn [fst snd m_rows n_cols maximise_emissions].
  unfold np_sum_axis1, np_T. rewrite !length_map, length_seq.
  repeat split.
  rewrite divide_rows_length; now rewrite !length_map, !length_seq.
Qed.

(** The effective counts add up to the total weight when every row of the
    responsibility matrix sums to one. *)
Lemma effective_counts_total (zstar : matrix R) (weights : list R) :
  wf_matrix zstar ->
  length weights = length (m_rows zstar) ->
  (forall i, (i < length (m_rows zstar))%nat ->
     np_sum (nth i (m_rows zstar) []) = 1) ->
  big_sum (n_cols zstar) (fun k => effective_count zstar weights k)
  = np_sum weights.
Proof.
  intros Hwf Hw Hrows. unfold effective_count.
  rewrite <- big_sum_exchange. rewrite np_sum_big_sum, Hw.
  apply big_sum_ext. intros i Hi. rewrite big_sum_scal.
  assert (H1 : big_sum (n_cols zstar) (entry zstar i) = 1).
  { rewrite <- (Hrows i Hi), np_sum_big_sum. unfold entry.
    unfold wf_matrix in Hwf. rewrite Forall_forall in Hwf.
    rewrite (Hwf (nth i (m_rows zstar) [])) by (now apply nth_In).
    reflexivity. }
  rewrite H1. lra.
Qed.

(** C2: on a responsibility matrix of shape (M,K) whose rows sum to one, a
    matrix of M unique rows and M weights, with every effective count [u_k]
    different from zero, [_m_step] returns K mixing coefficients and a (K,D)
    matrix of emission probabilities that are the closed-form update:
    [u_k / sum_k u_k] and [(sum_i weight_i * zstar[i,k] * row_i[d]) / u_k],
    with no other term. *)
Theorem C2_m_step_closed_form
    (zstar : matrix R) (unique_rows : matrix bool) (weights : list R) :
  wf_matrix zstar ->
  wf_matrix unique_rows ->
  length (m_rows unique_rows) = length (m_rows zstar) ->
  length weights = length (m_rows zstar) ->
  (forall k, (k < n_cols zstar)%nat -> effective_count zstar weights k <> 0) ->
  (forall i, (i < length (m_rows zstar))%nat ->
     np_sum (nth i (m_rows zstar) []) = 1) ->
  let pi := fst (_m_step zstar unique_rows weights) in
  let e := snd (_m_step zstar unique_rows weights) in
  length pi = n_cols zstar
  /\ length (m_rows e) = n_cols zstar
  /\ n_cols e = n_cols unique_rows
  /\ wf_matrix e
  /\ forall k, (k < n_cols zstar)%nat ->
       nth k pi 0 = closed_form_mixing zstar weights k
       /\ forall d, (d < n_cols unique_rows)%nat ->
            entry e k d = closed_form_emission zstar unique_rows weights k d.
Proof.
  intros Hwf Hwfx Hm Hw Hu Hrows pi e.
  destruct (m_step_shape zstar unique_rows weights) as (H1 & H2 & H3).
  repeat split; auto.
  - unfold wf_matrix. rewrite Forall_forall. intros row Hin.
    apply (In_nth _ _ []) in Hin. destruct Hin as (k & Hk & <-).
    subst e. rewrite H2 in Hk.
    rewrite m_step_emission_rows by assumption.
    now rewrite length_map, length_seq.
  - subst pi. rewrite m_step_mixing by assumption.
    rewrite nth_map_seq by assumption.
    unfold closed_form_mixing. now rewrite effective_counts_total.
  - intros d Hd. subst e. unfold entry.
    rewrite m_step_emission_rows by assumption.
    now rewrite nth_map_seq.
Qed.

Lemma C2_witness :
  let zstar := Mat 2 [[0.5; 0.5]; [1; 0]] in
  let unique_rows := Mat 1 [[true]; [false]] in
  let weights := [2; 1] in
  (wf_matrix zstar /\ wf_matrix unique_rows
   /\ length (m_rows unique_rows) = length (m_rows zstar)
   /\ length weights = length (m_rows zstar)
   /\ (forall k, (k < n_cols zstar)%nat -> effective_count zstar weights k <> 0)
   /\ (forall i, (i < length (m_rows zstar))%nat ->
         np_sum (nth i (m_rows zstar) []) = 1))
  /\ nth 0 (fst (_m_step zstar unique_rows weights)) 0
     = closed_form_mixing zstar weights 0
  /\ entry (snd (_m_step zstar unique_rows weights)) 0 0
     = closed_form_emission zstar unique_rows weights 0 0.
Proof.
  intros zstar unique_rows weights.
  assert (Hwf : wf_matrix zstar) by (repeat constructor).
  assert (Hwfx : wf_matrix unique_rows) by (repeat constructor).
  assert (Hu : forall k, (k < n_cols zstar)%nat ->
                 effective_count zstar weights k <> 0).
  { intros [|[|k]] Hk; unfold effective_count, big_sum, entry, np_sum;
      simpl in *; try lra; lia. }
  assert (Hrows : forall i, (i < length (m_rows zstar))%nat ->
                    np_sum (nth i (m_rows zstar) []) = 1).
  { intros [|[|i]] Hi; unfold np_sum; simpl in *; try lra; lia. }
  split; [repeat split; auto|].
  destruct (C2_m_step_closed_form zstar unique_rows weights Hwf Hwfx
              eq_refl eq_refl Hu Hrows) as (_ & _ & _ & _ & H).
  destruct (H 0%nat) as [Hpi He]; [simpl; lia|].
  split; [exact Hpi|]. apply He. simpl; lia.
Defined.

(** ** The E-step and the assignments *)

Lemma div_vec_nth (a b : list R) (i : nat) :
  length a = length b -> (i < length a)%nat ->
  nth i (div_vec a b) 0 = nth i a 0 / nth i b 0.
Proof.
  revert b i. induction a as [|x a IH]; destruct b as [|y b]; simpl;
    try discriminate; intros i Hlen Hi; [lia|].
  destruct i as [|i]; [reflexivity|]. apply IH; lia.
Qed.

(** The double transposition of the E-step divides every row by its sum. *)
Lemma posterior_rows (support : matrix R) :
  wf_matrix support ->
  m_rows (_posterior_probability_of_class_given_support support)
  = map (fun r => map (fun s => s / np_sum r) r) (m_rows support).
Proof.
  intros Hwf. unfold _posterior_probability_of_class_given_support.
  cbn [m_rows]. unfold np_T at 1.
  rewrite <- (map_seq_nth_plain (m_rows support) []
                (fun r => map (fun s => s / np_sum r) r)).
  apply map_ext_in. intros i Hi. apply in_seq in Hi.
  unfold column at 1. unfold np_T. rewrite map_map, map_map.
  assert (Hlen : length (nth i (m_rows support) []) = n_cols support).
  { unfold wf_matrix in Hwf. rewrite Forall_forall in Hwf.
    apply Hwf, nth_In. lia. }
  rewrite <- (map_seq_nth_plain (nth i (m_rows support) []) 0
                (fun s => s / np_sum (nth i (m_rows support) []))).
  rewrite Hlen. apply map_ext. intros k.
  rewrite div_vec_nth.
  - rewrite column_nth. unfold np_sum_axis1.
    change (nth i (map np_sum (m_rows support)) 0)
      with (nth i (map np_sum (m_rows support)) (np_sum [])).
    now rewrite map_nth.
  - unfold np_sum_axis1. now rewrite column_length, length_map.
  - rewrite column_length. lia.
Qed.

Lemma support_wf (self : BernoulliMixture) (observations : matrix bool) :
  wf_matrix (_observation_emission_support self observations).
Proof.
  unfold wf_matrix. rewrite support_rows, support_n_cols.
  rewrite Forall_forall. intros r Hin. apply in_map_iff in Hin.
  destruct Hin as (x & <- & _). unfold support_row.
  now rewrite length_map, length_seq.
Qed.

Lemma np_sum_map_div (r : list R) (c : R) :
  np_sum (map (fun s => s / c) r) = np_sum r / c.
Proof.
  unfold np_sum. induction r as [|x r IH]; simpl; [lra|].
  rewrite IH. unfold Rdiv. lra.
Qed.

Lemma normalised_row_sum (r : list R) :
  np_sum r <> 0 -> np_sum (map (fun s => s / np_sum r) r) = 1.
Proof. intros H. rewrite np_sum_map_div. now field. Qed.

Lemma argmax_from_spec (pre v : list R) (best : nat) (bestv : R) :
  (best < length pre)%nat ->
  nth best pre 0 = bestv ->
  (forall j, (j < length pre)%nat -> nth j pre 0 <= bestv) ->
  (forall j, (j < best)%nat -> nth j pre 0 < bestv) ->
  is_argmax (pre ++ v) (argmax_from best bestv (length pre) v).
Proof.
  revert pre best bestv.
  induction v as [|x v IH]; intros pre best bestv Hb Hv Hle Hlt; simpl.
  - rewrite app_nil_r. unfold is_argmax. rewrite Hv. auto.
  - replace (pre ++ x :: v) with ((pre ++ [x]) ++ v)
      by (now rewrite <- app_assoc).
    replace (S (length pre)) with (length (pre ++ [x]))
      by (rewrite length_app; simpl; lia).
    destruct (Rltb bestv x) eqn:E.
    + apply Rltb_true in E.
      replace (length pre) with (length pre + 0)%nat at 1 by lia.
      replace (length pre + 0)%nat with (length pre) by lia.
      apply IH.
      * rewrite length_app. simpl. lia.
      * rewrite app_nth2 by lia. now rewrite Nat.sub_diag.
      * intros j Hj. rewrite length_app in Hj. simpl in Hj.
        destruct (Nat.eq_dec j (length pre)) as [->|Hne].
        -- rewrite app_nth2 by lia. rewrite Nat.sub_diag. simpl. lra.
        -- rewrite app_nth1 by lia. specialize (Hle j). 
           assert (nth j pre 0 <= bestv) by (apply Hle; lia). lra.
      * intros j Hj. rewrite app_nth1 by lia.
        assert (nth j pre 0 <= bestv) by (apply Hle; lia). lra.
    + apply Rltb_false in E. apply IH.
      * rewrite length_app. simpl. lia.
      * now rewrite app_nth1 by lia.
      * intros j Hj. rewrite length_app in Hj. simpl in Hj.
        destruct (Nat.eq_dec j (length pre)) as [->|Hne].
        -- rewrite app_nth2 by lia. rewrite Nat.sub_diag. simpl. lra.
        -- rewrite app_nth1 by lia. apply Hle. lia.
      * intros j Hj. rewrite app_nth1 by lia. now apply Hlt.
Qed.

Lemma np_argmax_spec (v : list R) : v <> [] -> is_argmax v (np_argmax v).
Proof.
  destruct v as [|x v]; [congruence|]. intros _. unfold np_argmax.
  apply (argmax_from_spec [x] v 0 x); simpl; auto.
  - intros j Hj. replace j with 0%nat by lia. lra.
  - intros j Hj. lia.
Qed.

(** C9: on a dataset with D columns all of whose rows have positive total
    support, every row of [soft_assignment] sums to one and the label that
    [hard_assignment] gives to a row is the arg-max index of that row of
    [soft_assignment]. *)
Theorem C9_assignment_consistency
    (self : BernoulliMixture) (dataset : matrix bool) :
  Z.of_nat (n_cols dataset) = number_of_dimensions self ->
  (forall n, (n < length (m_rows dataset))%nat ->
     0 < np_sum (nth n (m_rows (_observation_emission_support self dataset)) [])) ->
  exists probs labels,
    soft_assignment self dataset = inr probs
    /\ hard_assignment self dataset = inr labels
    /\ length (m_rows probs) = length (m_rows dataset)
    /\ length labels = length (m_rows dataset)
    /\ forall n, (n < length (m_rows dataset))%nat ->
         np_sum (nth n (m_rows probs) []) = 1
         /\ is_argmax (nth n (m_rows probs) []) (nth n labels 0%nat).
Proof.
  intros _ Hpos.
  set (support := _observation_emission_support self dataset) in *.
  exists (_posterior_probability_of_class_given_support support),
         (map np_argmax
              (m_rows (_posterior_probability_of_class_given_support support))).
  assert (Hlen : length (m_rows support) = length (m_rows dataset)).
  { subst support. now rewrite support_rows, length_map. }
  rewrite (posterior_rows support (support_wf self dataset)).
  split; [reflexivity|]. split.
  { unfold hard_assignment, soft_assignment, bind, ret. fold support.
    now rewrite (posterior_rows support (support_wf self dataset)). }
  split; [now rewrite length_map|]. split; [now rewrite !length_map|].
  intros n Hn. specialize (Hpos n Hn). split.
  - rewrite (nth_map_in _ _ [] [] n) by lia.
    apply normalised_row_sum. lra.
  - rewrite map_map.
    rewrite (nth_map_in _ _ [] 0%nat n) by lia.
    rewrite (nth_map_in _ _ [] [] n) by lia.
    apply np_argmax_spec.
    destruct (nth n (m_rows support) []);
      [unfold np_sum in Hpos; simpl in Hpos; lra|].
    discriminate.
Qed.

Lemma C9_witness :
  let dataset := Mat 4 [[true; false; false; true]] in
  Z.of_nat (n_cols dataset) = number_of_dimensions model_3_4
  /\ (forall n, (n < length (m_rows dataset))%nat ->
        0 < np_sum (nth n (m_rows (_observation_emission_support model_3_4 dataset)) []))
  /\ exists probs labels,
       soft_assignment model_3_4 dataset = inr probs
       /\ hard_assignment model_3_4 dataset = inr labels
       /\ length (m_rows probs) = length (m_rows dataset)
       /\ length labels = length (m_rows dataset)
       /\ forall n, (n < length (m_rows dataset))%nat ->
            np_sum (nth n (m_rows probs) []) = 1
            /\ is_argmax (nth n (m_rows probs) []) (nth n labels 0%nat).
Proof.
  intros dataset.
  assert (Hpos : forall n, (n < length (m_rows dataset))%nat ->
    0 < np_sum (nth n (m_rows (_observation_emission_support model_3_4 dataset)) [])).
  { intros [|n] Hn; [|simpl in Hn; lia].
    rewrite support_rows. unfold_steps. simpl. lra. }
  split; [reflexivity|]. split; [exact Hpos|].
  exact (C9_assignment_consistency model_3_4 dataset eq_refl Hpos).
Defined.

(** ** Two bounds on the logarithm *)

Lemma ln_le_minus_1 (x : R) : 0 < x -> ln x <= x - 1.
Proof.
  intros Hx. destruct (Req_dec x 1) as [->|Hne].
  - rewrite ln_1. lra.
  - assert (H : 1 + (x - 1) < exp (x - 1)) by (apply exp_ineq1; lra).
    replace (1 + (x - 1)) with x in H by lra.
    apply ln_increasing in H; [|exact Hx]. rewrite ln_exp in H. lra.
Qed.

Lemma ln_lower_bound (x : R) : 0 < x -> 1 - / x <= ln x.
Proof.
  intros Hx. assert (Hi : 0 < / x) by now apply Rinv_0_lt_compat.
  pose proof (ln_le_minus_1 (/ x) Hi) as H. rewrite ln_Rinv in H by exact Hx.
  lra.
Qed.

(** ** A valid model on which the log-likelihood decreases *)

Lemma skewed_model_valid :
  __init__ 2 1 [0.500005; 0.500005] (Mat 1 [[1]; [1]]) = inr skewed_model.
Proof.
  apply init_accepts_valid; try reflexivity.
  - unfold sum_tolerance, default_atol, default_rtol, np_sum. simpl.
    rewrite Rabs_R1. rewrite Rabs_right; lra.
  - repeat constructor; lra.
  - repeat constructor; lra.
Qed.

(** The first pass computes ln 1.00001, the M-step normalises the mixing
    coefficients, and the second pass computes ln 1. *)
Lemma skewed_model_gap :
  1e-5 / 2 <
  pass_log_likelihood skewed_model (Mat 1 [[true]]) [1%nat]
  - pass_log_likelihood
      {| _number_of_components := _number_of_components skewed_model;
         _number_of_dimensions := _number_of_dimensions skewed_model;
         _mixing_coefficients :=
           fst (_m_step
                  (_posterior_probability_of_class_given_support
                     (_observation_emission_support skewed_model (Mat 1 [[true]])))
                  (Mat 1 [[true]]) (map INR [1%nat]));
         _emission_probabilities :=
           snd (_m_step
                  (_posterior_probability_of_class_given_support
                     (_observation_emission_support skewed_model (Mat 1 [[true]])))
                  (Mat 1 [[true]]) (map INR [1%nat])) |}
      (Mat 1 [[true]]) [1%nat].
Proof.
  unfold pass_log_likelihood, _log_likelihood_from_support.
  rewrite !support_rows. cbn [m_rows map].
  unfold_steps. unfold skewed_model. simpl.
  match goal with
  | |- _ < ln ?a * 1 + 0 - (ln ?b * 1 + 0) =>
      replace b with 1 by (field; lra);
      replace a with 1.00001 by lra
  end.
  rewrite ln_1. pose proof (ln_lower_bound 1.00001). lra.
Qed.

(** The counterexample to C6 as stated: the constructor accepts the model,
    and a fit of two passes with the default threshold records a trace whose
    second entry lies below the first by more than 1e-9. *)
Lemma C6_counterexample :
  exists self' ll status t0 t1,
    __init__ 2 1 [0.500005; 0.500005] (Mat 1 [[1]; [1]]) = inr skewed_model
    /\ fit 2 skewed_model unit_dataset (Some 2%Z) default_convergence_threshold true
       = Some (self', inr (ll, status))
    /\ likelihood_trace status = Some [Some t0; Some t1]
    /\ t1 < t0 - 1e-9.
Proof.
  unfold fit.
  replace (check_dimensions skewed_model unit_dataset)
    with (@inr exception unit tt) by reflexivity.
  replace (_aggregate_dataset unit_dataset)
    with (@inr exception _ (Mat 1 [[true]], [1%nat])) by reflexivity.
  cbn [initial_trace ret truthy Z.eqb negb Z.ltb Z.compare Z.to_nat Pos.to_nat
       Pos.iter_op Init.Nat.add repeat].
  cbn [fit_loop loop_test iterations_done].
  replace (Z.of_nat 0 <? 2)%Z with true by reflexivity.
  rewrite fit_iteration_continue by reflexivity.
  cbn [iterations_done].
  replace (Z.of_nat 1 <? 2)%Z with true by reflexivity.
  pose proof skewed_model_gap as Hgap.
  rewrite fit_iteration_continue.
  - cbn [iterations_done fit_self previous_log_likelihood trace record_trace
         array_set].
    replace (Z.of_nat 2 <? 2)%Z with false by reflexivity.
    do 5 eexists. split; [exact skewed_model_valid|].
    split; [reflexivity|].
    cbn [likelihood_trace final_trace trace truthy iterations_done trace_cells
         Z.eqb negb length Nat.ltb Nat.leb].
    split; [reflexivity|]. lra.
  - cbn [previous_log_likelihood fit_self].
    destruct (convergence_test _ _ _) eqn:E; [|reflexivity].
    apply convergence_test_true in E. destruct E as (p & Ep & Hp).
    inversion Ep; subst p. unfold default_convergence_threshold in Hp.
    unfold Rabs in Hp. destruct (Rcase_abs _); lra.
Qed.

(** ** More on sums and products over indices *)

Lemma big_sum_ge_term (n j : nat) (f : nat -> R) :
  (forall i, (i < n)%nat -> 0 <= f i) -> (j < n)%nat -> f j <= big_sum n f.
Proof.
  induction n as [|n IH]; intros Hf Hj; [lia|].
  rewrite big_sum_S_r.
  assert (H0 : 0 <= big_sum n f) by (apply big_sum_nonneg; intros; apply Hf; lia).
  assert (Hn : 0 <= f n) by (apply Hf; lia).
  destruct (Nat.eq_dec j n) as [->|Hne]; [lra|].
  assert (f j <= big_sum n f) by (apply IH; [intros; apply Hf|]; lia). lra.
Qed.

Lemma big_sum_pos (n j : nat) (f : nat -> R) :
  (forall i, (i < n)%nat -> 0 <= f i) -> (j < n)%nat -> 0 < f j ->
  0 < big_sum n f.
Proof.
  intros Hf Hj Hpos. pose proof (big_sum_ge_term n j f Hf Hj). lra.
Qed.

Lemma big_sum_pos_term (n : nat) (f : nat -> R) :
  (forall i, (i < n)%nat -> 0 <= f i) -> 0 < big_sum n f ->
  exists j, (j < n)%nat /\ 0 < f j.
Proof.
  induction n as [|n IH]; intros Hf Hpos.
  - rewrite big_sum_0 in Hpos. lra.
  - rewrite big_sum_S_r in Hpos.
    assert (Hn : 0 <= f n) by (apply Hf; lia).
    destruct (Rle_lt_dec (f n) 0) as [Hz|Hp].
    + destruct IH as (j & Hj & Hfj); [intros; apply Hf; lia|lra|].
      exists j. split; [lia|exact Hfj].
    + exists n. split; [lia|exact Hp].
Qed.

Lemma big_sum_minus (n : nat) (f g : nat -> R) :
  big_sum n (fun i => f i - g i) = big_sum n f - big_sum n g.
Proof.
  induction n as [|n IH]; [unfold big_sum; simpl; lra|].
  rewrite !big_sum_S_r, IH. lra.
Qed.

Lemma big_sum_scal_r (n : nat) (c : R) (f : nat -> R) :
  big_sum n (fun i => f i * c) = big_sum n f * c.
Proof.
  induction n as [|n IH]; [unfold big_sum; simpl; lra|].
  rewrite !big_sum_S_r, IH. lra.
Qed.

Lemma big_prod_0 (f : nat -> R) : big_prod 0 f = 1.
Proof. reflexivity. Qed.

Lemma big_prod_S_r (n : nat) (f : nat -> R) :
  big_prod (S n) f = big_prod n f * f n.
Proof.
  unfold big_prod. rewrite seq_S, map_app. simpl.
  generalize (map f (seq 0 n)) as l. induction l as [|a l IH]; simpl; [lra|].
  rewrite IH. lra.
Qed.

Lemma big_prod_ext (n : nat) (f g : nat -> R) :
  (forall d, (d < n)%nat -> f d = g d) -> big_prod n f = big_prod n g.
Proof.
  intros H. unfold big_prod. f_equal. apply map_ext_in. intros i Hi.
  apply in_seq in Hi. apply H. lia.
Qed.

Lemma big_prod_nonneg (n : nat) (f : nat -> R) :
  (forall d, (d < n)%nat -> 0 <= f d) -> 0 <= big_prod n f.
Proof.
  induction n as [|n IH]; intros H; [rewrite big_prod_0; lra|].
  rewrite big_prod_S_r. apply Rmult_le_pos; [apply IH; intros; apply H; lia|].
  apply H. lia.
Qed.

Lemma big_prod_pos (n : nat) (f : nat -> R) :
  (forall d, (d < n)%nat -> 0 < f d) -> 0 < big_prod n f.
Proof.
  induction n as [|n IH]; intros H; [rewrite big_prod_0; lra|].
  rewrite big_prod_S_r. apply Rmult_lt_0_compat; [apply IH; intros; apply H; lia|].
  apply H. lia.
Qed.

Lemma big_prod_pos_inv (n : nat) (f : nat -> R) :
  (forall d, (d < n)%nat -> 0 <= f d) -> 0 < big_prod n f ->
  forall d, (d < n)%nat -> 0 < f d.
Proof.
  induction n as [|n IH]; intros Hf Hpos d Hd; [lia|].
  rewrite big_prod_S_r in Hpos.
  assert (Hn : 0 <= f n) by (apply Hf; lia).
  assert (Hp : 0 <= big_prod n f) by (apply big_prod_nonneg; intros; apply Hf; lia).
  assert (0 < big_prod n f /\ 0 < f n) as [Hp' Hn'].
  { split.
    - destruct (Rle_lt_dec (big_prod n f) 0); [|assumption].
      replace (big_prod n f) with 0 in Hpos by lra. lra.
    - destruct (Rle_lt_dec (f n) 0); [|assumption].
      replace (f n) with 0 in Hpos by lra. lra. }
  destruct (Nat.eq_dec d n) as [->|Hne]; [assumption|].
  apply IH; [intros; apply Hf; lia | assumption | lia].
Qed.

(** The logarithm of a product of positive numbers, from below. *)
Lemma ln_big_prod_lower (n : nat) (r : nat -> R) :
  (forall d, (d < n)%nat -> 0 < r d) ->
  big_sum n (fun d => 1 - / r d) <= ln (big_prod n r).
Proof.
  induction n as [|n IH]; intros H.
  - rewrite big_sum_0, big_prod_0, ln_1. lra.
  - rewrite big_sum_S_r, big_prod_S_r.
    assert (Hp : 0 < big_prod n r) by (apply big_prod_pos; intros; apply H; lia).
    assert (Hn : 0 < r n) by (apply H; lia).
    rewrite ln_mult by assumption.
    pose proof (ln_lower_bound (r n) Hn).
    assert (big_sum n (fun d => 1 - / r d) <= ln (big_prod n r))
      by (apply IH; intros; apply H; lia).
    lra.
Qed.

Lemma ln_quotient (a b : R) : 0 < a -> 0 < b -> ln (a / b) = ln a - ln b.
Proof.
  intros Ha Hb. unfold Rdiv.
  rewrite ln_mult by (auto using Rinv_0_lt_compat).
  rewrite ln_Rinv by assumption. lra.
Qed.

Lemma ln_monotone (a b : R) : 0 < a -> a <= b -> ln a <= ln b.
Proof.
  intros Ha [Hlt|Heq]; [|subst; lra]. left. now apply ln_increasing.
Qed.

(** Concavity of the logarithm, for weights that sum to one. *)
Lemma ln_jensen (n : nat) (z y : nat -> R) :
  (forall k, (k < n)%nat -> 0 <= z k) ->
  big_sum n z = 1 ->
  (forall k, (k < n)%nat -> 0 < z k -> 0 < y k) ->
  0 < big_sum n (fun k => z k * y k)
  /\ big_sum n (fun k => z k * ln (y k)) <= ln (big_sum n (fun k => z k * y k)).
Proof.
  intros Hz Hsum Hy.
  set (m := big_sum n (fun k => z k * y k)).
  assert (Hterm : forall k, (k < n)%nat -> 0 <= z k * y k).
  { intros k Hk. destruct (Rle_lt_dec (z k) 0) as [H0|Hp].
    - replace (z k) with 0 by (specialize (Hz k Hk); lra). lra.
    - specialize (Hy k Hk Hp). nra. }
  assert (Hm : 0 < m).
  { destruct (big_sum_pos_term n z Hz) as (j & Hj & Hzj); [lra|].
    apply (big_sum_pos n j); auto. specialize (Hy j Hj Hzj). nra. }
  split; [exact Hm|].
  assert (Hk : forall k, (k < n)%nat ->
               z k * ln (y k) <= z k * ln m + z k * y k * / m - z k).
  { intros k Hk. destruct (Rle_lt_dec (z k) 0) as [H0|Hp].
    - replace (z k) with 0 by (specialize (Hz k Hk); lra). lra.
    - specialize (Hy k Hk Hp).
      assert (Hq : 0 < y k / m) by (apply Rdiv_lt_0_compat; assumption).
      pose proof (ln_le_minus_1 (y k / m) Hq) as Hl.
      rewrite ln_quotient in Hl by assumption.
      unfold Rdiv in Hl.
      assert (z k * (ln (y k) - ln m) <= z k * (y k * / m - 1))
        by (apply Rmult_le_compat_l; lra).
      lra. }
  apply big_sum_le in Hk.
  rewrite big_sum_minus, big_sum_plus, big_sum_scal_r, big_sum_scal_r in Hk.
  fold m in Hk. rewrite Hsum in Hk.
  replace (m * / m) with 1 in Hk by (field; lra). lra.
Qed.

Lemma ln_big_prod_ratio (n : nat) (f f' : nat -> R) :
  (forall d, (d < n)%nat -> 0 < f d) ->
  (forall d, (d < n)%nat -> 0 < f' d) ->
  big_sum n (fun d => 1 - f d / f' d) <= ln (big_prod n f') - ln (big_prod n f).
Proof.
  induction n as [|n IH]; intros Hf Hf'.
  - rewrite big_sum_0, !big_prod_0. lra.
  - rewrite big_sum_S_r, !big_prod_S_r.
    assert (0 < big_prod n f) by (apply big_prod_pos; intros; apply Hf; lia).
    assert (0 < big_prod n f') by (apply big_prod_pos; intros; apply Hf'; lia).
    assert (Hn : 0 < f n) by (apply Hf; lia).
    assert (Hn' : 0 < f' n) by (apply Hf'; lia).
    rewrite !ln_mult by assumption.
    assert (big_sum n (fun d => 1 - f d / f' d)
            <= ln (big_prod n f') - ln (big_prod n f))
      by (apply IH; intros; [apply Hf|apply Hf']; lia).
    assert (Hq : 0 < f' n / f n) by now apply Rdiv_lt_0_compat.
    pose proof (ln_lower_bound _ Hq) as Hl.
    rewrite ln_quotient in Hl by assumption.
    replace (/ (f' n / f n)) with (f n / f' n) in Hl by (field; lra).
    lra.
Qed.

(** The arithmetic at the heart of the emission update. *)
Lemma emission_update_gain (u a m : R) :
  0 < u -> 0 <= a <= u -> 0 <= m <= 1 ->
  0 <= a * (1 - m / (a / u)) + (u - a) * (1 - (1 - m) / (1 - a / u)).
Proof.
  intros Hu Ha Hm.
  destruct (Req_dec a 0) as [->|Ha0].
  - replace (0 / u) with 0 by (field; lra).
    replace (1 - 0) with 1 by lra. unfold Rdiv. rewrite Rinv_1. nra.
  - destruct (Req_dec a u) as [->|Hau].
    + replace (u / u) with 1 by (field; lra). unfold Rdiv. rewrite Rinv_1. nra.
    + right. field. split; [|split]; lra.
Qed.

(** ** One step of the iteration cannot lower the log-likelihood *)

Section EMStep.

#[local] Set Warnings "-notation-for-abbreviation".

Variables (D K M : nat).
Variable x : nat -> nat -> bool.
Variables (w pi : nat -> R).
Variable mu : nat -> nat -> R.

Hypothesis Hreg : em_regular D K M x w pi mu.

Local Notation s := (em_support D x pi mu).
Local Notation S := (em_total D K x pi mu).
Local Notation z := (em_resp D K x pi mu).
Local Notation u := (em_count D K M x w pi mu).
Local Notation W := (big_sum M w).
Local Notation pi' := (em_new_pi D K M x w pi mu).
Local Notation mu' := (em_new_mu D K M x w pi mu).
Local Notation s' := (em_support D x pi' mu').
Local Notation S' := (em_total D K x pi' mu').
Local Notation a := (fun k d => big_sum M (fun i => w i * z i k * b2R (x i d))).

Lemma reg_weight (i : nat) : (i < M)%nat -> 0 < w i.
Proof. intros. now apply Hreg. Qed.

Lemma reg_total (i : nat) : (i < M)%nat -> 0 < S i.
Proof. intros. now apply Hreg. Qed.

Lemma factor_bounds (k i d : nat) :
  (k < K)%nat -> (d < D)%nat -> 0 <= em_factor x mu k i d <= 1.
Proof.
  intros Hk Hd. destruct Hreg as (_ & _ & _ & Hmu & _).
  specialize (Hmu k d Hk Hd). unfold em_factor. destruct (x i d); lra.
Qed.

Lemma support_nonneg (i k : nat) : (k < K)%nat -> 0 <= s i k.
Proof.
  intros Hk. unfold em_support. apply Rmult_le_pos.
  - now apply Hreg.
  - apply big_prod_nonneg. intros d Hd. now apply factor_bounds.
Qed.

Lemma support_pos_inv (i k : nat) :
  (k < K)%nat -> 0 < s i k ->
  0 < pi k /\ forall d, (d < D)%nat -> 0 < em_factor x mu k i d.
Proof.
  intros Hk Hs. unfold em_support in Hs.
  assert (Hp : 0 <= pi k) by now apply Hreg.
  assert (Hb : 0 <= big_prod D (em_factor x mu k i)).
  { apply big_prod_nonneg. intros d Hd. now apply factor_bounds. }
  assert (0 < pi k /\ 0 < big_prod D (em_factor x mu k i)) as [H1 H2].
  { split.
    - destruct (Rle_lt_dec (pi k) 0); [|assumption].
      replace (pi k) with 0 in Hs by lra. lra.
    - destruct (Rle_lt_dec (big_prod D (em_factor x mu k i)) 0); [|assumption].
      replace (big_prod D (em_factor x mu k i)) with 0 in Hs by lra. lra. }
  split; [exact H1|].
  apply big_prod_pos_inv; [|exact H2]. intros d Hd. now apply factor_bounds.
Qed.

Lemma resp_nonneg (i k : nat) : (i < M)%nat -> (k < K)%nat -> 0 <= z i k.
Proof.
  intros Hi Hk. unfold em_resp. apply Rmult_le_pos.
  - now apply support_nonneg.
  - left. apply Rinv_0_lt_compat. now apply reg_total.
Qed.

Lemma resp_pos (i k : nat) : (i < M)%nat -> 0 < s i k -> 0 < z i k.
Proof.
  intros Hi Hs. unfold em_resp. apply Rdiv_lt_0_compat; [exact Hs|].
  now apply reg_total.
Qed.

Lemma resp_pos_inv (i k : nat) : (i < M)%nat -> 0 < z i k -> 0 < s i k.
Proof.
  intros Hi Hz. unfold em_resp in Hz.
  pose proof (reg_total i Hi) as HS.
  replace (s i k) with (s i k / S i * S i) by (field; lra).
  now apply Rmult_lt_0_compat.
Qed.

Lemma resp_sum (i : nat) : (i < M)%nat -> big_sum K (z i) = 1.
Proof.
  intros Hi. pose proof (reg_total i Hi) as HS.
  unfold em_resp, Rdiv. rewrite big_sum_scal_r.
  apply Rinv_r. apply Rgt_not_eq. exact HS.
Qed.

Lemma count_term_nonneg (i k : nat) :
  (i < M)%nat -> (k < K)%nat -> 0 <= w i * z i k.
Proof.
  intros Hi Hk. apply Rmult_le_pos; [left; now apply reg_weight|].
  now apply resp_nonneg.
Qed.

Lemma count_pos (k : nat) : (k < K)%nat -> 0 < u k.
Proof.
  intros Hk. destruct Hreg as (_ & _ & _ & _ & _ & Hcnt).
  destruct (Hcnt k Hk) as (i & Hi & Hs).
  unfold em_count. apply (big_sum_pos M i).
  - intros j Hj. now apply count_term_nonneg.
  - exact Hi.
  - apply Rmult_lt_0_compat; [now apply reg_weight|now apply resp_pos].
Qed.

Lemma count_sum : big_sum K u = W.
Proof.
  unfold em_count.
  rewrite <- (big_sum_exchange M K (fun i k => w i * z i k)).
  apply big_sum_ext. intros i Hi. rewrite big_sum_scal.
  rewrite resp_sum by assumption. lra.
Qed.

Lemma total_weight_pos : (0 < K)%nat -> 0 < W.
Proof.
  intros HK. rewrite <- count_sum. apply (big_sum_pos K 0); auto.
  - intros k Hk. left. now apply count_pos.
  - now apply count_pos.
Qed.

Lemma new_pi_pos (k : nat) : (k < K)%nat -> 0 < pi' k.
Proof.
  intros Hk. unfold em_new_pi.
  apply Rdiv_lt_0_compat; [now apply count_pos|]. apply total_weight_pos. lia.
Qed.

Lemma new_pi_sum : big_sum K pi' <= 1.
Proof.
  destruct (Nat.eq_dec K 0) as [E|E]; [rewrite E, big_sum_0; lra|].
  assert (HW : 0 < W) by (apply total_weight_pos; lia).
  right. unfold em_new_pi, Rdiv.
  rewrite big_sum_scal_r, count_sum. apply Rinv_r. lra.
Qed.

Lemma numerator_bounds (k d : nat) : (k < K)%nat -> 0 <= a k d <= u k.
Proof.
  intros Hk. unfold em_count. split.
  - apply big_sum_nonneg. intros i Hi.
    pose proof (count_term_nonneg i k Hi Hk). destruct (x i d); simpl; lra.
  - apply big_sum_le. intros i Hi.
    pose proof (count_term_nonneg i k Hi Hk). destruct (x i d); simpl; lra.
Qed.

Lemma new_mu_eq (k d : nat) : mu' k d = a k d / u k.
Proof. reflexivity. Qed.

Lemma new_mu_bounds (k d : nat) : (k < K)%nat -> 0 <= mu' k d <= 1.
Proof.
  intros Hk. rewrite new_mu_eq.
  pose proof (count_pos k Hk) as Hu. pose proof (numerator_bounds k d Hk) as Ha.
  split.
  - apply Rmult_le_pos; [lra|]. left. now apply Rinv_0_lt_compat.
  - apply (Rmult_le_reg_r (u k)); [exact Hu|]. 
    replace (a k d / u k * u k) with (a k d) by (field; lra). lra.
Qed.

Lemma new_factor_pos (i k d : nat) :
  (i < M)%nat -> (k < K)%nat -> 0 < z i k -> 0 < em_factor x mu' k i d.
Proof.
  intros Hi Hk Hz. pose proof (count_pos k Hk) as Hu.
  pose proof (reg_weight i Hi) as Hw.
  assert (Hwz : 0 < w i * z i k) by now apply Rmult_lt_0_compat.
  unfold em_factor. rewrite new_mu_eq. destruct (x i d) eqn:Ex.
  - apply Rdiv_lt_0_compat; [|exact Hu].
    eapply Rlt_le_trans; [exact Hwz|].
    replace (w i * z i k) with (w i * z i k * b2R (x i d))
      by (rewrite Ex; simpl; lra).
    apply (big_sum_ge_term M i (fun j => w j * z j k * b2R (x j d))); [|exact Hi].
    intros j Hj. pose proof (count_term_nonneg j k Hj Hk).
    destruct (x j d); simpl; lra.
  - replace (1 - a k d / u k) with ((u k - a k d) / u k) by (field; lra).
    apply Rdiv_lt_0_compat; [|exact Hu].
    unfold em_count. rewrite <- big_sum_minus.
    eapply Rlt_le_trans; [exact Hwz|].
    replace (w i * z i k)
      with (w i * z i k - w i * z i k * b2R (x i d))
      by (rewrite Ex; simpl; lra).
    apply (big_sum_ge_term M i
             (fun j => w j * z j k - w j * z j k * b2R (x j d))); [|exact Hi].
    intros j Hj. pose proof (count_term_nonneg j k Hj Hk).
    destruct (x j d); simpl; lra.
Qed.

Lemma new_support_pos (i k : nat) :
  (i < M)%nat -> (k < K)%nat -> 0 < z i k -> 0 < s' i k.
Proof.
  intros Hi Hk Hz. unfold em_support. apply Rmult_lt_0_compat.
  - now apply new_pi_pos.
  - apply big_prod_pos. intros d _. now apply new_factor_pos.
Qed.

Lemma new_support_nonneg (i k : nat) : (k < K)%nat -> 0 <= s' i k.
Proof.
  intros Hk. unfold em_support. apply Rmult_le_pos.
  - left. now apply new_pi_pos.
  - apply big_prod_nonneg. intros d Hd.
    pose proof (new_mu_bounds k d Hk). unfold em_factor. destruct (x i d); lra.
Qed.

Lemma resp_positive_somewhere (i : nat) :
  (i < M)%nat -> exists k, (k < K)%nat /\ 0 < z i k.
Proof.
  intros Hi. apply big_sum_pos_term.
  - intros k Hk. now apply resp_nonneg.
  - rewrite resp_sum by assumption. lra.
Qed.

Lemma new_total_pos (i : nat) : (i < M)%nat -> 0 < S' i.
Proof.
  intros Hi. destruct (resp_positive_somewhere i Hi) as (k & Hk & Hz).
  unfold em_total. apply (big_sum_pos K k); auto.
  - intros j Hj. now apply new_support_nonneg.
  - now apply new_support_pos.
Qed.

(** The step leads from regular parameters to regular parameters. *)
Lemma em_regular_step : em_regular D K M x w pi' mu'.
Proof.
  unfold em_regular. repeat split.
  - intros i Hi. now apply reg_weight.
  - intros k Hk. left. now apply new_pi_pos.
  - exact new_pi_sum.
  - now apply new_mu_bounds.
  - now apply new_mu_bounds.
  - intros i Hi. now apply new_total_pos.
  - intros k Hk. destruct Hreg as (_ & _ & _ & _ & _ & Hcnt).
    destruct (Hcnt k Hk) as (i & Hi & Hs). exists i. split; [exact Hi|].
    apply new_support_pos; auto. now apply resp_pos.
Qed.

(** The gain bound of one row and one component. *)
Local Notation g := (fun i k =>
  (1 - pi k / pi' k)
  + big_sum D (fun d => 1 - em_factor x mu k i d / em_factor x mu' k i d)).

Lemma component_gain (i k : nat) :
  (i < M)%nat -> (k < K)%nat -> 0 < z i k ->
  0 < s' i k / s i k /\ g i k <= ln (s' i k / s i k).
Proof.
  intros Hi Hk Hz.
  pose proof (resp_pos_inv i k Hi Hz) as Hs.
  pose proof (new_support_pos i k Hi Hk Hz) as Hs'.
  split; [now apply Rdiv_lt_0_compat|].
  rewrite ln_quotient by assumption.
  destruct (support_pos_inv i k Hk Hs) as [Hpi Hf].
  pose proof (new_pi_pos k Hk) as Hpi'.
  assert (Hf' : forall d, (d < D)%nat -> 0 < em_factor x mu' k i d)
    by (intros d _; now apply new_factor_pos).
  unfold em_support.
  rewrite !ln_mult; try assumption; try (now apply big_prod_pos).
  pose proof (ln_big_prod_ratio D _ _ Hf Hf') as Hprod.
  assert (Hq : 0 < pi' k / pi k) by now apply Rdiv_lt_0_compat.
  pose proof (ln_lower_bound _ Hq) as Hl.
  rewrite ln_quotient in Hl by assumption.
  replace (/ (pi' k / pi k)) with (pi k / pi' k) in Hl by (field; lra).
  lra.
Qed.

Lemma row_gain (i : nat) :
  (i < M)%nat ->
  big_sum K (fun k => z i k * g i k) <= ln (S' i) - ln (S i).
Proof.
  intros Hi.
  pose proof (reg_total i Hi) as HS. pose proof (new_total_pos i Hi) as HS'.
  set (y := fun k => s' i k / s i k).
  destruct (ln_jensen K (z i) y) as [Hm Hj].
  - intros k Hk. now apply resp_nonneg.
  - now apply resp_sum.
  - intros k Hk Hz. now apply component_gain.
  - apply Rle_trans with (big_sum K (fun k => z i k * ln (y k))).
    + apply big_sum_le. intros k Hk.
      pose proof (resp_nonneg i k Hi Hk) as Hz0.
      destruct (Req_dec (z i k) 0) as [E|E]; [rewrite E; lra|].
      apply Rmult_le_compat_l; [exact Hz0|].
      apply component_gain; auto. lra.
    + eapply Rle_trans; [exact Hj|].
      rewrite <- ln_quotient by assumption.
      apply ln_monotone; [exact Hm|].
      unfold em_total at 1, Rdiv. rewrite <- big_sum_scal_r.
      apply big_sum_le. intros k Hk. subst y. cbn beta.
      pose proof (support_nonneg i k Hk) as Hs0.
      pose proof (new_support_nonneg i k Hk) as Hs0'.
      assert (Hinv : 0 < / S i) by now apply Rinv_0_lt_compat.
      unfold em_resp.
      destruct (Req_dec (s i k) 0) as [E|E].
      * rewrite E. unfold Rdiv. rewrite Rmult_0_l, Rmult_0_l. nra.
      * right. field. split; first [assumption | lra].
Qed.

Lemma mixing_gain (k : nat) :
  (k < K)%nat -> (1 - pi k / pi' k) * u k = u k - pi k * W.
Proof.
  intros Hk. pose proof (count_pos k Hk) as Hu.
  assert (HW : 0 < W) by (apply total_weight_pos; lia).
  unfold em_new_pi. field. split; lra.
Qed.

Lemma emission_gain (k d : nat) :
  (k < K)%nat -> (d < D)%nat ->
  0 <= big_sum M (fun i =>
         w i * z i k * (1 - em_factor x mu k i d / em_factor x mu' k i d)).
Proof.
  intros Hk Hd. pose proof (count_pos k Hk) as Hu.
  pose proof (numerator_bounds k d Hk) as Ha.
  destruct Hreg as (_ & _ & _ & Hmu & _). specialize (Hmu k d Hk Hd).
  pose proof (emission_update_gain (u k) (a k d) (mu k d) Hu Ha Hmu) as Hgain.
  rewrite (big_sum_ext M _
             (fun i => (w i * z i k * b2R (x i d)) * (1 - mu k d / mu' k d)
                       + (w i * z i k - w i * z i k * b2R (x i d))
                         * (1 - (1 - mu k d) / (1 - mu' k d)))).
  - rewrite big_sum_plus, !big_sum_scal_r, big_sum_minus.
    rewrite new_mu_eq. exact Hgain.
  - intros i _. unfold em_factor. destruct (x i d); simpl; lra.
Qed.

Lemma total_gain :
  0 <= big_sum M (fun i => big_sum K (fun k => z i k * g i k) * w i).
Proof.
  destruct Hreg as (_ & _ & Hsum & _).
  rewrite (big_sum_ext M _
             (fun i => big_sum K (fun k => w i * z i k * g i k))).
  2:{ intros i _. rewrite <- big_sum_scal_r. apply big_sum_ext.
      intros k _. lra. }
  rewrite (big_sum_exchange M K (fun i k => w i * z i k * g i k)).
  apply Rle_trans with (big_sum K (fun k => u k - pi k * W)).
  - rewrite big_sum_minus, big_sum_scal_r, count_sum.
    destruct (Nat.eq_dec K 0) as [E|E].
    + assert (HW0 : W = 0) by (rewrite <- count_sum, E; apply big_sum_0).
      rewrite HW0. lra.
    + assert (HW : 0 < W) by (apply total_weight_pos; lia). nra.
  - apply big_sum_le. intros k Hk. rewrite <- mixing_gain by assumption.
    set (c := 1 - pi k / pi' k).
    assert (Hc : c * u k = big_sum M (fun i => c * (w i * z i k))).
    { unfold em_count. now rewrite big_sum_scal. }
    rewrite Hc.
    rewrite (big_sum_ext M
               (fun i => w i * z i k
                         * (c + big_sum D (fun d =>
                                  1 - em_factor x mu k i d
                                      / em_factor x mu' k i d)))
               (fun i => c * (w i * z i k)
                         + big_sum D (fun d =>
                             w i * z i k
                             * (1 - em_factor x mu k i d
                                    / em_factor x mu' k i d)))).
    2:{ intros i _. rewrite big_sum_scal. lra. }
    rewrite big_sum_plus.
    assert (0 <= big_sum M (fun i => big_sum D (fun d =>
                   w i * z i k
                   * (1 - em_factor x mu k i d / em_factor x mu' k i d)))).
    { rewrite (big_sum_exchange M D
                 (fun i d => w i * z i k
                             * (1 - em_factor x mu k i d
                                    / em_factor x mu' k i d))).
      apply big_sum_nonneg. intros d Hd. now apply emission_gain. }
    lra.
Qed.

(** The step does not lower the log-likelihood. *)
Lemma em_step_monotone :
  em_log_likelihood D K M x w pi mu <= em_log_likelihood D K M x w pi' mu'.
Proof.
  unfold em_log_likelihood.
  apply Rminus_le. rewrite <- big_sum_minus.
  apply Rle_trans
    with (- big_sum M (fun i => big_sum K (fun k => z i k * g i k) * w i));
    [|pose proof total_gain; lra].
  rewrite <- (Rmult_1_l (big_sum M (fun i => big_sum K _ * w i))).
  rewrite Ropp_mult_distr_l, <- big_sum_scal.
  apply big_sum_le. intros i Hi.
  pose proof (row_gain i Hi). pose proof (reg_weight i Hi). nra.
Qed.

End EMStep.

(** ** The program and the step by indices *)

Lemma big_prod_S_l (n : nat) (f : nat -> R) :
  big_prod (S n) f = f 0%nat * big_prod n (fun d => f (S d)).
Proof.
  unfold big_prod. cbn [seq map fold_right].
  now rewrite <- seq_shift, map_map.
Qed.

Lemma bernoulli_prob_big_prod (p : list R) (row : list bool) :
  length p = length row ->
  bernoulli_prob p row
  = big_prod (length row)
             (fun d => if nth d row false then nth d p 0 else 1 - nth d p 0).
Proof.
  revert row. induction p as [|q p IH]; destruct row as [|b row]; simpl;
    try discriminate; intros H; [reflexivity|].
  rewrite big_prod_S_l. cbn [nth]. rewrite <- IH by lia. reflexivity.
Qed.

Section Extensionality.

Variables (D K M : nat).
Variable x : nat -> nat -> bool.
Variable w : nat -> R.
Variables (pi1 pi2 : nat -> R) (mu1 mu2 : nat -> nat -> R).

Hypothesis Hpi : forall k, (k < K)%nat -> pi1 k = pi2 k.
Hypothesis Hmu : forall k d, (k < K)%nat -> (d < D)%nat -> mu1 k d = mu2 k d.

Lemma em_support_ext (i k : nat) :
  (k < K)%nat -> em_support D x pi1 mu1 i k = em_support D x pi2 mu2 i k.
Proof.
  intros Hk. unfold em_support. rewrite Hpi by assumption. f_equal.
  apply big_prod_ext. intros d Hd. unfold em_factor. now rewrite Hmu.
Qed.

Lemma em_total_ext (i : nat) :
  em_total D K x pi1 mu1 i = em_total D K x pi2 mu2 i.
Proof.
  unfold em_total. apply big_sum_ext. intros k Hk. now apply em_support_ext.
Qed.

Lemma em_log_likelihood_ext :
  em_log_likelihood D K M x w pi1 mu1 = em_log_likelihood D K M x w pi2 mu2.
Proof.
  unfold em_log_likelihood. apply big_sum_ext. intros i _.
  now rewrite em_total_ext.
Qed.

Lemma em_regular_ext :
  em_regular D K M x w pi1 mu1 -> em_regular D K M x w pi2 mu2.
Proof.
  intros (Hw & Hp & Hs & Hm & Ht & Hc). unfold em_regular. repeat split.
  - exact Hw.
  - intros k Hk. rewrite <- Hpi by assumption. now apply Hp.
  - rewrite <- (big_sum_ext K pi1 pi2 Hpi). exact Hs.
  - rewrite <- Hmu by assumption. now apply Hm.
  - rewrite <- Hmu by assumption. now apply Hm.
  - intros i Hi. rewrite <- em_total_ext. now apply Ht.
  - intros k Hk. destruct (Hc k Hk) as (i & Hi & Hpos). exists i.
    split; [exact Hi|]. now rewrite <- em_support_ext.
Qed.

End Extensionality.

Section Bridge.

Variable self : BernoulliMixture.
Variable unique_dataset : matrix bool.
Variable counts : list nat.

Hypothesis Hwf : wf_matrix unique_dataset.
Hypothesis Hcounts : length counts = length (m_rows unique_dataset).
Hypothesis Hshape : shaped_for self unique_dataset.

#[local] Set Warnings "-notation-for-abbreviation".
Local Notation D := (n_cols unique_dataset).
Local Notation K := (Z.to_nat (number_of_components self)).
Local Notation M := (length (m_rows unique_dataset)).
Local Notation x := (bit unique_dataset).
Local Notation w := (data_weight counts).
Local Notation pi := (model_pi self).
Local Notation mu := (model_mu self).
Local Notation support := (_observation_emission_support self unique_dataset).
Local Notation zstar := (_posterior_probability_of_class_given_support support).

Lemma row_length (i : nat) :
  (i < M)%nat -> length (nth i (m_rows unique_dataset) []) = D.
Proof.
  intros Hi. unfold wf_matrix in Hwf. rewrite Forall_forall in Hwf.
  apply Hwf, nth_In, Hi.
Qed.

Lemma emission_row_length (k : nat) :
  (k < K)%nat ->
  length (nth k (m_rows (emission_probabilities self)) []) = D.
Proof.
  intros Hk. destruct Hshape as (_ & Hrows & Hall).
  rewrite Forall_forall in Hall. apply Hall, nth_In. now rewrite Hrows.
Qed.

Lemma support_row_entry (i k : nat) :
  (i < M)%nat -> (k < K)%nat ->
  nth k (support_row self (nth i (m_rows unique_dataset) [])) 0
  = em_support D x pi mu i k.
Proof.
  intros Hi Hk. unfold support_row. rewrite nth_map_seq by assumption.
  unfold em_support. f_equal.
  rewrite bernoulli_prob_big_prod
    by (now rewrite emission_row_length, row_length).
  now rewrite row_length.
Qed.

Lemma support_row_total (i : nat) :
  (i < M)%nat ->
  np_sum (support_row self (nth i (m_rows unique_dataset) []))
  = em_total D K x pi mu i.
Proof.
  intros Hi. unfold support_row, em_total.
  change (np_sum (map ?f (seq 0 K))) with (big_sum K f).
  apply big_sum_ext. intros k Hk. unfold em_support. f_equal.
  rewrite bernoulli_prob_big_prod
    by (now rewrite emission_row_length, row_length).
  now rewrite row_length.
Qed.

Lemma weight_nth (i : nat) : nth i (map INR counts) 0 = w i.
Proof.
  unfold data_weight. change 0 with (INR 0). apply map_nth.
Qed.

Lemma total_weight : np_sum (map INR counts) = big_sum M w.
Proof.
  rewrite np_sum_big_sum, length_map, Hcounts.
  apply big_sum_ext. intros i _. apply weight_nth.
Qed.

Lemma pass_log_likelihood_indices :
  pass_log_likelihood self unique_dataset counts
  = em_log_likelihood D K M x w pi mu.
Proof.
  unfold pass_log_likelihood, _log_likelihood_from_support, em_log_likelihood.
  rewrite support_rows. unfold np_sum_axis1. rewrite !map_map.
  rewrite np_sum_mul_vec by (now rewrite !length_map).
  rewrite length_map. apply big_sum_ext. intros i Hi.
  rewrite weight_nth. f_equal.
  rewrite (nth_map_in _ _ [] 0 i) by assumption.
  unfold np_log. f_equal. now apply support_row_total.
Qed.

Lemma zstar_rows : length (m_rows zstar) = M.
Proof.
  rewrite (posterior_rows _ (support_wf self unique_dataset)).
  now rewrite length_map, support_rows, length_map.
Qed.

Lemma zstar_cols : n_cols zstar = K.
Proof. reflexivity. Qed.

Lemma zstar_entry (i k : nat) :
  (i < M)%nat -> (k < K)%nat -> entry zstar i k = em_resp D K x pi mu i k.
Proof.
  intros Hi Hk. unfold entry.
  rewrite (posterior_rows _ (support_wf self unique_dataset)), support_rows.
  rewrite map_map. rewrite (nth_map_in _ _ [] [] i) by assumption.
  rewrite (nth_map_in _ _ 0 0 k)
    by (unfold support_row; now rewrite length_map, length_seq).
  unfold em_resp. now rewrite support_row_entry, support_row_total.
Qed.

Lemma effective_count_indices (k : nat) :
  (k < K)%nat ->
  effective_count zstar (map INR counts) k = em_count D K M x w pi mu k.
Proof.
  intros Hk. unfold effective_count, em_count. rewrite zstar_rows.
  apply big_sum_ext. intros i Hi. now rewrite weight_nth, zstar_entry.
Qed.

Lemma m_step_pi (k : nat) :
  (k < K)%nat ->
  model_pi (m_step_of self unique_dataset counts) k
  = em_new_pi D K M x w pi mu k.
Proof.
  intros Hk. unfold model_pi, m_step_of, mixing_coefficients.
  cbn [_mixing_coefficients].
  rewrite m_step_mixing by (now rewrite length_map, zstar_rows).
  rewrite zstar_cols, nth_map_seq by assumption.
  unfold em_new_pi. now rewrite effective_count_indices, total_weight.
Qed.

Lemma m_step_mu (k d : nat) :
  (k < K)%nat -> (d < D)%nat ->
  model_mu (m_step_of self unique_dataset counts) k d
  = em_new_mu D K M x w pi mu k d.
Proof.
  intros Hk Hd. unfold model_mu, m_step_of, emission_probabilities, entry.
  cbn [_emission_probabilities].
  rewrite m_step_emission_rows
    by (rewrite ?length_map, ?zstar_rows, ?zstar_cols; auto).
  rewrite nth_map_seq by assumption.
  unfold closed_form_emission, em_new_mu.
  rewrite effective_count_indices by assumption. f_equal.
  rewrite zstar_rows. apply big_sum_ext. intros i Hi.
  now rewrite weight_nth, zstar_entry.
Qed.

Lemma m_step_shaped : shaped_for (m_step_of self unique_dataset counts) unique_dataset.
Proof.
  unfold shaped_for, m_step_of, mixing_coefficients, emission_probabilities,
    number_of_components.
  cbn [_mixing_coefficients _emission_probabilities _number_of_components].
  destruct (m_step_shape zstar unique_dataset (map INR counts)) as (H1 & H2 & H3).
  rewrite H1, H2. repeat split.
  rewrite Forall_forall. intros row Hin.
  apply (In_nth _ _ []) in Hin. destruct Hin as (k & Hk & <-).
  rewrite H2 in Hk.
  rewrite m_step_emission_rows
    by (rewrite ?length_map, ?zstar_rows, ?zstar_cols; auto).
  now rewrite length_map, length_seq.
Qed.

End Bridge.

(** One pass of the loop, from a regular model: the model it leaves is
    regular again, and its log-likelihood is not smaller. *)
Lemma pass_regular_monotone (self : BernoulliMixture)
    (unique_dataset : matrix bool) (counts : list nat) :
  regular_for self unique_dataset counts ->
  regular_for (m_step_of self unique_dataset counts) unique_dataset counts
  /\ pass_log_likelihood self unique_dataset counts
     <= pass_log_likelihood (m_step_of self unique_dataset counts)
                            unique_dataset counts.
Proof.
  intros (Hwf & Hc & Hshape & Hreg).
  pose proof (m_step_shaped self unique_dataset counts Hc) as Hshape'.
  assert (HK : number_of_components (m_step_of self unique_dataset counts)
               = number_of_components self) by reflexivity.
  split.
  - split; [exact Hwf|]. split; [exact Hc|]. split; [exact Hshape'|].
    rewrite HK.
    eapply em_regular_ext; [| |exact (em_regular_step _ _ _ _ _ _ _ Hreg)].
    + intros k Hk. symmetry. now apply m_step_pi.
    + intros k d Hk Hd. symmetry. now apply m_step_mu.
  - rewrite (pass_log_likelihood_indices self) by assumption.
    rewrite (pass_log_likelihood_indices (m_step_of self unique_dataset counts))
      by assumption.
    rewrite HK.
    eapply Rle_trans; [exact (em_step_monotone _ _ _ _ _ _ _ Hreg)|].
    right. apply em_log_likelihood_ext.
    + intros k Hk. symmetry. now apply m_step_pi.
    + intros k d Hk Hd. symmetry. now apply m_step_mu.
Qed.

(** ** The trace of a fit *)

Lemma array_set_written (values : list R) (r : nat) (c : R) :
  array_set (map Some values ++ repeat None (S r)) (length values) (Some c)
  = map Some (values ++ [c]) ++ repeat None r.
Proof.
  induction values as [|v values IH]; [reflexivity|].
  cbn [map app length array_set]. f_equal. exact IH.
Qed.

Lemma non_decreasing_snoc (values : list R) (c : R) :
  non_decreasing values -> (forall v, In v values -> v <= c) ->
  non_decreasing (values ++ [c]).
Proof.
  intros Hnd Hle t a b Ha Hb.
  assert (Hlen : (S t < length (values ++ [c]))%nat)
    by (apply nth_error_Some; rewrite Hb; discriminate).
  rewrite length_app in Hlen. simpl in Hlen.
  rewrite nth_error_app1 in Ha by lia.
  destruct (Nat.lt_ge_cases (S t) (length values)) as [Hlt|Hge].
  - rewrite nth_error_app1 in Hb by lia. eapply Hnd; eauto.
  - rewrite nth_error_app2 in Hb by lia.
    replace (S t - length values)%nat with 0%nat in Hb by lia.
    simpl in Hb. inversion Hb; subst. apply Hle.
    eapply nth_error_In; eauto.
Qed.

Lemma record_trace_holds (iteration_limit : option Z) (s : fit_state)
    (values : list R) (c : R) :
  loop_test iteration_limit s = true ->
  trace_holds iteration_limit (trace s) values ->
  length values = iterations_done s ->
  trace_holds iteration_limit
              (record_trace (trace s) (iterations_done s) c) (values ++ [c]).
Proof.
  unfold trace_holds. intros Htest Hholds Hlen.
  destruct (truthy iteration_limit).
  - destruct Hholds as (n & -> & Hle & ->).
    simpl in Htest. apply Z.ltb_lt in Htest.
    exists n. split; [reflexivity|].
    rewrite length_app. simpl. split; [lia|].
    unfold record_trace. do 2 f_equal. rewrite <- Hlen.
    replace (Z.to_nat n - length values)%nat
      with (S (Z.to_nat n - (length values + 1)))%nat by lia.
    apply array_set_written.
  - rewrite Hholds. reflexivity.
Qed.

Lemma final_trace_holds (iteration_limit : option Z) (s : fit_state)
    (values : list R) :
  trace_holds iteration_limit (trace s) values ->
  length values = iterations_done s ->
  final_trace iteration_limit s = Some (map Some values).
Proof.
  unfold trace_holds, final_trace. intros Hholds Hlen.
  destruct (truthy iteration_limit); simpl.
  - destruct Hholds as (n & -> & Hle & ->). simpl.
    rewrite length_app, length_map, repeat_length, <- Hlen.
    destruct (length values <? length values + (Z.to_nat n - length values))%nat
      eqn:E.
    + rewrite firstn_app, length_map, Nat.sub_diag. simpl.
      rewrite app_nil_r. rewrite <- (length_map Some values) at 1.
      now rewrite firstn_all.
    + apply Nat.ltb_ge in E.
      replace (Z.to_nat n - length values)%nat with 0%nat by lia.
      simpl. now rewrite app_nil_r.
  - rewrite Hholds. reflexivity.
Qed.

(** The loop of a traced fit keeps its invariant, whichever way it ends. *)
Lemma fit_loop_invariant (fuel : nat) (unique_dataset : matrix bool)
    (counts : list nat) (iteration_limit : option Z) (threshold : R)
    (s sf : fit_state) (values : list R) :
  loop_invariant unique_dataset counts iteration_limit s values ->
  fit_loop fuel unique_dataset counts iteration_limit threshold s = Some sf ->
  exists values',
    loop_invariant unique_dataset counts iteration_limit sf values'.
Proof.
  revert s values. induction fuel as [|fuel IH]; intros s values Hinv Hloop;
    simpl in Hloop.
  - destruct (loop_test iteration_limit s); [discriminate|].
    inversion Hloop; subst. eauto.
  - destruct (loop_test iteration_limit s) eqn:Htest;
      [|inversion Hloop; subst; eauto].
    destruct Hinv as (Hreg & Hholds & Hlen & Hnd & Hle & Hcur).
    destruct (convergence_test (previous_log_likelihood s)
                (pass_log_likelihood (fit_self s) unique_dataset counts)
                threshold) eqn:Ec.
    + rewrite (fit_iteration_break _ _ _ _ Ec) in Hloop.
      inversion Hloop; subst. exists values.
      unfold loop_invariant. cbn.
      split; [exact Hreg|]. split; [exact Hholds|]. split; [exact Hlen|].
      split; [exact Hnd|]. split; [exact Hle|].
      intros c Hc v Hv. inversion Hc; subst. now apply Hle.
    + rewrite (fit_iteration_continue _ _ _ _ Ec) in Hloop.
      apply (IH _ (values ++ [pass_log_likelihood (fit_self s) unique_dataset counts]))
        in Hloop; [exact Hloop|].
      destruct (pass_regular_monotone _ _ _ Hreg) as [Hreg' Hmono].
      unfold loop_invariant. cbn. split; [exact Hreg'|].
      split; [now apply record_trace_holds|].
      split; [rewrite length_app; simpl; lia|].
      split; [now apply non_decreasing_snoc|].
      assert (Hall : forall v,
                 In v (values ++ [pass_log_likelihood (fit_self s) unique_dataset counts]) ->
                 v <= pass_log_likelihood (fit_self s) unique_dataset counts).
      { intros v Hv. apply in_app_or in Hv. destruct Hv as [Hv|[<-|[]]].
        - now apply Hle.
        - lra. }
      split.
      * intros v Hv. specialize (Hall v Hv).
        eapply Rle_trans; [exact Hall|exact Hmono].
      * intros c Hc v Hv. inversion Hc; subst. now apply Hall.
Qed.

(** ** Monotonicity of the log-likelihood within a fit *)

Lemma shaped_for_aggregate (self : BernoulliMixture) (dataset : matrix bool) :
  shaped_for self dataset ->
  shaped_for self (fst (aggregated dataset)).
Proof. unfold shaped_for. now rewrite aggregate_n_cols. Qed.

Lemma aggregate_wf (dataset : matrix bool) :
  wf_matrix dataset -> wf_matrix (fst (aggregated dataset)).
Proof.
  unfold wf_matrix. rewrite aggregate_n_cols, !Forall_forall.
  intros H r Hin. apply H. now apply aggregate_rows_iff.
Qed.

(** The hypotheses on the model and the dataset make the model regular for
    the aggregated dataset. *)
Lemma non_degenerate_regular (self : BernoulliMixture) (dataset : matrix bool) :
  non_degenerate self dataset ->
  regular_for self (fst (aggregated dataset))
              (snd (aggregated dataset)).
Proof.
  intros (Hwf & Hshape & Hpi & Hsum & Hmu & Hrows & Hcomp).
  pose proof (aggregate_wf dataset Hwf) as Hwf'.
  pose proof (aggregate_lengths dataset) as Hlen.
  pose proof (shaped_for_aggregate self dataset Hshape) as Hshape'.
  split; [exact Hwf'|]. split; [exact Hlen|]. split; [exact Hshape'|].
  destruct Hshape as (HK & HKe & Hrowlen).
  unfold em_regular. repeat split.
  - intros i Hi. unfold data_weight. rewrite <- Hlen in Hi.
    pose proof (aggregate_counts_positive dataset) as Hpos.
    rewrite Forall_forall in Hpos.
    specialize (Hpos _ (nth_In _ 0%nat Hi)).
    apply lt_0_INR. lia.
  - intros k Hk. unfold model_pi. rewrite Forall_forall in Hpi.
    apply Hpi, nth_In. now rewrite HK.
  - rewrite <- HK. unfold model_pi.
    rewrite <- np_sum_big_sum. exact Hsum.
  - rewrite aggregate_n_cols in H0. unfold model_mu, entry.
    rewrite Forall_forall in Hmu.
    assert (Hin : In (nth k (m_rows (emission_probabilities self)) [])
                     (m_rows (emission_probabilities self)))
      by (apply nth_In; now rewrite HKe).
    specialize (Hmu _ Hin). rewrite Forall_forall in Hmu.
    apply Hmu, nth_In. rewrite Forall_forall in Hrowlen.
    now rewrite (Hrowlen _ Hin).
  - rewrite aggregate_n_cols in H0. unfold model_mu, entry.
    rewrite Forall_forall in Hmu.
    assert (Hin : In (nth k (m_rows (emission_probabilities self)) [])
                     (m_rows (emission_probabilities self)))
      by (apply nth_In; now rewrite HKe).
    specialize (Hmu _ Hin). rewrite Forall_forall in Hmu.
    apply Hmu, nth_In. rewrite Forall_forall in Hrowlen.
    now rewrite (Hrowlen _ Hin).
  - intros i Hi.
    rewrite <- (support_row_total self _ Hwf' Hshape' i Hi).
    rewrite Forall_forall in Hrows. apply Hrows.
    apply aggregate_rows_iff. now apply nth_In.
  - intros k Hk. destruct (Hcomp k Hk) as (row & Hin & Hpos).
    apply aggregate_rows_iff in Hin.
    apply (In_nth _ _ []) in Hin. destruct Hin as (i & Hi & <-).
    exists i. split; [exact Hi|].
    now rewrite <- (support_row_entry self _ Hwf' Hshape' i k Hi Hk).
Qed.

Lemma initial_trace_holds (iteration_limit : option Z) (t : option trace_store) :
  initial_trace iteration_limit true = inr t ->
  trace_holds iteration_limit t [].
Proof.
  unfold initial_trace, trace_holds, ret, raise.
  destruct (truthy iteration_limit) eqn:Et.
  - destruct iteration_limit as [n|]; [|discriminate].
    destruct (n <? 0)%Z; [discriminate|]. intros H. inversion H; subst.
    exists n. simpl. rewrite Nat.sub_0_r. repeat split. lia.
  - intros H. now inversion H.
Qed.

(** C6, amended: a traced fit that starts from a model whose mixing
    coefficients sum to at most one, on a dataset every row of which has
    positive total support and on which every component has positive support
    on some row, records a trace in which no log-likelihood is followed by a
    smaller one, and returns a log-likelihood that is not below any entry of
    the trace. *)
Theorem C6_log_likelihood_non_decreasing
    (fuel : nat) (self self' : BernoulliMixture) (dataset : matrix bool)
    (iteration_limit : option Z) (threshold : R)
    (ll : option R) (status : ConvergenceStatus) :
  non_degenerate self dataset ->
  fit fuel self dataset iteration_limit threshold true
  = Some (self', inr (ll, status)) ->
  exists values,
    likelihood_trace status = Some (map Some values)
    /\ length values = number_of_iterations status
    /\ non_decreasing values
    /\ (forall c, ll = Some c -> forall v, In v values -> v <= c).
Proof.
  intros Hnd Hfit. apply non_degenerate_regular in Hnd.
  unfold fit in Hfit.
  destruct (check_dimensions self dataset) as [e|[]]; [discriminate|].
  destruct (_aggregate_dataset dataset) as [e|p] eqn:Hagg; [discriminate|].
  destruct (aggregate_inr_inv _ _ Hagg) as [_ ->].
  destruct (aggregated dataset) as [unique_dataset counts].
  cbn [fst snd] in Hnd.
  destruct (initial_trace iteration_limit true) as [e|t] eqn:Ht; [discriminate|].
  apply initial_trace_holds in Ht.
  destruct (fit_loop _ _ _ _ _ _) as [sf|] eqn:Hloop; [|discriminate].
  inversion Hfit; subst. clear Hfit.
  apply (fit_loop_invariant _ _ _ _ _ _ _ []) in Hloop.
  - destruct Hloop as (values & _ & Hholds & Hlen & Hmono & _ & Hcur).
    exists values. cbn [likelihood_trace number_of_iterations].
    split; [now apply final_trace_holds|]. split; [exact Hlen|].
    split; [exact Hmono|exact Hcur].
  - unfold loop_invariant. cbn.
    split; [exact Hnd|]. split; [exact Ht|]. split; [reflexivity|].
    split; [|split; [intros v []|intros c Hc; discriminate]].
    intros t0 a b Ha. destruct t0; discriminate.
Qed.

(** With a finite iteration limit, [fit] returns once it has as many passes
    at its disposal as the limit allows. *)
Lemma fit_returns (fuel : nat) (self : BernoulliMixture) (dataset : matrix bool)
    (n : Z) (threshold : R) (trace_likelihood : bool) :
  (0 < n_cols dataset)%nat ->
  Z.of_nat (n_cols dataset) = number_of_dimensions self ->
  (0 <= n <= Z.of_nat fuel)%Z ->
  exists self' ll status,
    fit fuel self dataset (Some n) threshold trace_likelihood
    = Some (self', inr (ll, status)).
Proof.
  intros Hpos Hdim Hn. unfold fit. rewrite (check_dimensions_ok _ _ Hdim).
  rewrite (aggregate_returns _ Hpos).
  destruct (aggregated dataset) as [unique_dataset counts].
  assert (Ht : exists t, initial_trace (Some n) trace_likelihood = inr t).
  { unfold initial_trace, ret. destruct trace_likelihood; [|eauto].
    destruct (truthy (Some n)); [|eauto].
    destruct (n <? 0)%Z eqn:E; [apply Z.ltb_lt in E; lia|eauto]. }
  destruct Ht as (t & ->).
  match goal with
  | |- context [fit_loop fuel ?u ?c ?l ?th ?s0] =>
      destruct (fit_loop_terminates fuel u c n th s0) as (sf & ->)
  end; [cbn; lia|].
  eauto.
Qed.

Lemma model_2_2_non_degenerate : non_degenerate model_2_2 dataset_3_2.
Proof.
  unfold non_degenerate, model_2_2, dataset_3_2, shaped_for, wf_matrix.
  cbn [m_rows n_cols mixing_coefficients emission_probabilities
       number_of_components _mixing_coefficients _emission_probabilities
       _number_of_components length].
  repeat split.
  - repeat constructor.
  - repeat constructor.
  - repeat constructor; lra.
  - unfold np_sum; simpl; lra.
  - repeat constructor; lra.
  - repeat constructor; unfold_steps; simpl; lra.
  - intros k Hk. exists [true; false]. split; [now left|].
    destruct k as [|[|k]]; [| |simpl in Hk; lia]; unfold_steps; simpl; lra.
Qed.

Lemma C6_witness :
  non_degenerate model_2_2 dataset_3_2
  /\ exists self' ll status values,
       fit 3 model_2_2 dataset_3_2 (Some 3%Z) default_convergence_threshold true
       = Some (self', inr (ll, status))
       /\ likelihood_trace status = Some (map Some values)
       /\ length values = number_of_iterations status
       /\ non_decreasing values
       /\ (forall c, ll = Some c -> forall v, In v values -> v <= c).
Proof.
  split; [exact model_2_2_non_degenerate|].
  destruct (fit_returns 3 model_2_2 dataset_3_2 3 default_convergence_threshold
              true (Nat.lt_0_succ 1) eq_refl)
    as (self' & ll & status & Hfit); [lia|].
  exists self', ll, status.
  destruct (C6_log_likelihood_non_decreasing _ _ _ _ _ _ _ _
              model_2_2_non_degenerate Hfit) as (values & H).
  exists values. split; [exact Hfit|exact H].
Defined.

(** ** The loop of [fit], pass by pass *)

Section FitRun.

Variable self : BernoulliMixture.
Variable unique_dataset : matrix bool.
Variable counts : list nat.
Variable iteration_limit : option Z.
Variable threshold : R.
Variable likelihood_trace0 : option trace_store.

#[local] Set Warnings "-notation-for-abbreviation".
Local Notation after := (state_after self unique_dataset counts likelihood_trace0).
Local Notation at_break :=
  (state_at_break self unique_dataset counts likelihood_trace0).
Local Notation value := (pass_value self unique_dataset counts).
Local Notation converges :=
  (pass_converges self unique_dataset counts threshold).

Lemma pass_from_state_after (t : nat) :
  fit_iteration unique_dataset counts threshold (after t)
  = if converges t then (true, at_break t) else (false, after (S t)).
Proof.
  destruct (converges t) eqn:E.
  - rewrite fit_iteration_break; [reflexivity|exact E].
  - rewrite fit_iteration_continue; [reflexivity|exact E].
Qed.

Lemma fit_loop_run (fuel : nat) : forall (t : nat) (sf : fit_state),
  fit_loop fuel unique_dataset counts iteration_limit threshold (after t)
  = Some sf ->
  exists T, (t <= T)%nat
    /\ (forall u, (t <= u < T)%nat ->
          within_limit iteration_limit u = true /\ converges u = false)
    /\ ((within_limit iteration_limit T = true /\ converges T = true
         /\ sf = at_break T)
        \/ (within_limit iteration_limit T = false /\ sf = after T)).
Proof.
  induction fuel as [|fuel IH]; intros t sf H.
  - cbn [fit_loop] in H.
    change (loop_test iteration_limit (after t))
      with (within_limit iteration_limit t) in H.
    destruct (within_limit iteration_limit t) eqn:E; [discriminate|].
    inversion H; subst sf. exists t. split; [lia|]. split; [intros; lia|].
    right. split; [exact E|reflexivity].
  - cbn [fit_loop] in H.
    change (loop_test iteration_limit (after t))
      with (within_limit iteration_limit t) in H.
    destruct (within_limit iteration_limit t) eqn:E.
    + rewrite pass_from_state_after in H.
      destruct (converges t) eqn:Ec.
      * inversion H; subst sf. exists t. split; [lia|].
        split; [intros; lia|]. left. auto.
      * destruct (IH _ _ H) as (T & Hle & Hbefore & Hend).
        exists T. split; [lia|]. split; [|exact Hend].
        intros u Hu. destruct (Nat.eq_dec u t) as [->|Hne]; [auto|].
        apply Hbefore. lia.
    + inversion H; subst sf. exists t. split; [lia|]. split; [intros; lia|].
      right. split; [exact E|reflexivity].
Qed.

Lemma fit_loop_reaches (T : nat) :
  (forall u, (u <= T)%nat -> within_limit iteration_limit u = true) ->
  converges T = true ->
  forall (fuel t : nat), (t <= T)%nat -> (T < t + fuel)%nat ->
  exists sf,
    fit_loop fuel unique_dataset counts iteration_limit threshold (after t)
    = Some sf.
Proof.
  intros Hlim HT. induction fuel as [|fuel IH]; intros t Ht Hfuel; [lia|].
  cbn [fit_loop].
  change (loop_test iteration_limit (after t))
    with (within_limit iteration_limit t).
  rewrite (Hlim t Ht), pass_from_state_after.
  destruct (converges t) eqn:Ec; [eauto|].
  apply IH; [|lia].
  destruct (Nat.eq_dec t T) as [->|Hne]; [congruence|lia].
Qed.

Lemma trace_after_none (t : nat) :
  likelihood_trace0 = None ->
  trace_after self unique_dataset counts likelihood_trace0 t = None.
Proof.
  intros ->. induction t as [|t IH]; [reflexivity|].
  cbn [trace_after]. now rewrite IH.
Qed.

Lemma trace_after_holds (T : nat) :
  trace_holds iteration_limit likelihood_trace0 [] ->
  (forall u, (u < T)%nat -> within_limit iteration_limit u = true) ->
  trace_holds iteration_limit
    (trace_after self unique_dataset counts likelihood_trace0 T)
    (map value (seq 0 T)).
Proof.
  intros H0. induction T as [|T IH]; intros Hlim; [exact H0|].
  rewrite seq_S, map_app. cbn [map trace_after Nat.add].
  apply (record_trace_holds iteration_limit (after T)
           (map value (seq 0 T)) (value T)).
  - apply (Hlim T). lia.
  - apply IH. intros u Hu. apply Hlim. lia.
  - now rewrite length_map, length_seq.
Qed.

End FitRun.

(** How a call of [fit] that returns went: the store allocated for the trace,
    the number [T] of passes that were completed, and the state in which the
    loop was left. *)
Lemma fit_run (fuel : nat) (self self' : BernoulliMixture)
    (dataset : matrix bool) (iteration_limit : option Z) (threshold : R)
    (trace_likelihood : bool) (ll : option R) (status : ConvergenceStatus) :
  fit fuel self dataset iteration_limit threshold trace_likelihood
  = Some (self', inr (ll, status)) ->
  let U := fst (aggregated dataset) in
  let C := snd (aggregated dataset) in
  exists tr0 T sf,
    initial_trace iteration_limit trace_likelihood = inr tr0
    /\ (forall u, (u < T)%nat ->
          within_limit iteration_limit u = true
          /\ pass_converges self U C threshold u = false)
    /\ ((within_limit iteration_limit T = true
         /\ pass_converges self U C threshold T = true
         /\ sf = state_at_break self U C tr0 T)
        \/ (within_limit iteration_limit T = false
            /\ sf = state_after self U C tr0 T))
    /\ self' = em_iterate T self U C
    /\ ll = current_log_likelihood sf
    /\ converged status = fit_converged sf
    /\ number_of_iterations status = T
    /\ likelihood_trace status = final_trace iteration_limit sf.
Proof.
  intros H U C. unfold fit in H.
  destruct (check_dimensions self dataset) as [e|[]]; [discriminate|].
  destruct (_aggregate_dataset dataset) as [e|[U' C']] eqn:Ea; [discriminate|].
  apply aggregate_inr_inv in Ea. destruct Ea as [_ Ea].
  assert (HU : U' = U) by (subst U; now rewrite <- Ea).
  assert (HC : C' = C) by (subst C; now rewrite <- Ea).
  subst U' C'.
  destruct (initial_trace iteration_limit trace_likelihood) as [e|tr0] eqn:Et;
    [discriminate|].
  destruct (fit_loop fuel U C iteration_limit threshold _) as [sf|] eqn:El;
    [|discriminate].
  inversion H; subst self' ll status; clear H.
  change {| fit_self := self; previous_log_likelihood := None;
            current_log_likelihood := None; iterations_done := 0;
            trace := tr0; fit_converged := false |}
    with (state_after self U C tr0 0) in El.
  apply fit_loop_run in El. destruct El as (T & _ & Hbefore & Hend).
  exists tr0, T, sf. split; [reflexivity|].
  split; [intros u Hu; apply Hbefore; lia|]. split; [exact Hend|].
  cbn [converged number_of_iterations likelihood_trace].
  destruct Hend as [(_ & _ & ->)|(_ & ->)]; repeat split; reflexivity.
Qed.

Lemma em_iterate_dimensions (t : nat) (self : BernoulliMixture)
    (unique_dataset : matrix bool) (counts : list nat) :
  number_of_components (em_iterate t self unique_dataset counts)
  = number_of_components self
  /\ number_of_dimensions (em_iterate t self unique_dataset counts)
     = number_of_dimensions self.
Proof.
  induction t as [|t IH]; [split; reflexivity|]. exact IH.
Qed.

Lemma within_limit_below (iteration_limit : option Z) (T u : nat) :
  within_limit iteration_limit T = true -> (u <= T)%nat ->
  within_limit iteration_limit u = true.
Proof.
  destruct iteration_limit as [n|]; [|reflexivity]. cbn.
  rewrite !Z.ltb_lt. lia.
Qed.

Lemma pass_converges_iff (self : BernoulliMixture) (U : matrix bool)
    (C : list nat) (threshold : R) (t : nat) :
  pass_converges self U C threshold t = true
  <-> (1 <= t)%nat
      /\ Rabs (pass_value self U C t - pass_value self U C (t - 1)) <= threshold.
Proof.
  unfold pass_converges. rewrite convergence_test_true. split.
  - intros (p & Hp & Hle). destruct t as [|t]; [discriminate|].
    cbn [last_value] in Hp. inversion Hp; subst p.
    replace (S t - 1)%nat with t by lia. split; [lia|exact Hle].
  - intros [Ht Hle]. destruct t as [|t]; [lia|].
    replace (S t - 1)%nat with t in Hle by lia.
    exists (pass_value self U C t). split; [reflexivity|exact Hle].
Qed.


(** ** Convergence detection *)

(** C1: a pass of the loop declares convergence exactly when a previous
    log-likelihood exists and the absolute difference between the current and
    the previous one is at most the threshold; the pass then leaves the loop
    with the parameters untouched.  When [fit] returns with
    [converged = True], the log-likelihood it returns is the one of the
    parameters it leaves in the model, and lies within the threshold of the
    previous one; when it returns with [converged = False], the iteration
    limit stopped the loop.  For the run as a whole, with [T] the number of
    iterations that [fit] reports: the model it leaves is the one it was
    called on after [T] updates; every pass before pass [T] was within the
    iteration limit and did not meet the test (it had no previous
    log-likelihood, or the difference exceeded the threshold), so it applied
    its update; and [fit] reports convergence exactly when pass [T] was
    within the iteration limit, had a previous log-likelihood and found the
    absolute difference at most the threshold -- it then returns the
    log-likelihood of pass [T], computed from the parameters it leaves. *)
Theorem C1_convergence_detection
    (fuel : nat) (self self' : BernoulliMixture) (dataset : matrix bool)
    (iteration_limit : option Z) (threshold : R) (trace_likelihood : bool)
    (ll : option R) (status : ConvergenceStatus) :
  fit fuel self dataset iteration_limit threshold trace_likelihood
  = Some (self', inr (ll, status)) ->
  let unique_dataset := fst (aggregated dataset) in
  let counts := snd (aggregated dataset) in
  let T := number_of_iterations status in
  (forall s : fit_state,
      let current := pass_log_likelihood (fit_self s) unique_dataset counts in
      let pass := fit_iteration unique_dataset counts threshold s in
      (fst pass = true
       <-> exists previous, previous_log_likelihood s = Some previous
                            /\ Rabs (current - previous) <= threshold)
      /\ (fst pass = true ->
          fit_converged (snd pass) = true
          /\ fit_self (snd pass) = fit_self s
          /\ current_log_likelihood (snd pass) = Some current
          /\ iterations_done (snd pass) = iterations_done s))
  /\ (converged status = true ->
      exists current previous,
        ll = Some current
        /\ current = pass_log_likelihood self' unique_dataset counts
        /\ log_likelihood self' dataset = inr current
        /\ Rabs (current - previous) <= threshold)
  /\ (converged status = false ->
      exists n, iteration_limit = Some n
                /\ (n <= Z.of_nat (number_of_iterations status))%Z)
  /\ self' = em_iterate T self unique_dataset counts
  /\ (forall t, (t < T)%nat ->
        within_limit iteration_limit t = true
        /\ ~ (exists previous,
                last_value self unique_dataset counts t = Some previous
                /\ Rabs (pass_value self unique_dataset counts t - previous)
                   <= threshold))
  /\ (converged status = true
      <-> within_limit iteration_limit T = true
          /\ exists previous,
               last_value self unique_dataset counts T = Some previous
               /\ Rabs (pass_value self unique_dataset counts T - previous)
                  <= threshold)
  /\ (converged status = true ->
      ll = Some (pass_value self unique_dataset counts T)
      /\ pass_value self unique_dataset counts T
         = pass_log_likelihood self' unique_dataset counts).
Proof.
  intros Hfit unique_dataset counts T.
  assert (Hrun :
    self' = em_iterate T self unique_dataset counts
    /\ (forall t, (t < T)%nat ->
          within_limit iteration_limit t = true
          /\ ~ (exists previous,
                  last_value self unique_dataset counts t = Some previous
                  /\ Rabs (pass_value self unique_dataset counts t - previous)
                     <= threshold))
    /\ (converged status = true
        <-> within_limit iteration_limit T = true
            /\ exists previous,
                 last_value self unique_dataset counts T = Some previous
                 /\ Rabs (pass_value self unique_dataset counts T - previous)
                    <= threshold)
    /\ (converged status = true ->
        ll = Some (pass_value self unique_dataset counts T)
        /\ pass_value self unique_dataset counts T
           = pass_log_likelihood self' unique_dataset counts)).
  { destruct (fit_run _ _ _ _ _ _ _ _ _ Hfit)
      as (tr0 & T' & sf & _ & Hbefore & Hend & Hself & Hll & Hc & HT & _).
    fold unique_dataset counts in Hbefore, Hend, Hself.
    subst T. rewrite HT, Hc. split; [exact Hself|]. split; [|split].
    - intros t Ht. destruct (Hbefore t Ht) as [Hlim Hno].
      split; [exact Hlim|]. intros Hyes.
      apply convergence_test_true in Hyes.
      unfold pass_converges in Hno. congruence.
    - split.
      + intros Hconv.
        destruct Hend as [(Hlim & Hyes & _)|(_ & ->)]; [|discriminate].
        split; [exact Hlim|]. now apply convergence_test_true.
      + intros [Hlim Hyes].
        destruct Hend as [(_ & _ & ->)|(Hno & _)]; [reflexivity|congruence].
    - intros Hconv.
      destruct Hend as [(_ & _ & ->)|(_ & ->)]; [|discriminate].
      rewrite Hll, Hself. split; reflexivity. }
  assert (Hpass : forall s : fit_state,
      let current := pass_log_likelihood (fit_self s) unique_dataset counts in
      let pass := fit_iteration unique_dataset counts threshold s in
      (fst pass = true
       <-> exists previous, previous_log_likelihood s = Some previous
                            /\ Rabs (current - previous) <= threshold)
      /\ (fst pass = true ->
          fit_converged (snd pass) = true
          /\ fit_self (snd pass) = fit_self s
          /\ current_log_likelihood (snd pass) = Some current
          /\ iterations_done (snd pass) = iterations_done s)).
  { intros s current pass. split; [apply fit_iteration_breaks_iff|].
    intros Hb. subst pass.
    apply fit_iteration_breaks_iff, convergence_test_true in Hb.
    rewrite (fit_iteration_break _ _ _ _ Hb). cbn. auto. }
  split; [exact Hpass|]. clear Hpass.
  refine ((fun Hold => conj (proj1 Hold) (conj (proj2 Hold) Hrun)) _).
  clear Hrun. subst T.
  unfold fit in Hfit.
  destruct (check_dimensions self dataset) as [e|[]] eqn:Hdim; [discriminate|].
  subst unique_dataset counts.
  destruct (_aggregate_dataset dataset) as [e|p] eqn:Hagg0; [discriminate|].
  destruct (aggregate_inr_inv _ _ Hagg0) as [Hpos ->].
  destruct (aggregated dataset) as [unique_dataset counts] eqn:Hagg.
  cbn [fst snd].
  destruct (initial_trace iteration_limit trace_likelihood) as [e|tr];
    [discriminate|].
  destruct (fit_loop _ _ _ _ _ _) as [sf|] eqn:Hloop; [|discriminate].
  inversion Hfit; subst. clear Hfit. cbn [converged number_of_iterations].
  apply fit_loop_end in Hloop; [|reflexivity]. cbn [fit_self] in Hloop.
  destruct Hloop as (Hd & Hconv & Hnot). split.
  - intros Hc. destruct (Hconv Hc) as (p & Hp & Hcur & Hclose).
    exists (pass_log_likelihood (fit_self sf) unique_dataset counts), p.
    repeat split; auto.
    assert (Hcols : Z.of_nat (n_cols dataset) = number_of_dimensions (fit_self sf)).
    { rewrite Hd. unfold check_dimensions, shape in Hdim. cbn [snd] in Hdim.
      destruct (Z.of_nat (n_cols dataset) =? number_of_dimensions self)%Z eqn:E;
        [|discriminate].
      now apply Z.eqb_eq. }
    rewrite (log_likelihood_returns _ _ Hpos Hcols), Hagg. reflexivity.
  - intros Hc. specialize (Hnot Hc). unfold loop_test in Hnot.
    destruct iteration_limit as [n|]; [|discriminate].
    exists n. split; auto. apply Z.ltb_ge in Hnot. exact Hnot.
Qed.

Lemma C1_witness :
  exists self' ll status,
    fit 2 unit_model unit_dataset default_iteration_limit
        default_convergence_threshold false
    = Some (self', inr (ll, status))
    /\ converged status = true
    /\ (exists current previous,
          ll = Some current
          /\ log_likelihood self' unit_dataset = inr current
          /\ Rabs (current - previous) <= default_convergence_threshold)
    /\ self' = em_iterate (number_of_iterations status) unit_model
                 (fst (aggregated unit_dataset)) (snd (aggregated unit_dataset))
    /\ exists previous,
         last_value unit_model (fst (aggregated unit_dataset))
           (snd (aggregated unit_dataset)) (number_of_iterations status)
         = Some previous
         /\ Rabs (pass_value unit_model (fst (aggregated unit_dataset))
                    (snd (aggregated unit_dataset))
                    (number_of_iterations status) - previous)
            <= default_convergence_threshold.
Proof.
  destruct unit_model_converges as (self' & ll & status & Hfit & Hconv & _).
  exists self', ll, status. split; [exact Hfit|]. split; [exact Hconv|].
  destruct (C1_convergence_detection _ _ _ _ _ _ _ _ _ Hfit)
    as (_ & Hc & _ & Hself & _ & Hiff & _).
  destruct (Hc Hconv) as (current & previous & Hll & _ & Hlog & Hclose).
  split; [exists current, previous; auto|]. split; [exact Hself|].
  exact (proj2 (proj1 Hiff Hconv)).
Defined.

(** * Further properties of the module *)

(** ** Construction *)

(** X1: Construction succeeds exactly on parameters that satisfy the five checks,
    and the object then holds the arguments as they were given. *)
Theorem init_accepts_iff (K D : Z) (mixing : list R) (emission : matrix R)
    (self : BernoulliMixture) :
  __init__ K D mixing emission = inr self
  <-> (shape1 mixing = K
       /\ Rabs (np_sum mixing - 1) <= sum_tolerance
       /\ Forall (fun p => 0 <= p <= 1) mixing
       /\ shape emission = (K, D)
       /\ Forall (Forall (fun p => 0 <= p <= 1)) (m_rows emission))
      /\ self = {| _number_of_components := K; _number_of_dimensions := D;
                   _mixing_coefficients := mixing;
                   _emission_probabilities := emission |}.
Proof.
  split.
  - intros H. apply init_returns_validated in H. destruct H as [Hv ->].
    apply validate_ok_inv in Hv. split; [exact Hv|reflexivity].
  - intros [(H1 & H2 & H3 & H4 & H5) ->]. now apply init_accepts_valid.
Qed.

Lemma init_accepts_iff_witness :
  __init__ 2 2 [0.5; 0.5] (Mat 2 [[0.2; 0.7]; [0.6; 0.3]]) = inr model_2_2.
Proof.
  apply (init_accepts_iff 2 2 [0.5; 0.5] (Mat 2 [[0.2; 0.7]; [0.6; 0.3]])).
  split; [|reflexivity]. repeat split.
  - unfold sum_tolerance, default_atol, default_rtol, np_sum. simpl.
    rewrite Rabs_R1. rewrite Rabs_right; lra.
  - repeat constructor; lra.
  - repeat constructor; lra.
Defined.

(** X2: The exception that construction raises names the first check that fails,
    in the order: shape of the mixing coefficients, their sum, their bounds,
    shape of the emission probabilities, their bounds. *)
Theorem init_first_failure (K D : Z) (mixing : list R) (emission : matrix R) :
  (shape1 mixing <> K ->
   __init__ K D mixing emission = inl (WrongShapeMixing K (shape1 mixing)))
  /\ (shape1 mixing = K -> Rabs (np_sum mixing - 1) > sum_tolerance ->
      __init__ K D mixing emission = inl (MixingNotSumToOne (np_sum mixing)))
  /\ (shape1 mixing = K -> Rabs (np_sum mixing - 1) <= sum_tolerance ->
      ~ Forall (fun p => 0 <= p <= 1) mixing ->
      __init__ K D mixing emission = inl MixingNotBounded)
  /\ (shape1 mixing = K -> Rabs (np_sum mixing - 1) <= sum_tolerance ->
      Forall (fun p => 0 <= p <= 1) mixing ->
      shape emission <> (K, D) ->
      __init__ K D mixing emission
      = inl (WrongShapeEmission (K, D) (shape emission)))
  /\ (shape1 mixing = K -> Rabs (np_sum mixing - 1) <= sum_tolerance ->
      Forall (fun p => 0 <= p <= 1) mixing ->
      shape emission = (K, D) ->
      ~ Forall (Forall (fun p => 0 <= p <= 1)) (m_rows emission) ->
      __init__ K D mixing emission = inl EmissionNotBounded).
Proof.
  unfold __init__, _validate, bind, ret, raise, number_of_components,
    number_of_dimensions, mixing_coefficients, emission_probabilities.
  cbn [_number_of_components _number_of_dimensions _mixing_coefficients
       _emission_probabilities].
  assert (Hclose : forall b, np_isclose (np_sum mixing) 1 default_rtol default_atol = b ->
            if b then Rabs (np_sum mixing - 1) <= sum_tolerance
            else Rabs (np_sum mixing - 1) > sum_tolerance).
  { intros [|] Hb; [now apply np_isclose_true in Hb|].
    unfold np_isclose in Hb. apply Rleb_false in Hb. exact Hb. }
  assert (Hbnd : forall v b, _bounded_between_zero_and_one v = b ->
            if b then Forall (fun p => 0 <= p <= 1) v
            else ~ Forall (fun p => 0 <= p <= 1) v).
  { intros v [|] Hb; [now apply bounded_true|].
    intros Hall. apply bounded_true in Hall. congruence. }
  assert (Hshape : forall b, Zpair_eqb (shape emission) (K, D) = b ->
            if b then shape emission = (K, D) else shape emission <> (K, D)).
  { intros b Hb. unfold Zpair_eqb in Hb. cbn [fst snd] in Hb.
    destruct (shape emission) as [r c]. cbn [fst snd] in Hb.
    destruct b.
    - apply andb_true_iff in Hb. destruct Hb as [H1 H2].
      apply Z.eqb_eq in H1. apply Z.eqb_eq in H2. congruence.
    - apply andb_false_iff in Hb. intros E. inversion E; subst.
      destruct Hb as [Hb|Hb]; apply Z.eqb_neq in Hb; congruence. }
  assert (Hconcat : forall ll : list (list R),
            Forall (fun p => 0 <= p <= 1) (concat ll)
            -> Forall (Forall (fun p => 0 <= p <= 1)) ll).
  { intros ll. induction ll as [|r ll IH]; simpl; intros H; [constructor|].
    apply Forall_app in H. destruct H. constructor; auto. }
  specialize (Hclose _ eq_refl). specialize (Hshape _ eq_refl).
  pose proof (Hbnd mixing _ eq_refl) as Hb1.
  pose proof (Hbnd (concat (m_rows emission)) _ eq_refl) as Hb2.
  destruct (shape1 mixing =? K)%Z eqn:E1; cbn [negb].
  2:{ apply Z.eqb_neq in E1. repeat split; intros; try contradiction; reflexivity. }
  apply Z.eqb_eq in E1.
  destruct (np_isclose (np_sum mixing) 1 default_rtol default_atol); cbn [negb].
  2:{ repeat split; intros; try contradiction; try reflexivity; lra. }
  destruct (_bounded_between_zero_and_one mixing); cbn [negb].
  2:{ repeat split; intros; try contradiction; try reflexivity; lra. }
  destruct (Zpair_eqb (shape emission) (K, D)); cbn [negb].
  2:{ repeat split; intros; try contradiction; try reflexivity; lra. }
  destruct (_bounded_between_zero_and_one (concat (m_rows emission))); cbn [negb].
  - repeat split; intros; try contradiction; try lra.
    exfalso. auto.
  - repeat split; intros; try contradiction; try reflexivity; lra.
Qed.

(** X3: A model that was constructed has at least one component, no negative
    number of dimensions, and no negative number of free parameters. *)
Theorem constructed_model_has_components (K D : Z) (mixing : list R)
    (emission : matrix R) (self : BernoulliMixture) :
  __init__ K D mixing emission = inr self ->
  (1 <= number_of_components self)%Z
  /\ (0 <= number_of_dimensions self)%Z
  /\ (0 <= number_of_free_parameters self)%Z.
Proof.
  intros H. apply init_returns_validated in H. destruct H as [Hv ->].
  apply validate_ok_inv in Hv. destruct Hv as (H1 & H2 & _ & H4 & _).
  cbn in H1, H2, H4.
  assert (HK : (1 <= K)%Z).
  { destruct mixing as [|p mixing].
    - exfalso. unfold sum_tolerance, default_atol, default_rtol, np_sum in H2.
      simpl in H2. rewrite Rabs_R1 in H2.
      replace (0 - 1) with (- (1)) in H2 by lra.
      rewrite Rabs_Ropp, Rabs_R1 in H2. lra.
    - unfold shape1 in H1. simpl length in H1. lia. }
  assert (HD : (0 <= D)%Z).
  { unfold shape in H4. inversion H4. lia. }
  unfold number_of_free_parameters, number_of_components, number_of_dimensions.
  cbn. repeat split; try assumption. nia.
Qed.

Lemma constructed_model_has_components_witness :
  __init__ 2 2 [0.5; 0.5] (Mat 2 [[0.2; 0.7]; [0.6; 0.3]]) = inr model_2_2
  /\ (1 <= number_of_components model_2_2)%Z
  /\ (0 <= number_of_dimensions model_2_2)%Z
  /\ (0 <= number_of_free_parameters model_2_2)%Z.
Proof.
  assert (H : __init__ 2 2 [0.5; 0.5] (Mat 2 [[0.2; 0.7]; [0.6; 0.3]])
              = inr model_2_2).
  { apply init_accepts_valid; try reflexivity.
    - unfold sum_tolerance, default_atol, default_rtol, np_sum. simpl.
      rewrite Rabs_R1. rewrite Rabs_right; lra.
    - repeat constructor; lra.
    - repeat constructor; lra. }
  split; [exact H|].
  exact (constructed_model_has_components _ _ _ _ _ H).
Defined.

Lemma init_first_failure_witness :
  shape1 [1.5; -0.5] = 2%Z
  /\ Rabs (np_sum [1.5; -0.5] - 1) <= sum_tolerance
  /\ ~ Forall (fun p => 0 <= p <= 1) [1.5; -0.5]
  /\ __init__ 2 1 [1.5; -0.5] (Mat 1 [[0.5]; [0.5]]) = inl MixingNotBounded.
Proof.
  assert (H1 : shape1 [1.5; -0.5] = 2%Z) by reflexivity.
  assert (H2 : Rabs (np_sum [1.5; -0.5] - 1) <= sum_tolerance).
  { unfold sum_tolerance, default_atol, default_rtol, np_sum. simpl.
    rewrite Rabs_R1. rewrite Rabs_right; lra. }
  assert (H3 : ~ Forall (fun p => 0 <= p <= 1) [1.5; -0.5]).
  { intros H. inversion H; subst. lra. }
  repeat split; try assumption.
  destruct (init_first_failure 2 1 [1.5; -0.5] (Mat 1 [[0.5]; [0.5]]))
    as (_ & _ & Hb & _).
  exact (Hb H1 H2 H3).
Defined.

(** ** The aggregator, further *)

Lemma row_le_trans : Relations_1.Transitive row_le.
Proof. intros a b c. apply row_leb_trans. Qed.

(** Two sorted lists with the same rows are the same list. *)
Lemma sorted_rows_unique (l1 l2 : list (list bool)) :
  Sorted row_le l1 -> Sorted row_le l2 -> Permutation l1 l2 -> l1 = l2.
Proof.
  intros H1 H2. apply (Sorted_StronglySorted row_le_trans) in H1.
  apply (Sorted_StronglySorted row_le_trans) in H2.
  revert l2 H2. induction H1 as [|a l1 Hs1 IH Ha]; intros l2 H2 Hperm.
  - apply Permutation_nil in Hperm. now subst.
  - destruct H2 as [|b l2 Hs2 Hb].
    + apply Permutation_sym, Permutation_nil in Hperm. discriminate.
    + assert (Hab : a = b).
      { rewrite Forall_forall in Ha, Hb.
        assert (Hin_b : In b (a :: l1))
          by (apply (Permutation_in _ (Permutation_sym Hperm)); now left).
        assert (Hin_a : In a (b :: l2))
          by (apply (Permutation_in _ Hperm); now left).
        destruct Hin_b as [E|Hin_b]; [now symmetry|].
        destruct Hin_a as [E|Hin_a]; [now symmetry|].
        apply row_leb_antisym; [now apply Ha|now apply Hb]. }
      subst b. f_equal. apply IH; [exact Hs2|].
      now apply Permutation_cons_inv in Hperm.
Qed.

Lemma sort_rows_permuted (l1 l2 : list (list bool)) :
  Permutation l1 l2 -> sort_rows l1 = sort_rows l2.
Proof.
  intros H. apply sorted_rows_unique; try apply sort_rows_sorted.
  rewrite <- (sort_rows_perm l1), <- (sort_rows_perm l2). exact H.
Qed.

Lemma aggregated_permuted (ds1 ds2 : matrix bool) :
  n_cols ds1 = n_cols ds2 -> Permutation (m_rows ds1) (m_rows ds2) ->
  aggregated ds1 = aggregated ds2.
Proof.
  intros Hc Hp. rewrite !aggregate_unfold, Hc.
  now rewrite (sort_rows_permuted _ _ Hp).
Qed.

Lemma aggregate_permuted (ds1 ds2 : matrix bool) :
  n_cols ds1 = n_cols ds2 -> Permutation (m_rows ds1) (m_rows ds2) ->
  _aggregate_dataset ds1 = _aggregate_dataset ds2.
Proof.
  intros Hc Hp. unfold _aggregate_dataset, view_as_records, bind, ret, raise.
  rewrite Hc. destruct (n_cols ds2 =? 0)%nat; [reflexivity|].
  unfold np_unique_counts. now rewrite (sort_rows_permuted _ _ Hp).
Qed.

(** X4: The order of the rows of a dataset is immaterial: two datasets with the
    same rows in another order have the same aggregate, and [fit],
    [log_likelihood], [AIC] and [BIC] give the same on both. *)
Theorem row_order_is_immaterial (self : BernoulliMixture) (ds1 ds2 : matrix bool)
    (fuel : nat) (iteration_limit : option Z) (threshold : R) (tr : bool) :
  n_cols ds1 = n_cols ds2 ->
  Permutation (m_rows ds1) (m_rows ds2) ->
  _aggregate_dataset ds1 = _aggregate_dataset ds2
  /\ log_likelihood self ds1 = log_likelihood self ds2
  /\ AIC self ds1 = AIC self ds2
  /\ BIC self ds1 = BIC self ds2
  /\ fit fuel self ds1 iteration_limit threshold tr
     = fit fuel self ds2 iteration_limit threshold tr.
Proof.
  intros Hc Hp. pose proof (aggregate_permuted _ _ Hc Hp) as Hagg.
  assert (Hdim : check_dimensions self ds1 = check_dimensions self ds2).
  { unfold check_dimensions, shape. cbn [snd]. now rewrite Hc. }
  assert (Hll : log_likelihood self ds1 = log_likelihood self ds2).
  { unfold log_likelihood. now rewrite Hdim, Hagg. }
  split; [exact Hagg|]. split; [exact Hll|]. split; [|split].
  - unfold AIC. now rewrite Hll.
  - unfold BIC. now rewrite Hll, (Permutation_length Hp).
  - unfold fit. now rewrite Hdim, Hagg.
Qed.

Lemma row_order_is_immaterial_witness :
  let ds1 := Mat 2 [[true; false]; [false; true]; [true; false]] in
  let ds2 := Mat 2 [[false; true]; [true; false]; [true; false]] in
  n_cols ds1 = n_cols ds2
  /\ Permutation (m_rows ds1) (m_rows ds2)
  /\ log_likelihood model_2_2 ds1 = log_likelihood model_2_2 ds2
  /\ BIC model_2_2 ds1 = BIC model_2_2 ds2.
Proof.
  intros ds1 ds2.
  assert (Hp : Permutation (m_rows ds1) (m_rows ds2)) by apply perm_swap.
  split; [reflexivity|]. split; [exact Hp|].
  destruct (row_order_is_immaterial model_2_2 ds1 ds2 0 None 0 false eq_refl Hp)
    as (_ & Hll & _ & Hbic & _).
  split; assumption.
Defined.

(** X5: For a dataset with at least one column the unique rows come out in
    strictly increasing order, every weight is at least one, there are no
    more unique rows than rows, and the unique rows are as wide as the
    dataset when its rows are. *)
Theorem aggregate_sorted_and_bounded (dataset : matrix bool) :
  (0 < n_cols dataset)%nat ->
  exists unique weights,
    _aggregate_dataset dataset = inr (unique, weights)
    /\ Sorted row_lt (m_rows unique)
    /\ Forall (fun c => (1 <= c)%nat) weights
    /\ (length (m_rows unique) <= length (m_rows dataset))%nat
    /\ (wf_matrix dataset -> wf_matrix unique).
Proof.
  intros Hcols.
  exists (fst (aggregated dataset)), (snd (aggregated dataset)).
  split; [rewrite <- surjective_pairing; now apply aggregate_returns|].
  split; [|split; [apply aggregate_counts_positive|split]].
  - rewrite aggregate_unfold. cbn [fst m_rows].
    apply run_lengths_keys_sorted, sort_rows_sorted.
  - rewrite aggregate_unfold. cbn [fst m_rows]. rewrite length_map.
    rewrite (Permutation_length (sort_rows_perm (m_rows dataset))).
    rewrite <- (run_lengths_expand (sort_rows (m_rows dataset))) at 2.
    pose proof (run_lengths_positive (sort_rows (m_rows dataset))) as Hpos.
    induction Hpos as [|[r c] t Hc _ IH]; [simpl; lia|].
    unfold expand in *. cbn [flat_map length fst snd] in *.
    rewrite length_app, repeat_length. lia.
  - intros Hwf. unfold wf_matrix. rewrite aggregate_n_cols, Forall_forall.
    intros r Hin. unfold wf_matrix in Hwf. rewrite Forall_forall in Hwf.
    apply Hwf. now apply aggregate_rows_iff.
Qed.

Lemma aggregate_sorted_and_bounded_witness :
  let dataset := Mat 2 [[true; false]; [false; true]; [true; false]] in
  (0 < n_cols dataset)%nat
  /\ exists unique weights,
       _aggregate_dataset dataset = inr (unique, weights)
       /\ Sorted row_lt (m_rows unique)
       /\ Forall (fun c => (1 <= c)%nat) weights
       /\ (length (m_rows unique) <= length (m_rows dataset))%nat
       /\ (wf_matrix dataset -> wf_matrix unique).
Proof.
  intros dataset. split; [apply Nat.lt_0_succ|].
  exact (aggregate_sorted_and_bounded dataset (Nat.lt_0_succ 1)).
Defined.

Lemma insert_row_below (r : list bool) (l : list (list bool)) :
  HdRel row_le r l -> insert_row r l = r :: l.
Proof.
  intros H. destruct l as [|x l]; [reflexivity|]. simpl.
  inversion H; subst. unfold row_le in *.
  match goal with Hx : row_leb r x = true |- _ => now rewrite Hx end.
Qed.

Lemma sort_rows_sorted_id (l : list (list bool)) :
  Sorted row_le l -> sort_rows l = l.
Proof.
  induction 1 as [|r l Hs IH Hhd]; [reflexivity|]. simpl. rewrite IH.
  now apply insert_row_below.
Qed.

Lemma row_lt_le_sorted (l : list (list bool)) :
  Sorted row_lt l -> Sorted row_le l.
Proof.
  induction 1 as [|r l Hs IH Hhd]; constructor; auto.
  destruct Hhd as [|x l' [Hle _]]; constructor. exact Hle.
Qed.

Lemma run_lengths_distinct (l : list (list bool)) :
  Sorted row_lt l -> run_lengths l = map (fun r => (r, 1%nat)) l.
Proof.
  induction 1 as [|r l Hs IH Hhd]; [reflexivity|]. simpl. rewrite IH.
  destruct l as [|x l]; [reflexivity|]. simpl.
  inversion Hhd as [|? ? [_ Hne]]; subst.
  apply row_eqb_neq in Hne. now rewrite Hne.
Qed.

(** X6: Aggregating the unique rows again returns them as they are, each with
    weight one. *)
Theorem aggregate_idempotent (dataset : matrix bool) (unique : matrix bool)
    (weights : list nat) :
  _aggregate_dataset dataset = inr (unique, weights) ->
  _aggregate_dataset unique
  = inr (unique, repeat 1%nat (length (m_rows unique))).
Proof.
  intros H. apply aggregate_inr_inv in H. destruct H as [Hcols Heq].
  assert (Hu : unique = fst (aggregated dataset)) by now rewrite <- Heq.
  assert (Hsorted : Sorted row_lt (m_rows unique)).
  { rewrite Hu, aggregate_unfold. cbn [fst m_rows].
    apply run_lengths_keys_sorted, sort_rows_sorted. }
  assert (Hc : (0 < n_cols unique)%nat) by (rewrite Hu, aggregate_n_cols; exact Hcols).
  rewrite (aggregate_returns _ Hc). f_equal.
  rewrite aggregate_unfold.
  rewrite (sort_rows_sorted_id _ (row_lt_le_sorted _ Hsorted)).
  rewrite (run_lengths_distinct _ Hsorted), !map_map. cbn [fst snd].
  rewrite map_id. destruct unique as [c rows]. cbn [n_cols m_rows]. f_equal.
  clear. induction rows as [|r rows IH]; simpl; [reflexivity|]. now rewrite IH.
Qed.

Lemma aggregate_idempotent_witness :
  let dataset := Mat 2 [[true; false]; [false; true]; [true; false]] in
  let unique := Mat 2 [[false; true]; [true; false]] in
  _aggregate_dataset dataset = inr (unique, [1%nat; 2%nat])
  /\ _aggregate_dataset unique = inr (unique, [1%nat; 1%nat]).
Proof.
  intros dataset unique.
  assert (H : _aggregate_dataset dataset = inr (unique, [1%nat; 2%nat]))
    by reflexivity.
  split; [exact H|].
  exact (aggregate_idempotent dataset unique [1%nat; 2%nat] H).
Defined.

(** ** The log-likelihood, further *)

(** X7: The log-likelihood of two datasets stacked on one another is the sum of
    their log-likelihoods. *)
Theorem log_likelihood_vstack (self : BernoulliMixture) (ds1 ds2 : matrix bool) :
  (0 < n_cols ds1)%nat ->
  n_cols ds2 = n_cols ds1 ->
  Z.of_nat (n_cols ds1) = number_of_dimensions self ->
  exists l1 l2,
    log_likelihood self ds1 = inr l1
    /\ log_likelihood self ds2 = inr l2
    /\ log_likelihood self (vstack ds1 ds2) = inr (l1 + l2).
Proof.
  intros Hpos Hc Hd.
  assert (Hpos2 : (0 < n_cols ds2)%nat) by now rewrite Hc.
  assert (Hd2 : Z.of_nat (n_cols ds2) = number_of_dimensions self)
    by now rewrite Hc.
  exists (np_sum (map (row_log_likelihood self) (m_rows ds1))),
         (np_sum (map (row_log_likelihood self) (m_rows ds2))).
  rewrite (log_likelihood_returns _ _ Hpos Hd), aggregated_log_likelihood.
  rewrite (log_likelihood_returns _ _ Hpos2 Hd2), aggregated_log_likelihood.
  rewrite (log_likelihood_returns self (vstack ds1 ds2) Hpos Hd),
    aggregated_log_likelihood.
  unfold vstack. cbn [m_rows]. now rewrite map_app, np_sum_app.
Qed.

Lemma log_likelihood_vstack_witness :
  let ds1 := Mat 2 [[true; false]; [false; true]] in
  let ds2 := Mat 2 [[true; false]] in
  (0 < n_cols ds1)%nat
  /\ n_cols ds2 = n_cols ds1
  /\ Z.of_nat (n_cols ds1) = number_of_dimensions model_2_2
  /\ exists l1 l2,
       log_likelihood model_2_2 ds1 = inr l1
       /\ log_likelihood model_2_2 ds2 = inr l2
       /\ log_likelihood model_2_2 dataset_3_2 = inr (l1 + l2).
Proof.
  intros ds1 ds2. split; [apply Nat.lt_0_succ|]. split; [reflexivity|].
  split; [reflexivity|].
  exact (log_likelihood_vstack model_2_2 ds1 ds2 (Nat.lt_0_succ 1) eq_refl eq_refl).
Defined.

Lemma bernoulli_prob_bounds (p : list R) (row : list bool) :
  Forall (fun q => 0 <= q <= 1) p -> 0 <= bernoulli_prob p row <= 1.
Proof.
  intros Hp. revert row. induction Hp as [|q p Hq _ IH]; intros row; simpl.
  - lra.
  - destruct row as [|b row]; [lra|]. specialize (IH row).
    destruct b; nra.
Qed.

Lemma support_row_total_bounds (self : BernoulliMixture) (row : list bool) :
  length (mixing_coefficients self) = Z.to_nat (number_of_components self) ->
  Forall (fun p => 0 <= p) (mixing_coefficients self) ->
  Forall (Forall (fun q => 0 <= q <= 1)) (m_rows (emission_probabilities self)) ->
  0 <= np_sum (support_row self row) <= np_sum (mixing_coefficients self).
Proof.
  intros Hlen Hpi Hmu.
  assert (Hterm : forall k, (k < Z.to_nat (number_of_components self))%nat ->
            0 <= nth k (mixing_coefficients self) 0
                 * bernoulli_prob
                     (nth k (m_rows (emission_probabilities self)) []) row
            <= nth k (mixing_coefficients self) 0).
  { intros k Hk.
    assert (H0 : 0 <= nth k (mixing_coefficients self) 0).
    { rewrite Forall_forall in Hpi. apply Hpi, nth_In. now rewrite Hlen. }
    assert (Hb : 0 <= bernoulli_prob
                        (nth k (m_rows (emission_probabilities self)) []) row
                   <= 1).
    { apply bernoulli_prob_bounds.
      destruct (nth_in_or_default k (m_rows (emission_probabilities self)) [])
        as [Hin|E].
      - rewrite Forall_forall in Hmu. now apply Hmu.
      - rewrite E. constructor. }
    nra. }
  unfold support_row.
  change (np_sum (map ?f (seq 0 ?n))) with (big_sum n f).
  rewrite (np_sum_big_sum (mixing_coefficients self)), Hlen. split.
  - apply big_sum_nonneg. intros k Hk. now apply Hterm.
  - apply big_sum_le. intros k Hk. now apply Hterm.
Qed.

Lemma log_likelihood_value_nonpositive (self : BernoulliMixture)
    (dataset : matrix bool) :
  length (mixing_coefficients self) = Z.to_nat (number_of_components self) ->
  Forall (fun p => 0 <= p) (mixing_coefficients self) ->
  np_sum (mixing_coefficients self) <= 1 ->
  Forall (Forall (fun q => 0 <= q <= 1)) (m_rows (emission_probabilities self)) ->
  Forall (fun row => 0 < np_sum (support_row self row)) (m_rows dataset) ->
  _log_likelihood_from_support
    (_observation_emission_support self (fst (aggregated dataset)))
    (map INR (snd (aggregated dataset))) <= 0.
Proof.
  intros Hlen Hpi Hsum Hmu Hsupp.
  rewrite aggregated_log_likelihood.
  induction Hsupp as [|row rows Hrow _ IH]; [unfold np_sum; simpl; lra|].
  cbn [map]. unfold np_sum in *. cbn [fold_right].
  assert (row_log_likelihood self row <= 0).
  { unfold row_log_likelihood, np_log. rewrite <- ln_1.
    apply ln_monotone; [exact Hrow|].
    pose proof (support_row_total_bounds self row Hlen Hpi Hmu).
    unfold np_sum in *. lra. }
  lra.
Qed.

(** X8: With non-negative mixing coefficients that sum to at most one, emission
    probabilities in [0,1] and positive support on every row, the
    log-likelihood of a dataset is never positive.  (The products over the
    dimensions are those of the specification of the support matrix.) *)
Theorem log_likelihood_nonpositive (self : BernoulliMixture) (dataset : matrix bool) :
  (0 < n_cols dataset)%nat ->
  Z.of_nat (n_cols dataset) = number_of_dimensions self ->
  length (mixing_coefficients self) = Z.to_nat (number_of_components self) ->
  Forall (fun p => 0 <= p) (mixing_coefficients self) ->
  np_sum (mixing_coefficients self) <= 1 ->
  Forall (Forall (fun q => 0 <= q <= 1)) (m_rows (emission_probabilities self)) ->
  Forall (fun row => 0 < np_sum (support_row self row)) (m_rows dataset) ->
  exists ll, log_likelihood self dataset = inr ll /\ ll <= 0.
Proof.
  intros Hpos Hd Hlen Hpi Hsum Hmu Hsupp.
  eexists. split; [now apply log_likelihood_returns|].
  now apply log_likelihood_value_nonpositive.
Qed.

Lemma model_2_2_support_positive :
  Forall (fun row => 0 < np_sum (support_row model_2_2 row))
         (m_rows dataset_3_2).
Proof.
  repeat constructor; unfold support_row, np_sum; simpl; lra.
Qed.

Lemma log_likelihood_nonpositive_witness :
  (0 < n_cols dataset_3_2)%nat
  /\ Z.of_nat (n_cols dataset_3_2) = number_of_dimensions model_2_2
  /\ np_sum (mixing_coefficients model_2_2) <= 1
  /\ Forall (fun row => 0 < np_sum (support_row model_2_2 row))
            (m_rows dataset_3_2)
  /\ exists ll, log_likelihood model_2_2 dataset_3_2 = inr ll /\ ll <= 0.
Proof.
  assert (Hsum : np_sum (mixing_coefficients model_2_2) <= 1)
    by (unfold np_sum; simpl; lra).
  split; [apply Nat.lt_0_succ|]. split; [reflexivity|]. split; [exact Hsum|].
  split; [exact model_2_2_support_positive|].
  apply (log_likelihood_nonpositive model_2_2 dataset_3_2 (Nat.lt_0_succ 1)
           eq_refl eq_refl); [|exact Hsum| |exact model_2_2_support_positive].
  - repeat constructor; simpl; lra.
  - repeat constructor; simpl; lra.
Defined.

(** ** The E-step, further *)

Lemma np_sum_scaled (c : R) (r : list R) :
  np_sum (map (Rmult c) r) = c * np_sum r.
Proof. unfold np_sum. induction r as [|s r IH]; simpl; [lra|]. rewrite IH. lra. Qed.

Lemma scale_matrix_wf (c : R) (a : matrix R) :
  wf_matrix a -> wf_matrix (scale_matrix c a).
Proof.
  unfold wf_matrix, scale_matrix. cbn [m_rows n_cols].
  rewrite !Forall_forall. intros H r Hin. apply in_map_iff in Hin.
  destruct Hin as (r0 & <- & Hin). rewrite length_map. now apply H.
Qed.

(** X9: The responsibilities do not change when every entry of a support matrix
    without a zero row sum is multiplied by the same non-zero number. *)
Theorem posterior_scale_invariant (c : R) (support : matrix R) :
  c <> 0 ->
  wf_matrix support ->
  Forall (fun r => np_sum r <> 0) (m_rows support) ->
  _posterior_probability_of_class_given_support (scale_matrix c support)
  = _posterior_probability_of_class_given_support support.
Proof.
  intros Hc Hwf _.
  assert (Hrows :
    m_rows (_posterior_probability_of_class_given_support (scale_matrix c support))
    = m_rows (_posterior_probability_of_class_given_support support)).
  { rewrite (posterior_rows _ (scale_matrix_wf c _ Hwf)), (posterior_rows _ Hwf).
    unfold scale_matrix. cbn [m_rows]. rewrite map_map.
    apply map_ext. intros r. rewrite map_map, np_sum_scaled.
    apply map_ext. intros s. unfold Rdiv. rewrite Rinv_mult.
    replace (c * s * (/ c * / np_sum r)) with ((c * / c) * (s * / np_sum r))
      by ring.
    rewrite Rinv_r by assumption. ring. }
  unfold _posterior_probability_of_class_given_support in *.
  cbn [m_rows n_cols scale_matrix] in *. f_equal. exact Hrows.
Qed.

Lemma posterior_scale_invariant_witness :
  let support := Mat 2 [[0.1; 0.3]; [0.2; 0.2]] in
  2 <> 0 /\ wf_matrix support
  /\ Forall (fun r => np_sum r <> 0) (m_rows support)
  /\ _posterior_probability_of_class_given_support (scale_matrix 2 support)
     = _posterior_probability_of_class_given_support support.
Proof.
  intros support.
  assert (H2 : 2 <> 0) by lra.
  assert (Hwf : wf_matrix support) by (repeat constructor).
  assert (Hs : Forall (fun r => np_sum r <> 0) (m_rows support))
    by (repeat constructor; unfold np_sum; simpl; lra).
  split; [exact H2|]. split; [exact Hwf|]. split; [exact Hs|].
  exact (posterior_scale_invariant 2 support H2 Hwf Hs).
Defined.

Lemma matrix_ext {A} (a b : matrix A) :
  n_cols a = n_cols b -> m_rows a = m_rows b -> a = b.
Proof. destruct a, b. cbn. now intros -> ->. Qed.

Lemma posterior_wf (support : matrix R) :
  wf_matrix support ->
  wf_matrix (_posterior_probability_of_class_given_support support).
Proof.
  intros Hwf. unfold wf_matrix. rewrite (posterior_rows _ Hwf).
  change (n_cols (_posterior_probability_of_class_given_support support))
    with (n_cols support).
  unfold wf_matrix in Hwf. rewrite Forall_forall in *. intros r Hin.
  apply in_map_iff in Hin. destruct Hin as (r0 & <- & Hin).
  rewrite length_map. now apply Hwf.
Qed.

(** X10: On a support matrix without negative entries and without a zero row sum,
    every responsibility lies in [0,1], and normalising the responsibilities
    once more changes nothing. *)
Theorem posterior_bounded_and_idempotent (support : matrix R) :
  wf_matrix support ->
  Forall (Forall (fun s => 0 <= s)) (m_rows support) ->
  Forall (fun r => np_sum r <> 0) (m_rows support) ->
  let zstar := _posterior_probability_of_class_given_support support in
  Forall (Forall (fun z => 0 <= z <= 1)) (m_rows zstar)
  /\ _posterior_probability_of_class_given_support zstar = zstar.
Proof.
  intros Hwf Hnn Hsum zstar. subst zstar. split.
  - rewrite (posterior_rows _ Hwf). rewrite Forall_forall in *.
    intros r' Hin. apply in_map_iff in Hin. destruct Hin as (r & <- & Hin).
    specialize (Hnn r Hin). specialize (Hsum r Hin).
    rewrite Forall_forall in *. intros z Hz. apply in_map_iff in Hz.
    destruct Hz as (s & <- & Hs).
    assert (Hs0 : 0 <= s) by now apply Hnn.
    assert (Hle : s <= np_sum r).
    { destruct (In_nth _ _ 0 Hs) as (k & Hk & <-).
      rewrite np_sum_big_sum.
      apply (big_sum_ge_term (length r) k (fun i => nth i r 0)); [|exact Hk].
      intros i Hi. apply Hnn, nth_In, Hi. }
    assert (Hpos : 0 < np_sum r) by lra.
    split.
    + apply Rmult_le_pos; [exact Hs0|]. left. now apply Rinv_0_lt_compat.
    + apply (Rmult_le_reg_r (np_sum r)); [exact Hpos|].
      replace (s / np_sum r * np_sum r) with s by (field; lra). lra.
  - assert (Hrows :
      m_rows (_posterior_probability_of_class_given_support
                (_posterior_probability_of_class_given_support support))
      = m_rows (_posterior_probability_of_class_given_support support)).
    { rewrite (posterior_rows _ (posterior_wf _ Hwf)).
      rewrite (posterior_rows _ Hwf), map_map.
      apply map_ext_in. intros r Hin. rewrite Forall_forall in Hsum.
      rewrite (normalised_row_sum r (Hsum r Hin)), map_map.
      apply map_ext. intros s. field. now apply Hsum. }
    apply matrix_ext; [reflexivity|exact Hrows].
Qed.

Lemma posterior_bounded_and_idempotent_witness :
  let support := Mat 2 [[0.1; 0.3]; [0.2; 0.2]] in
  wf_matrix support
  /\ Forall (Forall (fun s => 0 <= s)) (m_rows support)
  /\ Forall (fun r => np_sum r <> 0) (m_rows support)
  /\ Forall (Forall (fun z => 0 <= z <= 1))
            (m_rows (_posterior_probability_of_class_given_support support))
  /\ _posterior_probability_of_class_given_support
       (_posterior_probability_of_class_given_support support)
     = _posterior_probability_of_class_given_support support.
Proof.
  intros support.
  assert (Hwf : wf_matrix support) by (repeat constructor).
  assert (Hnn : Forall (Forall (fun s => 0 <= s)) (m_rows support))
    by (repeat constructor; lra).
  assert (Hs : Forall (fun r => np_sum r <> 0) (m_rows support))
    by (repeat constructor; unfold np_sum; simpl; lra).
  split; [exact Hwf|]. split; [exact Hnn|]. split; [exact Hs|].
  exact (posterior_bounded_and_idempotent support Hwf Hnn Hs).
Defined.

(** ** The M-step, further *)

(** X11: The mixing coefficients that the M-step returns: as many as the
    responsibility matrix has columns, each in [0,1], and with sum one --
    for responsibilities that are non-negative with rows that sum to one and
    weights that are non-negative and not all zero. *)
Theorem m_step_mixing_is_distribution
    (zstar : matrix R) (unique_rows : matrix bool) (weights : list R) :
  wf_matrix zstar ->
  length weights = length (m_rows zstar) ->
  Forall (Forall (fun z => 0 <= z)) (m_rows zstar) ->
  Forall (fun r => np_sum r = 1) (m_rows zstar) ->
  Forall (fun w => 0 <= w) weights ->
  0 < np_sum weights ->
  let pi := fst (_m_step zstar unique_rows weights) in
  length pi = n_cols zstar
  /\ Forall (fun p => 0 <= p <= 1) pi
  /\ np_sum pi = 1.
Proof.
  intros Hwf Hw Hz Hrows Hwn Hpos pi. subst pi.
  rewrite (m_step_mixing _ unique_rows _ Hw).
  assert (Hu : forall k, (k < n_cols zstar)%nat ->
                 0 <= effective_count zstar weights k).
  { intros k Hk. unfold effective_count. apply big_sum_nonneg. intros i Hi.
    apply Rmult_le_pos.
    - rewrite Forall_forall in Hwn. apply Hwn, nth_In. now rewrite Hw.
    - unfold entry. rewrite Forall_forall in Hz.
      assert (Hin : In (nth i (m_rows zstar) []) (m_rows zstar))
        by now apply nth_In.
      specialize (Hz _ Hin). rewrite Forall_forall in Hz.
      apply Hz, nth_In.
      unfold wf_matrix in Hwf. rewrite Forall_forall in Hwf.
      now rewrite (Hwf _ Hin). }
  assert (Htot : big_sum (n_cols zstar) (fun k => effective_count zstar weights k)
                 = np_sum weights).
  { apply effective_counts_total; auto. intros i Hi.
    rewrite Forall_forall in Hrows. now apply Hrows, nth_In. }
  assert (Hsum : np_sum (map (fun k => effective_count zstar weights k / np_sum weights)
                             (seq 0 (n_cols zstar))) = 1).
  { change (np_sum (map ?f (seq 0 ?n))) with (big_sum n f).
    transitivity (big_sum (n_cols zstar)
                    (fun k => effective_count zstar weights k) * / np_sum weights).
    - apply (big_sum_scal_r (n_cols zstar) (/ np_sum weights)
               (fun k => effective_count zstar weights k)).
    - rewrite Htot. field. lra. }
  split; [now rewrite length_map, length_seq|]. split; [|exact Hsum].
  rewrite Forall_forall. intros p Hin. apply in_map_iff in Hin.
  destruct Hin as (k & <- & Hk). apply in_seq in Hk.
  assert (H0 : 0 <= effective_count zstar weights k / np_sum weights).
  { apply Rmult_le_pos; [apply Hu; lia|]. left. now apply Rinv_0_lt_compat. }
  split; [exact H0|].
  rewrite <- Hsum.
  change (np_sum (map ?f (seq 0 ?n))) with (big_sum n f).
  apply (big_sum_ge_term (n_cols zstar) k
           (fun k => effective_count zstar weights k / np_sum weights)); [|lia].
  intros j Hj. apply Rmult_le_pos; [now apply Hu|].
  left. now apply Rinv_0_lt_compat.
Qed.

Lemma m_step_mixing_is_distribution_witness :
  let zstar := Mat 2 [[0.5; 0.5]; [1; 0]] in
  let unique_rows := Mat 1 [[true]; [false]] in
  let weights := [2; 1] in
  (wf_matrix zstar
   /\ length weights = length (m_rows zstar)
   /\ Forall (Forall (fun z => 0 <= z)) (m_rows zstar)
   /\ Forall (fun r => np_sum r = 1) (m_rows zstar)
   /\ Forall (fun w => 0 <= w) weights
   /\ 0 < np_sum weights)
  /\ length (fst (_m_step zstar unique_rows weights)) = n_cols zstar
  /\ Forall (fun p => 0 <= p <= 1) (fst (_m_step zstar unique_rows weights))
  /\ np_sum (fst (_m_step zstar unique_rows weights)) = 1.
Proof.
  intros zstar unique_rows weights.
  assert (H1 : wf_matrix zstar) by (repeat constructor).
  assert (H3 : Forall (Forall (fun z => 0 <= z)) (m_rows zstar))
    by (repeat constructor; lra).
  assert (H4 : Forall (fun r => np_sum r = 1) (m_rows zstar))
    by (repeat constructor; unfold np_sum; simpl; lra).
  assert (H5 : Forall (fun w => 0 <= w) weights) by (repeat constructor; lra).
  assert (H6 : 0 < np_sum weights) by (unfold np_sum; simpl; lra).
  split; [repeat split; assumption|].
  exact (m_step_mixing_is_distribution zstar unique_rows weights
           H1 eq_refl H3 H4 H5 H6).
Defined.

(** ** [fit]: the model it leaves *)

(** X12: The model that a returning call of [fit] leaves is the model it was
    called on after as many parameter updates as the status counts
    iterations, whether the loop ended by convergence or at the limit; the
    numbers of components and of dimensions stay as they were. *)
Theorem fit_model_is_iterated_update (fuel : nat) (self self' : BernoulliMixture)
    (dataset : matrix bool) (iteration_limit : option Z) (threshold : R)
    (trace_likelihood : bool) (ll : option R) (status : ConvergenceStatus) :
  fit fuel self dataset iteration_limit threshold trace_likelihood
  = Some (self', inr (ll, status)) ->
  self' = em_iterate (number_of_iterations status) self
                     (fst (aggregated dataset)) (snd (aggregated dataset))
  /\ number_of_components self' = number_of_components self
  /\ number_of_dimensions self' = number_of_dimensions self.
Proof.
  intros H. apply fit_run in H.
  destruct H as (tr0 & T & sf & _ & _ & _ & -> & _ & _ & -> & _).
  split; [reflexivity|]. apply em_iterate_dimensions.
Qed.

Lemma fit_model_is_iterated_update_witness :
  exists self' ll status,
    fit 3 model_2_2 dataset_3_2 (Some 3%Z) 0.001 true
    = Some (self', inr (ll, status))
    /\ self' = em_iterate (number_of_iterations status) model_2_2
                 (fst (aggregated dataset_3_2)) (snd (aggregated dataset_3_2))
    /\ number_of_components self' = number_of_components model_2_2
    /\ number_of_dimensions self' = number_of_dimensions model_2_2.
Proof.
  destruct (fit_returns 3 model_2_2 dataset_3_2 3 0.001 true)
    as (self' & ll & status & H); [cbn; lia|reflexivity|lia|].
  exists self', ll, status. split; [exact H|].
  exact (fit_model_is_iterated_update _ _ _ _ _ _ _ _ _ H).
Defined.

(** ** [fit]: when the loop ends *)

(** X13: [fit] stops at the first pass whose log-likelihood lies within the
    threshold of that of the pass before: no earlier pass met the test, a
    run that reports convergence made at least one iteration and its last
    two log-likelihoods meet the test, and a run that does not report
    convergence had used up its iteration limit. *)
Theorem fit_stops_at_first_convergence (fuel : nat)
    (self self' : BernoulliMixture) (dataset : matrix bool)
    (iteration_limit : option Z) (threshold : R) (trace_likelihood : bool)
    (ll : option R) (status : ConvergenceStatus) :
  fit fuel self dataset iteration_limit threshold trace_likelihood
  = Some (self', inr (ll, status)) ->
  let value :=
    pass_value self (fst (aggregated dataset)) (snd (aggregated dataset)) in
  let T := number_of_iterations status in
  (forall t, (1 <= t < T)%nat -> threshold < Rabs (value t - value (t - 1)%nat))
  /\ (converged status = true ->
      (1 <= T)%nat /\ Rabs (value T - value (T - 1)%nat) <= threshold)
  /\ (converged status = false ->
      exists n, iteration_limit = Some n /\ (n <= Z.of_nat T)%Z).
Proof.
  intros H value T. apply fit_run in H.
  destruct H as (tr0 & T' & sf & _ & Hbefore & Hend & _ & _ & Hc & HT & _).
  subst T. rewrite HT, Hc. split; [|split].
  - intros t Ht. destruct (Hbefore t) as [_ Hn]; [lia|].
    apply Rnot_le_lt. intros Hle.
    assert (Hyes : pass_converges self (fst (aggregated dataset))
                     (snd (aggregated dataset)) threshold t = true)
      by (apply pass_converges_iff; split; [lia|exact Hle]).
    congruence.
  - intros Hconv. destruct Hend as [(_ & Hyes & _)|(_ & ->)]; [|discriminate].
    now apply pass_converges_iff.
  - intros Hconv. destruct Hend as [(_ & _ & ->)|(Hlim & _)]; [discriminate|].
    destruct iteration_limit as [n|]; [|discriminate].
    exists n. split; [reflexivity|]. cbn in Hlim. apply Z.ltb_ge in Hlim. lia.
Qed.

Lemma fit_stops_at_first_convergence_witness :
  exists self' ll status,
    fit 3 model_2_2 dataset_3_2 (Some 3%Z) 0.001 true
    = Some (self', inr (ll, status))
    /\ (forall t, (1 <= t < number_of_iterations status)%nat ->
          0.001 < Rabs (pass_value model_2_2 (fst (aggregated dataset_3_2))
                          (snd (aggregated dataset_3_2)) t
                        - pass_value model_2_2 (fst (aggregated dataset_3_2))
                            (snd (aggregated dataset_3_2)) (t - 1)%nat)).
Proof.
  destruct (fit_returns 3 model_2_2 dataset_3_2 3 0.001 true)
    as (self' & ll & status & H); [cbn; lia|reflexivity|lia|].
  exists self', ll, status. split; [exact H|].
  exact (proj1 (fit_stops_at_first_convergence _ _ _ _ _ _ _ _ _ H)).
Defined.

(** X14: With an iteration limit [n], [fit] makes at most [n] iterations: exactly
    [n] (none for a negative [n]) when it does not report convergence, and
    at least one and fewer than [n] when it does, so that a limit of one
    never gives convergence. *)
Theorem fit_iteration_count (fuel : nat) (self self' : BernoulliMixture)
    (dataset : matrix bool) (n : Z) (threshold : R) (trace_likelihood : bool)
    (ll : option R) (status : ConvergenceStatus) :
  fit fuel self dataset (Some n) threshold trace_likelihood
  = Some (self', inr (ll, status)) ->
  let T := number_of_iterations status in
  (T <= Z.to_nat n)%nat
  /\ (converged status = false -> T = Z.to_nat n)
  /\ (converged status = true -> (1 <= Z.of_nat T < n)%Z)
  /\ ((n <= 1)%Z -> converged status = false).
Proof.
  intros H T. apply fit_run in H.
  destruct H as (tr0 & T' & sf & _ & Hbefore & Hend & _ & _ & Hc & HT & _).
  subst T. rewrite HT, Hc.
  assert (Hle : (T' <= Z.to_nat n)%nat).
  { destruct T' as [|t]; [lia|].
    destruct (Hbefore t) as [Hlim _]; [lia|].
    cbn in Hlim. apply Z.ltb_lt in Hlim. lia. }
  assert (Hconv : fit_converged sf = true -> (1 <= Z.of_nat T' < n)%Z).
  { intros Hconv. destruct Hend as [(Hlim & Hyes & _)|(_ & ->)]; [|discriminate].
    apply pass_converges_iff in Hyes. cbn in Hlim. apply Z.ltb_lt in Hlim. lia. }
  split; [exact Hle|]. split; [|split; [exact Hconv|]].
  - intros Hno. destruct Hend as [(_ & _ & ->)|(Hlim & _)]; [discriminate|].
    cbn in Hlim. apply Z.ltb_ge in Hlim. lia.
  - intros Hn. destruct (fit_converged sf); [|reflexivity].
    specialize (Hconv eq_refl). lia.
Qed.

Lemma fit_iteration_count_witness :
  exists self' ll status,
    fit 3 model_2_2 dataset_3_2 (Some 3%Z) 0.001 true
    = Some (self', inr (ll, status))
    /\ (number_of_iterations status <= Z.to_nat 3)%nat.
Proof.
  destruct (fit_returns 3 model_2_2 dataset_3_2 3 0.001 true)
    as (self' & ll & status & H); [cbn; lia|reflexivity|lia|].
  exists self', ll, status. split; [exact H|].
  exact (proj1 (fit_iteration_count _ _ _ _ _ _ _ _ _ H)).
Defined.

(** X15: A converging run needs no iteration limit: on a model with arrays of
    the right shapes that is not degenerate on a dataset of its width (so
    that every support stays positive and the passes compute real numbers),
    when some pass [T >= 1] has a log-likelihood within the threshold of that
    of the pass before, and the limit, if there is one, is above [T], then
    [fit] returns, reports convergence, and has made at most [T]
    iterations. *)
Theorem fit_returns_on_convergence (fuel : nat) (self : BernoulliMixture)
    (dataset : matrix bool) (iteration_limit : option Z) (threshold : R)
    (trace_likelihood : bool) (T : nat) :
  well_shaped self ->
  non_degenerate self dataset ->
  (0 < n_cols dataset)%nat ->
  Z.of_nat (n_cols dataset) = number_of_dimensions self ->
  (forall n, iteration_limit = Some n -> (Z.of_nat T < n)%Z) ->
  (1 <= T)%nat ->
  Rabs (pass_value self (fst (aggregated dataset)) (snd (aggregated dataset)) T
        - pass_value self (fst (aggregated dataset)) (snd (aggregated dataset))
            (T - 1)%nat) <= threshold ->
  (T < fuel)%nat ->
  exists self' ll status,
    fit fuel self dataset iteration_limit threshold trace_likelihood
    = Some (self', inr (ll, status))
    /\ converged status = true
    /\ (1 <= number_of_iterations status <= T)%nat.
Proof.
  intros _ _ Hcols Hdim Hlim HT Hclose Hfuel.
  assert (Hw : within_limit iteration_limit T = true).
  { destruct iteration_limit as [n|]; [|reflexivity].
    cbn. apply Z.ltb_lt. now apply Hlim. }
  assert (Hyes : pass_converges self (fst (aggregated dataset))
                   (snd (aggregated dataset)) threshold T = true)
    by (apply pass_converges_iff; split; assumption).
  assert (Htr : exists tr0,
            initial_trace iteration_limit trace_likelihood = inr tr0).
  { unfold initial_trace. destruct trace_likelihood; [|eauto].
    destruct (truthy iteration_limit); [|eauto].
    destruct iteration_limit as [n|]; [|eauto].
    destruct (n <? 0)%Z eqn:En; [|eauto].
    apply Z.ltb_lt in En. specialize (Hlim n eq_refl). lia. }
  destruct Htr as [tr0 Htr].
  destruct (fit_loop_reaches self (fst (aggregated dataset))
              (snd (aggregated dataset)) iteration_limit threshold tr0 T
              (fun u Hu => within_limit_below _ _ _ Hw Hu) Hyes fuel 0%nat)
    as [sf Hsf]; [lia|lia|].
  assert (Hfit : fit fuel self dataset iteration_limit threshold trace_likelihood
                 = Some (fit_self sf,
                         inr (current_log_likelihood sf,
                              {| converged := fit_converged sf;
                                 number_of_iterations := iterations_done sf;
                                 likelihood_trace :=
                                   final_trace iteration_limit sf |}))).
  { unfold fit. rewrite (check_dimensions_ok _ _ Hdim).
    rewrite (aggregate_returns _ Hcols).
    destruct (aggregated dataset) as [U C]. cbn [fst snd] in Hsf.
    rewrite Htr.
    change {| fit_self := self; previous_log_likelihood := None;
              current_log_likelihood := None; iterations_done := 0;
              trace := tr0; fit_converged := false |}
      with (state_after self U C tr0 0).
    now rewrite Hsf. }
  eexists _, _, _. split; [exact Hfit|].
  destruct (fit_run _ _ _ _ _ _ _ _ _ Hfit)
    as (tr1 & T' & sf' & _ & Hbefore & Hend & _ & _ & Hc & HT' & _).
  rewrite Hc, HT'.
  assert (HleT : (T' <= T)%nat).
  { destruct (Nat.le_gt_cases T' T) as [Hle|Hgt]; [exact Hle|].
    destruct (Hbefore T Hgt) as [_ Hno]. congruence. }
  destruct Hend as [(_ & Hyes' & ->)|(Hno & _)].
  - apply pass_converges_iff in Hyes'. split; [reflexivity|lia].
  - rewrite (within_limit_below _ _ _ Hw HleT) in Hno. discriminate.
Qed.

Lemma unit_model_non_degenerate : non_degenerate unit_model unit_dataset.
Proof.
  unfold non_degenerate, unit_model, unit_dataset, shaped_for, wf_matrix.
  cbn [m_rows n_cols mixing_coefficients emission_probabilities
       number_of_components _mixing_coefficients _emission_probabilities
       _number_of_components length].
  repeat split.
  - repeat constructor.
  - repeat constructor.
  - repeat constructor; lra.
  - unfold np_sum; simpl; lra.
  - repeat constructor; lra.
  - repeat constructor; unfold_steps; simpl; lra.
  - intros k Hk. exists [true]. split; [now left|].
    destruct k as [|k]; [|simpl in Hk; lia]; unfold_steps; simpl; lra.
Qed.

Lemma fit_returns_on_convergence_witness :
  (well_shaped unit_model /\ non_degenerate unit_model unit_dataset)
  /\ exists self' ll status,
       fit 2 unit_model unit_dataset None 0.001 false
       = Some (self', inr (ll, status))
       /\ converged status = true
       /\ (1 <= number_of_iterations status <= 1)%nat.
Proof.
  assert (Hshape : well_shaped unit_model) by (split; reflexivity).
  split; [split; [exact Hshape|exact unit_model_non_degenerate]|].
  apply (fit_returns_on_convergence 2 unit_model unit_dataset None 0.001 false 1).
  - exact Hshape.
  - exact unit_model_non_degenerate.
  - cbn. lia.
  - reflexivity.
  - intros n Hn. discriminate Hn.
  - lia.
  - replace (aggregated unit_dataset) with (Mat 1 [[true]], [1%nat])
      by reflexivity.
    cbn [fst snd Nat.sub].
    unfold pass_value, pass_log_likelihood, _log_likelihood_from_support.
    rewrite !support_rows. cbn [m_rows map em_iterate].
    unfold_steps. unfold unit_model. simpl.
    unfold big_sum, np_sum, b2R. simpl.
    ln_of_one. rewrite Rabs_right; lra.
  - lia.
Defined.

(** ** [fit]: what it returns *)

(** X16: The trace that [fit] hands back holds, for every iteration made, the
    log-likelihood of the parameters with which that iteration began, in
    order and nothing else; without tracing there is no trace, and
    [trace_available] tells which of the two it is. *)
Theorem fit_trace_contents (fuel : nat) (self self' : BernoulliMixture)
    (dataset : matrix bool) (iteration_limit : option Z) (threshold : R)
    (trace_likelihood : bool) (ll : option R) (status : ConvergenceStatus) :
  fit fuel self dataset iteration_limit threshold trace_likelihood
  = Some (self', inr (ll, status)) ->
  likelihood_trace status
  = (if trace_likelihood
     then Some (map (fun t => Some (pass_value self (fst (aggregated dataset))
                                      (snd (aggregated dataset)) t))
                    (seq 0 (number_of_iterations status)))
     else None)
  /\ trace_available status = trace_likelihood.
Proof.
  intros H. apply fit_run in H.
  destruct H as (tr0 & T & sf & Htr & Hbefore & Hend & _ & _ & _ & HT & Hl).
  assert (Hgoal : likelihood_trace status
    = (if trace_likelihood
       then Some (map (fun t => Some (pass_value self (fst (aggregated dataset))
                                        (snd (aggregated dataset)) t))
                      (seq 0 T))
       else None)).
  { rewrite Hl. destruct trace_likelihood.
    - apply initial_trace_holds in Htr.
      assert (Hh : trace_holds iteration_limit (trace sf)
                     (map (pass_value self (fst (aggregated dataset))
                             (snd (aggregated dataset))) (seq 0 T))).
      { assert (Hsame : trace sf
                  = trace_after self (fst (aggregated dataset))
                      (snd (aggregated dataset)) tr0 T)
          by (destruct Hend as [(_ & _ & ->)|(_ & ->)]; reflexivity).
        rewrite Hsame. apply trace_after_holds; [exact Htr|].
        intros u Hu. now apply Hbefore. }
      assert (Hn : length (map (pass_value self (fst (aggregated dataset))
                                  (snd (aggregated dataset))) (seq 0 T))
                   = iterations_done sf).
      { rewrite length_map, length_seq.
        destruct Hend as [(_ & _ & ->)|(_ & ->)]; reflexivity. }
      rewrite (final_trace_holds _ _ _ Hh Hn), map_map. reflexivity.
    - cbn in Htr. inversion Htr; subst tr0.
      assert (Hnone : trace sf = None).
      { destruct Hend as [(_ & _ & ->)|(_ & ->)];
          now apply trace_after_none. }
      unfold final_trace. now rewrite Hnone. }
  rewrite HT. split; [exact Hgoal|].
  unfold trace_available. rewrite Hgoal. now destruct trace_likelihood.
Qed.

Lemma fit_trace_contents_witness :
  exists self' ll status,
    fit 3 model_2_2 dataset_3_2 (Some 3%Z) 0.001 true
    = Some (self', inr (ll, status))
    /\ likelihood_trace status
       = Some (map (fun t => Some (pass_value model_2_2
                                     (fst (aggregated dataset_3_2))
                                     (snd (aggregated dataset_3_2)) t))
                   (seq 0 (number_of_iterations status)))
    /\ trace_available status = true.
Proof.
  destruct (fit_returns 3 model_2_2 dataset_3_2 3 0.001 true)
    as (self' & ll & status & H); [cbn; lia|reflexivity|lia|].
  exists self', ll, status. split; [exact H|].
  exact (fit_trace_contents _ _ _ _ _ _ _ _ _ H).
Defined.

(** X17: When [fit] stops at the iteration limit, the log-likelihood it returns
    is the one computed at the start of the last iteration, that is, of the
    parameters before the last update and not of the model it leaves; it
    returns [None] when it made no iteration. *)
Theorem fit_limit_returns_previous_log_likelihood (fuel : nat)
    (self self' : BernoulliMixture) (dataset : matrix bool)
    (iteration_limit : option Z) (threshold : R) (trace_likelihood : bool)
    (ll : option R) (status : ConvergenceStatus) :
  fit fuel self dataset iteration_limit threshold trace_likelihood
  = Some (self', inr (ll, status)) ->
  converged status = false ->
  let U := fst (aggregated dataset) in
  let C := snd (aggregated dataset) in
  match number_of_iterations status with
  | O => ll = None /\ self' = self
  | S t => ll = Some (pass_log_likelihood (em_iterate t self U C) U C)
           /\ self' = m_step_of (em_iterate t self U C) U C
  end.
Proof.
  intros H Hno U C. apply fit_run in H.
  destruct H as (tr0 & T & sf & _ & _ & Hend & -> & -> & Hc & -> & _).
  rewrite Hc in Hno.
  destruct Hend as [(_ & _ & ->)|(_ & ->)]; [discriminate|].
  destruct T as [|t]; split; reflexivity.
Qed.

Lemma fit_limit_returns_previous_log_likelihood_witness :
  exists self' ll status,
    fit 1 model_2_2 dataset_3_2 (Some 1%Z) 0.001 false
    = Some (self', inr (ll, status))
    /\ converged status = false
    /\ match number_of_iterations status with
       | O => ll = None /\ self' = model_2_2
       | S t =>
           ll = Some (pass_log_likelihood
                        (em_iterate t model_2_2 (fst (aggregated dataset_3_2))
                           (snd (aggregated dataset_3_2)))
                        (fst (aggregated dataset_3_2))
                        (snd (aggregated dataset_3_2)))
           /\ self' = m_step_of
                        (em_iterate t model_2_2 (fst (aggregated dataset_3_2))
                           (snd (aggregated dataset_3_2)))
                        (fst (aggregated dataset_3_2))
                        (snd (aggregated dataset_3_2))
       end.
Proof.
  destruct (fit_returns 1 model_2_2 dataset_3_2 1 0.001 false)
    as (self' & ll & status & H); [cbn; lia|reflexivity|lia|].
  assert (Hno : converged status = false).
  { destruct (fit_run _ _ _ _ _ _ _ _ _ H)
      as (tr0 & T & sf & _ & Hbefore & Hend & _ & _ & Hc & _ & _).
    rewrite Hc. destruct Hend as [(Hlim & Hyes & _)|(_ & ->)]; [|reflexivity].
    apply pass_converges_iff in Hyes. cbn in Hlim. apply Z.ltb_lt in Hlim. lia. }
  exists self', ll, status. split; [exact H|]. split; [exact Hno|].
  exact (fit_limit_returns_previous_log_likelihood _ _ _ _ _ _ _ _ _ H Hno).
Defined.

(** X18: A negative iteration limit, on a model with arrays of the right
    shapes and a dataset of its width: with tracing the allocation of the
    trace array raises and the model is left as it was; without tracing [fit]
    returns at once, with no log-likelihood, no convergence, no iteration
    and no trace. *)
Theorem fit_negative_limit (fuel : nat) (self : BernoulliMixture)
    (dataset : matrix bool) (n : Z) (threshold : R) (trace_likelihood : bool) :
  well_shaped self ->
  (0 < n_cols dataset)%nat ->
  Z.of_nat (n_cols dataset) = number_of_dimensions self ->
  (n < 0)%Z ->
  fit fuel self dataset (Some n) threshold trace_likelihood
  = if trace_likelihood
    then Some (self, inl NegativeDimensions)
    else Some (self, inr (None, {| converged := false;
                                   number_of_iterations := 0;
                                   likelihood_trace := None |})).
Proof.
  intros _ Hcols Hdim Hn. unfold fit.
  rewrite (check_dimensions_ok _ _ Hdim), (aggregate_returns _ Hcols).
  destruct (aggregated dataset) as [U C].
  assert (Hz : (n =? 0)%Z = false) by (apply Z.eqb_neq; lia).
  assert (Hneg : (n <? 0)%Z = true) by (apply Z.ltb_lt; lia).
  destruct trace_likelihood.
  - unfold initial_trace, truthy. rewrite Hz. cbn [negb]. rewrite Hneg.
    reflexivity.
  - cbn [initial_trace ret].
    assert (Hloop : forall s, iterations_done s = 0%nat ->
              fit_loop fuel U C (Some n) threshold s = Some s).
    { intros s Hs. destruct fuel; cbn [fit_loop]; unfold loop_test;
        rewrite Hs;
        replace (Z.of_nat 0 <? n)%Z with false
          by (symmetry; apply Z.ltb_ge; lia); reflexivity. }
    rewrite Hloop by reflexivity. reflexivity.
Qed.

Lemma fit_negative_limit_witness :
  well_shaped model_2_2
  /\ (0 < n_cols dataset_3_2)%nat
  /\ Z.of_nat (n_cols dataset_3_2) = number_of_dimensions model_2_2
  /\ (-1 < 0)%Z
  /\ fit 0 model_2_2 dataset_3_2 (Some (-1)%Z) 0.001 true
     = Some (model_2_2, inl NegativeDimensions).
Proof.
  assert (H1 : (0 < n_cols dataset_3_2)%nat) by (cbn; lia).
  assert (H2 : Z.of_nat (n_cols dataset_3_2) = number_of_dimensions model_2_2)
    by reflexivity.
  assert (H3 : (-1 < 0)%Z) by lia.
  assert (H0 : well_shaped model_2_2) by (split; reflexivity).
  split; [exact H0|]. split; [exact H1|]. split; [exact H2|].
  split; [exact H3|].
  exact (fit_negative_limit 0 model_2_2 dataset_3_2 (-1) 0.001 true
           H0 H1 H2 H3).
Defined.

(** X19: On a model with arrays of the right shapes [fit] raises in three
    cases only, tested in this order: the dataset has another number of
    columns than the model has dimensions, the dataset has no column, a trace
    is asked for with a negative iteration limit.  Whenever it raises, the
    model is left as it was. *)
Theorem fit_raises_iff (fuel : nat) (self self' : BernoulliMixture)
    (dataset : matrix bool) (iteration_limit : option Z) (threshold : R)
    (trace_likelihood : bool) (e : exception) :
  well_shaped self ->
  fit fuel self dataset iteration_limit threshold trace_likelihood
  = Some (self', inl e)
  <-> self' = self
      /\ ((Z.of_nat (n_cols dataset) <> number_of_dimensions self
           /\ e = DatasetShapeMismatch (Z.of_nat (n_cols dataset))
                    (number_of_dimensions self))
          \/ (Z.of_nat (n_cols dataset) = number_of_dimensions self
              /\ n_cols dataset = 0%nat /\ e = EmptyRecord)
          \/ (Z.of_nat (n_cols dataset) = number_of_dimensions self
              /\ (0 < n_cols dataset)%nat
              /\ trace_likelihood = true
              /\ (exists n, iteration_limit = Some n /\ (n < 0)%Z)
              /\ e = NegativeDimensions)).
Proof.
  intros _.
  destruct (Z.eq_dec (Z.of_nat (n_cols dataset)) (number_of_dimensions self))
    as [Hdim|Hdim].
  - destruct (Nat.eq_dec (n_cols dataset) 0) as [Hz|Hz].
    + assert (Hfit : fit fuel self dataset iteration_limit threshold
                       trace_likelihood = Some (self, inl EmptyRecord)).
      { unfold fit. rewrite (check_dimensions_ok _ _ Hdim).
        unfold _aggregate_dataset, view_as_records. rewrite Hz. reflexivity. }
      rewrite Hfit. split.
      * intros H. inversion H; subst. split; [reflexivity|]. right. left. auto.
      * intros [-> [[Hne _]|[(_ & _ & ->)|(_ & Hpos & _)]]];
          [contradiction|reflexivity|lia].
    + assert (Hpos : (0 < n_cols dataset)%nat) by lia.
      split.
      * intros H. unfold fit in H.
        rewrite (check_dimensions_ok _ _ Hdim), (aggregate_returns _ Hpos) in H.
        destruct (aggregated dataset) as [U C].
        destruct (initial_trace iteration_limit trace_likelihood) as [e'|tr0]
          eqn:Et.
        -- inversion H; subst. split; [reflexivity|]. right. right.
           unfold initial_trace in Et.
           destruct trace_likelihood; [|discriminate].
           destruct (truthy iteration_limit); [|discriminate].
           destruct iteration_limit as [n|]; [|discriminate].
           destruct (n <? 0)%Z eqn:En; [|discriminate].
           apply Z.ltb_lt in En. inversion Et. repeat split; eauto.
        -- destruct (fit_loop _ _ _ _ _ _); discriminate.
      * intros [-> [[Hne _]|[(_ & Hzero & _)|(_ & _ & -> & (n & -> & Hn) & ->)]]];
          [contradiction|lia|].
        unfold fit.
        rewrite (check_dimensions_ok _ _ Hdim), (aggregate_returns _ Hpos).
        destruct (aggregated dataset) as [U C].
        unfold initial_trace, truthy.
        replace (n =? 0)%Z with false by (symmetry; apply Z.eqb_neq; lia).
        replace (n <? 0)%Z with true by (symmetry; apply Z.ltb_lt; lia).
        reflexivity.
  - assert (Hfit : fit fuel self dataset iteration_limit threshold
                     trace_likelihood
                   = Some (self, inl (DatasetShapeMismatch
                                        (Z.of_nat (n_cols dataset))
                                        (number_of_dimensions self)))).
    { unfold fit. now rewrite (check_dimensions_mismatch _ _ Hdim). }
    rewrite Hfit. split.
    + intros H. inversion H; subst. split; [reflexivity|]. left. auto.
    + intros [-> [[_ ->]|[(Heq & _)|(Heq & _)]]];
        [reflexivity|contradiction|contradiction].
Qed.

Lemma fit_raises_iff_witness :
  well_shaped model_2_2
  /\ fit 0 model_2_2 (Mat 0 [[]; []]) (Some 5%Z) 0.001 false
     = Some (model_2_2, inl (DatasetShapeMismatch 0 2)).
Proof.
  assert (H0 : well_shaped model_2_2) by (split; reflexivity).
  split; [exact H0|].
  apply (fit_raises_iff 0 model_2_2 model_2_2 (Mat 0 [[]; []]) (Some 5%Z)
           0.001 false (DatasetShapeMismatch 0 2) H0).
  split; [reflexivity|]. left. split; [|reflexivity].
  cbn. discriminate.
Defined.

(** ** [fit] keeps the model valid *)

Lemma valid_from_conditions (self : BernoulliMixture) :
  shape1 (mixing_coefficients self) = number_of_components self ->
  Rabs (np_sum (mixing_coefficients self) - 1) <= sum_tolerance ->
  Forall (fun p => 0 <= p <= 1) (mixing_coefficients self) ->
  shape (emission_probabilities self)
  = (number_of_components self, number_of_dimensions self) ->
  Forall (Forall (fun p => 0 <= p <= 1)) (m_rows (emission_probabilities self)) ->
  _validate self = inr tt.
Proof.
  destruct self as [K D mixing emission].
  unfold mixing_coefficients, emission_probabilities, number_of_components,
    number_of_dimensions. cbn.
  intros H1 H2 H3 H4 H5.
  pose proof (init_accepts_valid K D mixing emission H1 H2 H3 H4 H5) as Hi.
  apply init_returns_validated in Hi. exact (proj1 Hi).
Qed.

Lemma valid_model_has_components (self : BernoulliMixture) :
  _validate self = inr tt ->
  (1 <= number_of_components self)%Z /\ (0 <= number_of_dimensions self)%Z.
Proof.
  intros Hv. apply validate_ok_inv in Hv.
  destruct Hv as (H1 & H2 & _ & H4 & _).
  split.
  - destruct (mixing_coefficients self) as [|p mixing].
    + exfalso. unfold sum_tolerance, default_atol, default_rtol, np_sum in H2.
      simpl in H2. rewrite Rabs_R1 in H2.
      replace (0 - 1) with (- (1)) in H2 by lra.
      rewrite Rabs_Ropp, Rabs_R1 in H2. lra.
    + unfold shape1 in H1. simpl length in H1. lia.
  - unfold shape in H4. inversion H4. lia.
Qed.

Lemma em_iterate_regular (t : nat) (self : BernoulliMixture)
    (U : matrix bool) (C : list nat) :
  regular_for self U C -> regular_for (em_iterate t self U C) U C.
Proof.
  intros H. induction t as [|t IH]; [exact H|].
  cbn [em_iterate]. now apply pass_regular_monotone.
Qed.

Lemma new_pi_sum_one (D K M : nat) (x : nat -> nat -> bool) (w pi : nat -> R)
    (mu : nat -> nat -> R) :
  em_regular D K M x w pi mu -> (0 < K)%nat ->
  big_sum K (em_new_pi D K M x w pi mu) = 1.
Proof.
  intros Hreg HK.
  pose proof (total_weight_pos _ _ _ _ _ _ _ Hreg HK) as HW.
  pose proof (count_sum _ _ _ _ _ _ _ Hreg) as Hc.
  transitivity (big_sum K (em_count D K M x w pi mu) * / big_sum M w).
  - apply (big_sum_scal_r K (/ big_sum M w) (em_count D K M x w pi mu)).
  - rewrite Hc. field. lra.
Qed.

Lemma fit_checked_dimensions (fuel : nat) (self self' : BernoulliMixture)
    (dataset : matrix bool) (iteration_limit : option Z) (threshold : R)
    (trace_likelihood : bool) (r : option R * ConvergenceStatus) :
  fit fuel self dataset iteration_limit threshold trace_likelihood
  = Some (self', inr r) ->
  Z.of_nat (n_cols dataset) = number_of_dimensions self
  /\ (0 < n_cols dataset)%nat.
Proof.
  intros H. unfold fit in H.
  destruct (check_dimensions self dataset) as [e|[]] eqn:Ed; [discriminate|].
  destruct (_aggregate_dataset dataset) as [e|p] eqn:Ea; [discriminate|].
  apply aggregate_inr_inv in Ea. split; [|exact (proj1 Ea)].
  unfold check_dimensions, shape in Ed. cbn [snd] in Ed.
  destruct (Z.of_nat (n_cols dataset) =? number_of_dimensions self)%Z eqn:E;
    [|discriminate].
  now apply Z.eqb_eq.
Qed.

(** One update of a regular model that has a component gives a model that
    passes [_validate]. *)
Lemma m_step_valid (self : BernoulliMixture) (U : matrix bool) (C : list nat) :
  regular_for self U C ->
  (1 <= number_of_components self)%Z ->
  Z.of_nat (n_cols U) = number_of_dimensions self ->
  _validate (m_step_of self U C) = inr tt.
Proof.
  intros Hreg HK HD.
  destruct (pass_regular_monotone _ _ _ Hreg) as [Hreg' _].
  destruct Hreg as (Hwf & Hcounts & Hshaped & Hem).
  destruct Hreg' as (_ & _ & (Hlen & Hrows & Hcols) & Hem').
  set (self' := m_step_of self U C) in *.
  assert (HK' : number_of_components self' = number_of_components self)
    by reflexivity.
  assert (HD' : number_of_dimensions self' = number_of_dimensions self)
    by reflexivity.
  rewrite HK' in Hlen, Hrows, Hem'.
  set (K := Z.to_nat (number_of_components self)) in *.
  assert (HKpos : (0 < K)%nat) by (subst K; lia).
  assert (Hpi : forall k, (k < K)%nat ->
            model_pi self' k
            = em_new_pi (n_cols U) K (length (m_rows U)) (bit U)
                (data_weight C) (model_pi self) (model_mu self) k).
  { intros k Hk. now apply m_step_pi. }
  assert (Hsum : np_sum (mixing_coefficients self') = 1).
  { rewrite np_sum_big_sum, Hlen.
    rewrite <- (new_pi_sum_one _ _ _ _ _ _ _ Hem HKpos).
    apply big_sum_ext. intros k Hk. exact (Hpi k Hk). }
  assert (Hnn : forall k, (k < K)%nat -> 0 <= nth k (mixing_coefficients self') 0).
  { intros k Hk. change (0 <= model_pi self' k). rewrite (Hpi k Hk).
    left. now apply new_pi_pos. }
  apply valid_from_conditions.
  - unfold shape1. rewrite Hlen, HK'. subst K. lia.
  - rewrite Hsum. replace (1 - 1) with 0 by lra. rewrite Rabs_R0.
    unfold sum_tolerance, default_atol, default_rtol. rewrite Rabs_R1. lra.
  - rewrite Forall_forall. intros p Hin.
    destruct (In_nth _ _ 0 Hin) as (k & Hk & <-). rewrite Hlen in Hk.
    split; [now apply Hnn|].
    rewrite <- Hsum, np_sum_big_sum, Hlen.
    apply (big_sum_ge_term K k (fun i => nth i (mixing_coefficients self') 0));
      [exact Hnn|exact Hk].
  - unfold shape. rewrite Hrows, HK', HD'. f_equal; [subst K; lia|].
    rewrite <- HD. reflexivity.
  - destruct Hem' as (_ & _ & _ & Hmu & _).
    rewrite Forall_forall. intros row Hrow.
    assert (Hrowlen : length row = n_cols U).
    { rewrite Forall_forall in Hcols. now apply Hcols. }
    destruct (In_nth _ _ [] Hrow) as (k & Hk & Hrowk). rewrite Hrows in Hk.
    rewrite Forall_forall. intros p Hp.
    destruct (In_nth _ _ 0 Hp) as (d & Hd & <-). rewrite Hrowlen in Hd.
    specialize (Hmu k d Hk Hd). unfold model_mu, entry in Hmu.
    now rewrite Hrowk in Hmu.
Qed.

(** X20: [fit] keeps the model valid: called on a model that passes [_validate]
    and is not degenerate on the dataset, it leaves a model that passes
    [_validate] again, with mixing coefficients that sum to one. *)
Theorem fit_keeps_model_valid (fuel : nat) (self self' : BernoulliMixture)
    (dataset : matrix bool) (iteration_limit : option Z) (threshold : R)
    (trace_likelihood : bool) (ll : option R) (status : ConvergenceStatus) :
  _validate self = inr tt ->
  non_degenerate self dataset ->
  fit fuel self dataset iteration_limit threshold trace_likelihood
  = Some (self', inr (ll, status)) ->
  _validate self' = inr tt
  /\ ((1 <= number_of_iterations status)%nat ->
      np_sum (mixing_coefficients self') = 1).
Proof.
  intros Hv Hnd H.
  destruct (fit_checked_dimensions _ _ _ _ _ _ _ _ H) as [Hdim _].
  apply fit_run in H.
  destruct H as (tr0 & T & sf & _ & _ & _ & -> & _ & _ & -> & _).
  apply non_degenerate_regular in Hnd.
  destruct (valid_model_has_components _ Hv) as [HK _].
  destruct T as [|t]; [split; [exact Hv|lia]|].
  pose proof (em_iterate_regular t _ _ _ Hnd) as Hreg.
  destruct (em_iterate_dimensions t self (fst (aggregated dataset))
              (snd (aggregated dataset))) as [HKt HDt].
  assert (Hvalid : _validate (em_iterate (S t) self (fst (aggregated dataset))
                                (snd (aggregated dataset))) = inr tt).
  { cbn [em_iterate]. apply m_step_valid; [exact Hreg|now rewrite HKt|].
    now rewrite HDt, aggregate_n_cols. }
  split; [exact Hvalid|]. intros _.
  cbn [em_iterate].
  destruct (pass_regular_monotone _ _ _ Hreg) as [(_ & _ & (Hlen & _) & _) _].
  destruct Hreg as (Hwf & Hcounts & Hshaped & Hem).
  rewrite np_sum_big_sum, Hlen.
  change (number_of_components (m_step_of _ _ _))
    with (number_of_components
            (em_iterate t self (fst (aggregated dataset))
               (snd (aggregated dataset)))).
  rewrite <- (new_pi_sum_one _ _ _ _ _ _ _ Hem) by (rewrite HKt; lia).
  apply big_sum_ext. intros k Hk.
  now apply (m_step_pi _ _ _ Hwf Hcounts Hshaped).
Qed.

Lemma model_2_2_valid : _validate model_2_2 = inr tt.
Proof.
  apply valid_from_conditions; try reflexivity.
  - unfold sum_tolerance, default_atol, default_rtol, np_sum. simpl.
    rewrite Rabs_R1. rewrite Rabs_right; lra.
  - repeat constructor; lra.
  - repeat constructor; lra.
Qed.

Lemma fit_keeps_model_valid_witness :
  exists self' ll status,
    (_validate model_2_2 = inr tt
     /\ non_degenerate model_2_2 dataset_3_2
     /\ fit 3 model_2_2 dataset_3_2 (Some 3%Z) 0.001 true
        = Some (self', inr (ll, status)))
    /\ _validate self' = inr tt
    /\ ((1 <= number_of_iterations status)%nat ->
        np_sum (mixing_coefficients self') = 1).
Proof.
  destruct (fit_returns 3 model_2_2 dataset_3_2 3 0.001 true)
    as (self' & ll & status & H); [cbn; lia|reflexivity|lia|].
  exists self', ll, status.
  split; [split; [exact model_2_2_valid|];
          split; [exact model_2_2_non_degenerate|exact H]|].
  exact (fit_keeps_model_valid _ _ _ _ _ _ _ _ _
           model_2_2_valid model_2_2_non_degenerate H).
Defined.

Lemma pass_value_monotone (self : BernoulliMixture) (U : matrix bool)
    (C : list nat) :
  regular_for self U C ->
  forall t u, (t <= u)%nat -> pass_value self U C t <= pass_value self U C u.
Proof.
  intros Hreg t u Hle. induction Hle as [|u Hle IH]; [lra|].
  eapply Rle_trans; [exact IH|].
  unfold pass_value. cbn [em_iterate].
  apply pass_regular_monotone. now apply em_iterate_regular.
Qed.

(** X21: [fit] never makes the model worse: on a model that is not degenerate on
    the dataset, the log-likelihood of the model it leaves is at least that
    of the model it was called on, and the log-likelihood it returns lies
    between the two. *)
Theorem fit_never_lowers_log_likelihood (fuel : nat)
    (self self' : BernoulliMixture) (dataset : matrix bool)
    (iteration_limit : option Z) (threshold : R) (trace_likelihood : bool)
    (ll : option R) (status : ConvergenceStatus) :
  non_degenerate self dataset ->
  fit fuel self dataset iteration_limit threshold trace_likelihood
  = Some (self', inr (ll, status)) ->
  exists before after,
    log_likelihood self dataset = inr before
    /\ log_likelihood self' dataset = inr after
    /\ before <= after
    /\ (forall c, ll = Some c -> before <= c <= after).
Proof.
  intros Hnd H.
  destruct (fit_checked_dimensions _ _ _ _ _ _ _ _ H) as [Hdim Hcols].
  apply fit_run in H.
  destruct H as (tr0 & T & sf & _ & _ & Hend & -> & -> & _ & _ & _).
  apply non_degenerate_regular in Hnd.
  set (U := fst (aggregated dataset)) in *.
  set (C := snd (aggregated dataset)) in *.
  pose proof (pass_value_monotone self U C Hnd) as Hmono.
  exists (pass_value self U C 0), (pass_value self U C T).
  split; [exact (log_likelihood_returns self dataset Hcols Hdim)|].
  split.
  { apply (log_likelihood_returns (em_iterate T self U C) dataset Hcols).
    now rewrite (proj2 (em_iterate_dimensions T self U C)). }
  split; [apply Hmono; lia|].
  intros c Hc. destruct Hend as [(_ & _ & ->)|(_ & ->)].
  - cbn [current_log_likelihood state_at_break] in Hc.
    inversion Hc; subst c. split; [apply (Hmono 0%nat T); lia|lra].
  - cbn [current_log_likelihood state_after] in Hc.
    destruct T as [|t]; [discriminate|].
    cbn [last_value] in Hc. inversion Hc; subst c.
    split; [apply (Hmono 0%nat t)|apply (Hmono t (S t))]; lia.
Qed.

Lemma fit_never_lowers_log_likelihood_witness :
  exists self' ll status,
    (non_degenerate model_2_2 dataset_3_2
     /\ fit 3 model_2_2 dataset_3_2 (Some 3%Z) 0.001 true
        = Some (self', inr (ll, status)))
    /\ exists before after,
         log_likelihood model_2_2 dataset_3_2 = inr before
         /\ log_likelihood self' dataset_3_2 = inr after
         /\ before <= after
         /\ (forall c, ll = Some c -> before <= c <= after).
Proof.
  destruct (fit_returns 3 model_2_2 dataset_3_2 3 0.001 true)
    as (self' & ll & status & H); [cbn; lia|reflexivity|lia|].
  exists self', ll, status.
  split; [split; [exact model_2_2_non_degenerate|exact H]|].
  exact (fit_never_lowers_log_likelihood _ _ _ _ _ _ _ _ _
           model_2_2_non_degenerate H).
Defined.

(** ** Assignment, row by row *)

Lemma soft_assignment_rows (self : BernoulliMixture) (dataset : matrix bool) :
  exists probs,
    soft_assignment self dataset = inr probs
    /\ n_cols probs = Z.to_nat (number_of_components self)
    /\ m_rows probs
       = map (fun x => map (fun s => s / np_sum (support_row self x))
                           (support_row self x))
             (m_rows dataset).
Proof.
  eexists. split; [reflexivity|]. split; [reflexivity|].
  rewrite (posterior_rows _ (support_wf self dataset)), support_rows, map_map.
  reflexivity.
Qed.

(** X22: The assignment of an observation does not depend on the other
    observations of the dataset: for datasets of the width of the model, the
    soft and the hard assignment of two datasets stacked on each other are
    the assignments of the first followed by those of the second. *)
Theorem assignment_of_stacked_datasets (self : BernoulliMixture)
    (ds1 ds2 : matrix bool) :
  Z.of_nat (n_cols ds1) = number_of_dimensions self ->
  n_cols ds2 = n_cols ds1 ->
  exists probs1 probs2 labels1 labels2,
    soft_assignment self ds1 = inr probs1
    /\ soft_assignment self ds2 = inr probs2
    /\ hard_assignment self ds1 = inr labels1
    /\ hard_assignment self ds2 = inr labels2
    /\ soft_assignment self (vstack ds1 ds2) = inr (vstack probs1 probs2)
    /\ hard_assignment self (vstack ds1 ds2) = inr (labels1 ++ labels2).
Proof.
  intros _ _.
  destruct (soft_assignment_rows self ds1) as (p1 & H1 & Hc1 & Hr1).
  destruct (soft_assignment_rows self ds2) as (p2 & H2 & Hc2 & Hr2).
  destruct (soft_assignment_rows self (vstack ds1 ds2)) as (p & H & Hc & Hr).
  assert (Hp : p = vstack p1 p2).
  { cbn [vstack m_rows] in Hr. rewrite map_app, <- Hr1, <- Hr2 in Hr.
    destruct p as [c rows]. cbn [n_cols m_rows] in *. unfold vstack.
    now rewrite Hc1, Hc, Hr. }
  subst p.
  exists p1, p2, (map np_argmax (m_rows p1)), (map np_argmax (m_rows p2)).
  unfold hard_assignment. rewrite H1, H2, H. cbn [bind ret vstack m_rows].
  rewrite map_app. repeat split; reflexivity.
Qed.

Lemma assignment_of_stacked_datasets_witness :
  Z.of_nat (n_cols dataset_3_2) = number_of_dimensions model_2_2
  /\ n_cols dataset_3_2 = n_cols dataset_3_2
  /\ exists probs1 probs2 labels1 labels2,
       soft_assignment model_2_2 dataset_3_2 = inr probs1
       /\ soft_assignment model_2_2 dataset_3_2 = inr probs2
       /\ hard_assignment model_2_2 dataset_3_2 = inr labels1
       /\ hard_assignment model_2_2 dataset_3_2 = inr labels2
       /\ soft_assignment model_2_2 (vstack dataset_3_2 dataset_3_2)
          = inr (vstack probs1 probs2)
       /\ hard_assignment model_2_2 (vstack dataset_3_2 dataset_3_2)
          = inr (labels1 ++ labels2).
Proof.
  split; [reflexivity|]. split; [reflexivity|].
  exact (assignment_of_stacked_datasets model_2_2 dataset_3_2 dataset_3_2
           eq_refl eq_refl).
Defined.

(** ** The information criteria, compared *)

Lemma ratio_pow_le (a b c : Z) (n : nat) :
  (0 < b)%Z -> (a ^ Z.of_nat n <= c * b ^ Z.of_nat n)%Z ->
  (IZR a / IZR b) ^ n <= IZR c.
Proof.
  intros Hb H. apply IZR_le in H. rewrite mult_IZR, <- !pow_IZR in H.
  assert (Hb' : 0 < IZR b) by now apply IZR_lt.
  assert (Hbn : 0 < IZR b ^ n) by now apply pow_lt.
  unfold Rdiv. rewrite Rpow_mult_distr, pow_inv.
  apply (Rmult_le_reg_r (IZR b ^ n)); [exact Hbn|].
  rewrite Rmult_assoc, Rinv_l by lra. lra.
Qed.

Lemma ratio_pow_ge (a b c : Z) (n : nat) :
  (0 < b)%Z -> (c * b ^ Z.of_nat n <= a ^ Z.of_nat n)%Z ->
  IZR c <= (IZR a / IZR b) ^ n.
Proof.
  intros Hb H. apply IZR_le in H. rewrite mult_IZR, <- !pow_IZR in H.
  assert (Hb' : 0 < IZR b) by now apply IZR_lt.
  assert (Hbn : 0 < IZR b ^ n) by now apply pow_lt.
  unfold Rdiv. rewrite Rpow_mult_distr, pow_inv.
  apply (Rmult_le_reg_r (IZR b ^ n)); [exact Hbn|].
  rewrite Rmult_assoc, Rinv_l by lra. lra.
Qed.

(** [log 8 > 2], from [(31/30)^63 <= 8] and [ln x >= 1 - 1/x]. *)
Lemma ln_8_above_2 : 2 < ln 8.
Proof.
  assert (Hp : (31 / 30) ^ 63 <= 8).
  { apply (ratio_pow_le 31 30 8 63); [lia|].
    apply Z.leb_le. vm_compute. reflexivity. }
  assert (Hpos : 0 < (31 / 30) ^ 63) by (apply pow_lt; lra).
  pose proof (ln_monotone _ _ Hpos Hp) as Hm.
  rewrite ln_pow in Hm by lra.
  assert (Hl : 1 - 30 / 31 <= ln (31 / 30)).
  { pose proof (ln_le_minus_1 (30 / 31)) as H.
    assert (H0 : 0 < 30 / 31) by lra. specialize (H H0).
    replace (31 / 30) with (/ (30 / 31)) by (field; lra).
    rewrite ln_Rinv by lra. lra. }
  replace (INR 63) with 63 in Hm by (rewrite INR_IZR_INZ; reflexivity).
  lra.
Qed.

(** [log 7 < 2], from [(41/40)^79 >= 7] and [ln x <= x - 1]. *)
Lemma ln_7_below_2 : ln 7 < 2.
Proof.
  assert (Hp : 7 <= (41 / 40) ^ 79).
  { apply (ratio_pow_ge 41 40 7 79); [lia|].
    apply Z.leb_le. vm_compute. reflexivity. }
  assert (Hm : ln 7 <= ln ((41 / 40) ^ 79)) by (apply ln_monotone; lra).
  rewrite ln_pow in Hm by lra.
  pose proof (ln_le_minus_1 (41 / 40)) as H.
  assert (H0 : 0 < 41 / 40) by lra. specialize (H H0).
  replace (INR 79) with 79 in Hm by (rewrite INR_IZR_INZ; reflexivity).
  lra.
Qed.

Lemma criteria_values (self : BernoulliMixture) (dataset : matrix bool) :
  (0 < n_cols dataset)%nat ->
  Z.of_nat (n_cols dataset) = number_of_dimensions self ->
  let ll := _log_likelihood_from_support
              (_observation_emission_support self (fst (aggregated dataset)))
              (map INR (snd (aggregated dataset))) in
  AIC self dataset
  = inr (-2 * ll + 2 * IZR (number_of_free_parameters self))
  /\ BIC self dataset
     = inr (-2 * ll + ln (INR (length (m_rows dataset)))
                      * IZR (number_of_free_parameters self)).
Proof.
  intros Hcols Hdim ll. unfold AIC, BIC.
  rewrite (log_likelihood_returns _ _ Hcols Hdim). split; reflexivity.
Qed.

Lemma free_parameters_positive (self : BernoulliMixture) (dataset : matrix bool) :
  (0 < n_cols dataset)%nat ->
  Z.of_nat (n_cols dataset) = number_of_dimensions self ->
  (1 <= number_of_components self)%Z ->
  1 <= IZR (number_of_free_parameters self).
Proof.
  intros Hcols Hdim HK. apply IZR_le. unfold number_of_free_parameters. nia.
Qed.

(** X23: On a dataset on every row of which the model has positive support
    (so that the log-likelihood is a real number), [BIC] and [AIC] differ by
    [(log N - 2)] times the number of free parameters, [N] being the number
    of rows: on a dataset of eight rows or more [BIC] is the larger of the
    two, on one of one to seven rows [AIC] is. *)
Theorem BIC_exceeds_AIC_from_eight_rows (self : BernoulliMixture)
    (dataset : matrix bool) :
  (0 < n_cols dataset)%nat ->
  Z.of_nat (n_cols dataset) = number_of_dimensions self ->
  (1 <= number_of_components self)%Z ->
  (1 <= length (m_rows dataset))%nat ->
  Forall (fun row => 0 < np_sum (support_row self row)) (m_rows dataset) ->
  exists aic bic,
    AIC self dataset = inr aic
    /\ BIC self dataset = inr bic
    /\ bic - aic = (ln (INR (length (m_rows dataset))) - 2)
                   * IZR (number_of_free_parameters self)
    /\ ((8 <= length (m_rows dataset))%nat -> aic < bic)
    /\ ((length (m_rows dataset) <= 7)%nat -> bic < aic).
Proof.
  intros Hcols Hdim HK HN _.
  destruct (criteria_values self dataset Hcols Hdim) as [Ha Hb].
  pose proof (free_parameters_positive self dataset Hcols Hdim HK) as Hfp.
  eexists _, _. split; [exact Ha|]. split; [exact Hb|].
  split; [ring|].
  set (N := length (m_rows dataset)) in *.
  assert (HN0 : 0 < INR N) by (apply lt_0_INR; lia).
  split; intros Hrows.
  - assert (H8 : 8 <= INR N).
    { replace 8 with (INR 8) by (rewrite INR_IZR_INZ; reflexivity).
      now apply le_INR. }
    assert (Hln : ln 8 <= ln (INR N)) by (apply ln_monotone; lra).
    pose proof ln_8_above_2. nra.
  - assert (H7 : INR N <= 7).
    { replace 7 with (INR 7) by (rewrite INR_IZR_INZ; reflexivity).
      now apply le_INR. }
    assert (Hln : ln (INR N) <= ln 7) by (apply ln_monotone; lra).
    pose proof ln_7_below_2. nra.
Qed.

Lemma model_2_2_support_positive_9 :
  Forall (fun row => 0 < np_sum (support_row model_2_2 row))
         (m_rows dataset_9_2).
Proof.
  repeat constructor; unfold support_row, np_sum; simpl; lra.
Qed.

Lemma BIC_exceeds_AIC_from_eight_rows_witness :
  ((0 < n_cols dataset_9_2)%nat
   /\ Z.of_nat (n_cols dataset_9_2) = number_of_dimensions model_2_2
   /\ (1 <= number_of_components model_2_2)%Z
   /\ (8 <= length (m_rows dataset_9_2))%nat
   /\ Forall (fun row => 0 < np_sum (support_row model_2_2 row))
             (m_rows dataset_9_2)
   /\ exists aic bic,
        AIC model_2_2 dataset_9_2 = inr aic
        /\ BIC model_2_2 dataset_9_2 = inr bic
        /\ aic < bic)
  /\ ((1 <= length (m_rows dataset_3_2) <= 7)%nat
      /\ Forall (fun row => 0 < np_sum (support_row model_2_2 row))
                (m_rows dataset_3_2)
      /\ exists aic bic,
           AIC model_2_2 dataset_3_2 = inr aic
           /\ BIC model_2_2 dataset_3_2 = inr bic
           /\ bic < aic).
Proof.
  assert (H1 : (0 < n_cols dataset_9_2)%nat) by (cbn; lia).
  assert (H2 : Z.of_nat (n_cols dataset_9_2) = number_of_dimensions model_2_2)
    by reflexivity.
  assert (H3 : (1 <= number_of_components model_2_2)%Z) by (cbn; lia).
  assert (H4 : (1 <= length (m_rows dataset_9_2))%nat) by (cbn; lia).
  assert (H8 : (8 <= length (m_rows dataset_9_2))%nat) by (cbn; lia).
  assert (G1 : (0 < n_cols dataset_3_2)%nat) by (cbn; lia).
  assert (G4 : (1 <= length (m_rows dataset_3_2))%nat) by (cbn; lia).
  assert (G7 : (length (m_rows dataset_3_2) <= 7)%nat) by (cbn; lia).
  split.
  - split; [exact H1|]. split; [exact H2|]. split; [exact H3|].
    split; [exact H8|]. split; [exact model_2_2_support_positive_9|].
    destruct (BIC_exceeds_AIC_from_eight_rows model_2_2 dataset_9_2
                H1 H2 H3 H4 model_2_2_support_positive_9)
      as (aic & bic & Ha & Hb & _ & Hlarge & _).
    exists aic, bic. split; [exact Ha|]. split; [exact Hb|exact (Hlarge H8)].
  - split; [split; [exact G4|exact G7]|].
    split; [exact model_2_2_support_positive|].
    destruct (BIC_exceeds_AIC_from_eight_rows model_2_2 dataset_3_2
                G1 eq_refl H3 G4 model_2_2_support_positive)
      as (aic & bic & Ha & Hb & _ & _ & Hsmall).
    exists aic, bic. split; [exact Ha|]. split; [exact Hb|exact (Hsmall G7)].
Defined.

(** X24: [AIC] and [BIC] are never negative on a model with non-negative mixing
    coefficients that sum to at most one, emission probabilities in [0,1],
    a component, and positive support on every row of a dataset that has a
    row. *)
Theorem information_criteria_nonnegative (self : BernoulliMixture)
    (dataset : matrix bool) :
  (0 < n_cols dataset)%nat ->
  Z.of_nat (n_cols dataset) = number_of_dimensions self ->
  (1 <= number_of_components self)%Z ->
  (1 <= length (m_rows dataset))%nat ->
  length (mixing_coefficients self) = Z.to_nat (number_of_components self) ->
  Forall (fun p => 0 <= p) (mixing_coefficients self) ->
  np_sum (mixing_coefficients self) <= 1 ->
  Forall (Forall (fun q => 0 <= q <= 1)) (m_rows (emission_probabilities self)) ->
  Forall (fun row => 0 < np_sum (support_row self row)) (m_rows dataset) ->
  exists aic bic,
    AIC self dataset = inr aic /\ BIC self dataset = inr bic
    /\ 0 <= aic /\ 0 <= bic.
Proof.
  intros Hcols Hdim HK HN Hlen Hpi Hsum Hmu Hsupp.
  destruct (criteria_values self dataset Hcols Hdim) as [Ha Hb].
  pose proof (free_parameters_positive self dataset Hcols Hdim HK) as Hfp.
  pose proof (log_likelihood_value_nonpositive self dataset
                Hlen Hpi Hsum Hmu Hsupp) as Hll.
  eexists _, _. split; [exact Ha|]. split; [exact Hb|].
  assert (Hln : 0 <= ln (INR (length (m_rows dataset)))).
  { rewrite <- ln_1. apply ln_monotone; [lra|].
    replace 1 with (INR 1) by reflexivity. now apply le_INR. }
  split; nra.
Qed.

Lemma information_criteria_nonnegative_witness :
  ((0 < n_cols dataset_3_2)%nat
   /\ Z.of_nat (n_cols dataset_3_2) = number_of_dimensions model_2_2
   /\ (1 <= number_of_components model_2_2)%Z
   /\ (1 <= length (m_rows dataset_3_2))%nat
   /\ np_sum (mixing_coefficients model_2_2) <= 1
   /\ Forall (fun row => 0 < np_sum (support_row model_2_2 row))
             (m_rows dataset_3_2))
  /\ exists aic bic,
       AIC model_2_2 dataset_3_2 = inr aic /\ BIC model_2_2 dataset_3_2 = inr bic
       /\ 0 <= aic /\ 0 <= bic.
Proof.
  assert (H1 : (0 < n_cols dataset_3_2)%nat) by (cbn; lia).
  assert (H2 : Z.of_nat (n_cols dataset_3_2) = number_of_dimensions model_2_2)
    by reflexivity.
  assert (H3 : (1 <= number_of_components model_2_2)%Z) by (cbn; lia).
  assert (H4 : (1 <= length (m_rows dataset_3_2))%nat) by (cbn; lia).
  assert (H5 : np_sum (mixing_coefficients model_2_2) <= 1)
    by (unfold np_sum; simpl; lra).
  assert (H6 : Forall (fun p => 0 <= p) (mixing_coefficients model_2_2))
    by (repeat constructor; simpl; lra).
  assert (H7 : Forall (Forall (fun q => 0 <= q <= 1))
                 (m_rows (emission_probabilities model_2_2)))
    by (repeat constructor; simpl; lra).
  split; [repeat split; try assumption; exact model_2_2_support_positive|].
  exact (information_criteria_nonnegative model_2_2 dataset_3_2
           H1 H2 H3 H4 eq_refl H6 H5 H7 model_2_2_support_positive).
Defined.
